(** * Adega PDV: monetary computations and PIX (EMV/BR Code) payload

    A shallow embedding of the numerically sensitive core of
    [adegav2.py]: [to_decimal], the sale-price derivation of
    [ProductRepo.upsert], the line totals of [SalesRepo.add_item], and the
    PIX payload encoder [_emv_kv] / [_crc16_ccitt] / [build_pix_payload].

    Python values are modelled as follows.
    - [str] is a list of Unicode code points ([pystr]); [len] is [length],
      [s[:n]] is [firstn n s], [+] is [++].
    - [bytes] is a list of integers in [0, 255].
    - [int] is [Z].
    - [decimal.Decimal] is the type [Decimal] below, with the arithmetic of
      the default context (28 significant digits, ROUND_HALF_EVEN,
      Emax = 999999, Emin = -999999, traps on InvalidOperation,
      DivisionByZero and Overflow).
    - a call that may raise returns an [outcome]. *)

From Stdlib Require Import String Ascii ZArith QArith Qround Qabs Qpower List Bool Lia.
Import ListNotations.
Local Open Scope Z_scope.

(** ** Python runtime: outcomes of calls *)

Inductive exn : Type :=
| InvalidOperation     (* decimal.InvalidOperation, incl. ConversionSyntax *)
| DivisionByZero       (* decimal.DivisionByZero *)
| Overflow             (* decimal.Overflow *)
| UnicodeEncodeError.  (* str.encode on a lone surrogate *)

Inductive outcome (A : Type) : Type :=
| Returned (a : A)
| Raised (e : exn).
Arguments Returned {A} a.
Arguments Raised {A} e.

Definition bind {A B : Type} (o : outcome A) (k : A -> outcome B) : outcome B :=
  match o with
  | Returned a => k a
  | Raised e => Raised e
  end.

Notation "x <- c1 ;; c2" := (bind c1 (fun x => c2))
  (at level 61, c1 at next level, right associativity).

(** ** Python runtime: strings *)

Definition pystr : Type := list Z.

(** A string literal of the source, as code points. *)
Definition lit (s : string) : pystr :=
  map (fun a => Z.of_N (N_of_ascii a)) (list_ascii_of_string s).
Arguments lit s%_string.

Definition pystr_eqb (a b : pystr) : bool :=
  if list_eq_dec Z.eq_dec a b then true else false.

(** Truthiness of a [str]: the empty string is falsy. *)
Definition truthy (s : pystr) : bool :=
  match s with [] => false | _ :: _ => true end.

(** [a or b] on strings. *)
Definition py_or (a b : pystr) : pystr := if truthy a then a else b.

(** [s[:n]] for a non-negative literal [n]. *)
Definition slice_to (n : nat) (s : pystr) : pystr := firstn n s.

(** ** Python runtime: integer formatting *)

(** Digits of a non-negative integer, most significant first. *)
Fixpoint to_digits (fuel : nat) (base n : Z) (acc : list Z) : list Z :=
  match fuel with
  | O => acc
  | S f =>
      let acc' := (n mod base) :: acc in
      if n <? base then acc' else to_digits f base (n / base) acc'
  end.

Definition int_digits (base n : Z) : list Z :=
  to_digits (S (Z.to_nat (Z.log2 n))) base n [].

(** [0-9] then [A-Z], as used by the [d] and [X] presentation types. *)
Definition digit_char (d : Z) : Z := if d <? 10 then 48 + d else 55 + d.

Definition zfill (width : nat) (s : pystr) : pystr :=
  repeat 48 (width - length s) ++ s.

(** [str(n)] for [n >= 0]. *)
Definition str_nonneg (n : Z) : pystr := map digit_char (int_digits 10 n).

(** [len(str(n))] for [n >= 0]. *)
Definition ndigits (n : Z) : Z := Z.of_nat (length (int_digits 10 n)).

(** [f"{n:02d}"] for [n >= 0]. *)
Definition fmt_02d (n : Z) : pystr := zfill 2 (str_nonneg n).

(** [f"{n:04X}"] for [n >= 0]. *)
Definition fmt_04X (n : Z) : pystr := zfill 4 (map digit_char (int_digits 16 n)).

(** ** Python runtime: [str.encode("utf-8")] *)

Definition is_surrogate (c : Z) : bool := (0xD800 <=? c) && (c <=? 0xDFFF).

Definition utf8_char (c : Z) : list Z :=
  if c <? 0x80 then [c]
  else if c <? 0x800 then
    [Z.lor 0xC0 (Z.shiftr c 6); Z.lor 0x80 (Z.land c 0x3F)]
  else if c <? 0x10000 then
    [Z.lor 0xE0 (Z.shiftr c 12);
     Z.lor 0x80 (Z.land (Z.shiftr c 6) 0x3F);
     Z.lor 0x80 (Z.land c 0x3F)]
  else
    [Z.lor 0xF0 (Z.shiftr c 18);
     Z.lor 0x80 (Z.land (Z.shiftr c 12) 0x3F);
     Z.lor 0x80 (Z.land (Z.shiftr c 6) 0x3F);
     Z.lor 0x80 (Z.land c 0x3F)].

Fixpoint encode_utf8 (s : pystr) : outcome (list Z) :=
  match s with
  | [] => Returned []
  | c :: rest =>
      if is_surrogate c then Raised UnicodeEncodeError
      else bs <- encode_utf8 rest ;; Returned (utf8_char c ++ bs)
  end.

(** ** PIX (EMV/BR Code): field composer and checksum *)

(** [def _emv_kv(_id, value): return f"{_id}{len(value):02d}{value}"] *)
Definition _emv_kv (_id value : pystr) : pystr :=
  _id ++ fmt_02d (Z.of_nat (length value)) ++ value.

(** One iteration of the inner loop of [_crc16_ccitt]. *)
Definition crc_shift (crc : Z) : Z :=
  Z.land
    (if negb (Z.land crc 0x8000 =? 0)
     then Z.lxor (Z.shiftl crc 1) 0x1021
     else Z.shiftl crc 1)
    0xFFFF.

(** The body of the outer loop: [crc ^= (b << 8)], then eight shifts. *)
Definition crc_byte (crc b : Z) : Z :=
  Nat.iter 8 crc_shift (Z.lxor crc (Z.shiftl b 8)).

Definition _crc16_ccitt (data : list Z) : Z :=
  fold_left crc_byte data 0xFFFF.


(** ** Python runtime: [str.strip], [str.replace], [str(int)] *)

(** [str.isspace] on one character (the whitespace of the Unicode
    database: general category Zs or bidirectional class WS, B or S). *)
Definition isspace (c : Z) : bool :=
  ((0x09 <=? c) && (c <=? 0x0D)) || ((0x1C <=? c) && (c <=? 0x20))
  || (c =? 0x85) || (c =? 0xA0) || (c =? 0x1680)
  || ((0x2000 <=? c) && (c <=? 0x200A))
  || (c =? 0x2028) || (c =? 0x2029) || (c =? 0x202F) || (c =? 0x205F)
  || (c =? 0x3000).

Fixpoint lstrip (s : pystr) : pystr :=
  match s with
  | [] => []
  | c :: rest => if isspace c then lstrip rest else s
  end.

Definition rstrip (s : pystr) : pystr := rev (lstrip (rev s)).

(** [s.strip()] *)
Definition strip (s : pystr) : pystr := rstrip (lstrip s).

(** [s.replace(a, b)] for one-character [a] and [b]. *)
Definition replace_char (a b : Z) (s : pystr) : pystr :=
  map (fun c => if c =? a then b else c) s.

(** [str(n)] for an [int]. *)
Definition str_int (n : Z) : pystr :=
  (if n <? 0 then lit "-" else []) ++ str_nonneg (Z.abs n).

(** ** The [decimal] module under its default context

    [getcontext()] is never changed by the program, so every operation runs
    with prec = 28, rounding = ROUND_HALF_EVEN, Emax = 999999,
    Emin = -999999, clamp = 0, and traps InvalidOperation, DivisionByZero
    and Overflow (a trapped signal raises; the others only set flags). *)

Module decimal.

(** A [Decimal] is finite ((-1)^sign * coef * 10^exp with coef >= 0), an
    infinity, or a quiet or signaling NaN with a diagnostic payload
    (0 for none). *)
Inductive Decimal : Type :=
| Fin (sign : bool) (coef : Z) (exp : Z)
| Inf (sign : bool)
| NaN (sign : bool) (signaling : bool) (payload : Z).

Definition prec : Z := 28.
Definition Emax : Z := 999999.
Definition Emin : Z := -999999.
Definition Etiny : Z := Emin - prec + 1.
Definition Etop : Z := Emax - prec + 1.

Inductive rounding : Type := ROUND_HALF_EVEN | ROUND_HALF_UP.

(** Rounding decision when the [k >= 1] low digits of [c] are dropped:
    1 to round the kept digits up, 0 if nothing is lost, -1 to truncate. *)
Definition _round_half_up (c k : Z) : Z :=
  let r := c mod 10 ^ k in
  if 5 * 10 ^ (k - 1) <=? r then 1 else if r =? 0 then 0 else -1.

Definition _round_half_even (c k : Z) : Z :=
  let r := c mod 10 ^ k in
  if (r =? 5 * 10 ^ (k - 1)) && Z.even (c / 10 ^ k) then -1
  else _round_half_up c k.

Definition _pick_rounding_function (r : rounding) : Z -> Z -> Z :=
  match r with
  | ROUND_HALF_EVEN => _round_half_even
  | ROUND_HALF_UP => _round_half_up
  end.

(** Coefficient of a non-zero [c * 10^e] rounded to exponent [target > e],
    before any carry into a new digit is handled.  A value below the last
    kept place is first replaced by 1 * 10^(target-1). *)
Definition round_coef (r : rounding) (c e target : Z) : Z :=
  let digits := ndigits c + e - target in
  let c1 := if digits <? 0 then 1 else c in
  let k := if digits <? 0 then 1 else target - e in
  let coeff := c1 / 10 ^ k in
  if 0 <? _pick_rounding_function r c1 k then coeff + 1 else coeff.

(** [Decimal._fix]: round a finite value to the context. *)
Definition _fix (s : bool) (c e : Z) : outcome Decimal :=
  if c =? 0 then Returned (Fin s 0 (Z.min (Z.max e Etiny) Emax))
  else
    let exp_min := ndigits c + e - prec in
    if Etop <? exp_min then Raised Overflow
    else
      let exp_min := Z.max exp_min Etiny in
      if e <? exp_min then
        let coeff := round_coef ROUND_HALF_EVEN c e exp_min in
        let carry := prec <? ndigits coeff in
        let coeff := if carry then coeff / 10 else coeff in
        let exp_min := if carry then exp_min + 1 else exp_min in
        if Etop <? exp_min then Raised Overflow
        else Returned (Fin s coeff exp_min)
      else Returned (Fin s c e).

(** [Decimal._fix_nan]: a NaN payload keeps at most [prec] digits. *)
Definition _fix_nan (payload : Z) : Z := payload mod 10 ^ prec.

(** [Decimal._check_nans]: [Some] outcome when an operand is a NaN. *)
Definition _check_nans (x y : Decimal) : option (outcome Decimal) :=
  match x, y with
  | NaN _ true _, _ => Some (Raised InvalidOperation)
  | _, NaN _ true _ => Some (Raised InvalidOperation)
  | NaN s false p, _ => Some (Returned (NaN s false (_fix_nan p)))
  | _, NaN s false p => Some (Returned (NaN s false (_fix_nan p)))
  | _, _ => None
  end.

(** [Decimal(n)] for an [int]. *)
Definition of_int (n : Z) : Decimal := Fin (n <? 0) (Z.abs n) 0.

(** [x * y] *)
Definition mul (x y : Decimal) : outcome Decimal :=
  match _check_nans x y with
  | Some o => o
  | None =>
      match x, y with
      | Fin s1 c1 e1, Fin s2 c2 e2 => _fix (xorb s1 s2) (c1 * c2) (e1 + e2)
      | Inf s1, Fin s2 c2 _ =>
          if c2 =? 0 then Raised InvalidOperation else Returned (Inf (xorb s1 s2))
      | Fin s1 c1 _, Inf s2 =>
          if c1 =? 0 then Raised InvalidOperation else Returned (Inf (xorb s1 s2))
      | Inf s1, Inf s2 => Returned (Inf (xorb s1 s2))
      | _, _ => Raised InvalidOperation
      end
  end.

(** Signed coefficient of a finite value at a lower exponent [e0 <= e]. *)
Definition signed_at (s : bool) (c e e0 : Z) : Z :=
  (if s then -1 else 1) * c * 10 ^ (e - e0).

(** [x + y]: the exact sum, rounded to the context. *)
Definition add (x y : Decimal) : outcome Decimal :=
  match _check_nans x y with
  | Some o => o
  | None =>
      match x, y with
      | Fin s1 c1 e1, Fin s2 c2 e2 =>
          let e0 := Z.min e1 e2 in
          if (c1 =? 0) && (c2 =? 0) then _fix (s1 && s2) 0 e0
          else
            let v := signed_at s1 c1 e1 e0 + signed_at s2 c2 e2 e0 in
            if v =? 0 then _fix false 0 e0
            else _fix (v <? 0) (Z.abs v) e0
      | Inf s1, Inf s2 =>
          if eqb s1 s2 then Returned (Inf s1) else Raised InvalidOperation
      | Inf s1, _ => Returned (Inf s1)
      | _, Inf s2 => Returned (Inf s2)
      | _, _ => Raised InvalidOperation
      end
  end.

Definition copy_negate (x : Decimal) : Decimal :=
  match x with
  | Fin s c e => Fin (negb s) c e
  | Inf s => Inf (negb s)
  | NaN s g p => NaN (negb s) g p
  end.

(** [x - y] *)
Definition sub (x y : Decimal) : outcome Decimal :=
  match _check_nans x y with
  | Some o => o
  | None => add x (copy_negate y)
  end.

(** Exact quotients are brought as close to the ideal exponent as their
    trailing zeros allow. *)
Fixpoint strip_to_ideal (fuel : nat) (coeff e ideal : Z) : Z * Z :=
  match fuel with
  | O => (coeff, e)
  | S f =>
      if (e <? ideal) && (coeff mod 10 =? 0)
      then strip_to_ideal f (coeff / 10) (e + 1) ideal
      else (coeff, e)
  end.

(** [x / y] *)
Definition div (x y : Decimal) : outcome Decimal :=
  match _check_nans x y with
  | Some o => o
  | None =>
      match x, y with
      | Fin s1 c1 e1, Fin s2 c2 e2 =>
          let sign := xorb s1 s2 in
          if c2 =? 0 then
            if c1 =? 0 then Raised InvalidOperation else Raised DivisionByZero
          else if c1 =? 0 then _fix sign 0 (e1 - e2)
          else
            let shift := ndigits c2 - ndigits c1 + prec + 1 in
            let e := e1 - e2 - shift in
            let num := if 0 <=? shift then c1 * 10 ^ shift else c1 in
            let den := if 0 <=? shift then c2 else c2 * 10 ^ (- shift) in
            let coeff := num / den in
            let remainder := num mod den in
            if negb (remainder =? 0) then
              _fix sign (if coeff mod 5 =? 0 then coeff + 1 else coeff) e
            else
              let '(coeff, e) :=
                strip_to_ideal (Z.to_nat (ndigits coeff)) coeff e (e1 - e2) in
              _fix sign coeff e
      | Inf s1, Inf s2 => Raised InvalidOperation
      | Inf s1, Fin s2 _ _ => Returned (Inf (xorb s1 s2))
      | Fin s1 _ _, Inf s2 => Returned (Fin (xorb s1 s2) 0 Etiny)
      | _, _ => Raised InvalidOperation
      end
  end.

(** [Decimal._rescale] of a non-zero finite value to exponent [target]. *)
Definition _rescale (r : rounding) (c e target : Z) : Z :=
  if target <=? e then c * 10 ^ (e - target) else round_coef r c e target.

(** [x.quantize(q, rounding=r)]; [r] is the context's rounding when the
    argument is omitted. *)
Definition quantize (x q : Decimal) (r : rounding) : outcome Decimal :=
  match _check_nans x q with
  | Some o => o
  | None =>
      match x, q with
      | Fin s c e, Fin _ _ qe =>
          if negb ((Etiny <=? qe) && (qe <=? Emax)) then Raised InvalidOperation
          else if c =? 0 then _fix s 0 qe
          else
            let adjusted := ndigits c - 1 + e in
            if Emax <? adjusted then Raised InvalidOperation
            else if prec <? adjusted - qe + 1 then Raised InvalidOperation
            else
              let c' := _rescale r c e qe in
              if Emax <? ndigits c' - 1 + qe then Raised InvalidOperation
              else if prec <? ndigits c' then Raised InvalidOperation
              else _fix s c' qe
      | Inf s, Inf _ => Returned (Inf s)
      | _, _ => Raised InvalidOperation
      end
  end.

(** [x > 0] *)
Definition gt_zero (x : Decimal) : outcome bool :=
  match x with
  | NaN _ _ _ => Raised InvalidOperation
  | Inf s => Returned (negb s)
  | Fin s c _ => Returned (negb s && (0 <? c))
  end.

(** [bool(x)] *)
Definition to_bool (x : Decimal) : bool :=
  match x with
  | Fin _ c _ => negb (c =? 0)
  | _ => true
  end.

(** ["%+d" % n] *)
Definition fmt_plus_d (n : Z) : pystr :=
  (if n <? 0 then lit "-" else lit "+") ++ str_nonneg (Z.abs n).

(** [str(x)], which is also [f"{x}"]. *)
Definition to_str (x : Decimal) : pystr :=
  match x with
  | Inf s => (if s then lit "-" else []) ++ lit "Infinity"
  | NaN s g p =>
      (if s then lit "-" else []) ++ (if g then lit "sNaN" else lit "NaN")
        ++ (if p =? 0 then [] else str_nonneg p)
  | Fin s c e =>
      let _int := str_nonneg c in
      let leftdigits := e + ndigits c in
      let dotplace :=
        if (e <=? 0) && (-6 <? leftdigits) then leftdigits else 1 in
      let intpart :=
        if dotplace <=? 0 then lit "0"
        else if ndigits c <=? dotplace
             then _int ++ repeat 48 (Z.to_nat (dotplace - ndigits c))
             else firstn (Z.to_nat dotplace) _int in
      let fracpart :=
        if dotplace <=? 0 then lit "." ++ repeat 48 (Z.to_nat (- dotplace)) ++ _int
        else if ndigits c <=? dotplace then []
             else lit "." ++ skipn (Z.to_nat dotplace) _int in
      let exp :=
        if leftdigits =? dotplace then []
        else lit "E" ++ fmt_plus_d (leftdigits - dotplace) in
      (if s then lit "-" else []) ++ intpart ++ fracpart ++ exp
  end.

(** *** [Decimal(str)]

    The constructor is exact: it never rounds, and refuses what the widest
    context cannot hold. *)

Definition MAX_EMAX : Z := 999999999999999999.
Definition MIN_ETINY : Z := -1999999999999999997.

(** Code points of the digit zero of every decimal-digit block of the
    Unicode database (14.0, that of Python 3.11); the nine code points
    after each are the digits one to nine. *)
Definition decimal_zeros : list Z :=
  [48; 1632; 1776; 1984; 2406; 2534; 2662; 2790; 2918; 3046; 3174; 3302;
   3430; 3558; 3664; 3792; 3872; 4160; 4240; 6112; 6160; 6470; 6608; 6784;
   6800; 6992; 7088; 7232; 7248; 42528; 43216; 43264; 43472; 43504; 43600;
   44016; 65296; 66720; 68912; 69734; 69872; 69942; 70096; 70384; 70736;
   70864; 71248; 71360; 71472; 71904; 72016; 72784; 73040; 73120; 92768;
   92864; 93008; 120782; 120792; 120802; 120812; 120822; 123200; 123632;
   125264; 130032].

(** [Py_UNICODE_TODECIMAL] *)
Definition unicode_decimal (c : Z) : option Z :=
  match find (fun z => (z <=? c) && (c <=? z + 9)) decimal_zeros with
  | Some z => Some (c - z)
  | None => None
  end.

(** The characters between the stripped ends, as ASCII: underscores are
    dropped, Unicode digits become ASCII digits, inner Unicode whitespace
    becomes a space, and any other non-ASCII character is a syntax error. *)
Fixpoint as_ascii (s : pystr) : option (list Z) :=
  match s with
  | [] => Some []
  | c :: rest =>
      if c =? 95 then as_ascii rest
      else if (0 <? c) && (c <=? 127) then option_map (cons c) (as_ascii rest)
      else if isspace c then option_map (cons 32) (as_ascii rest)
      else match unicode_decimal c with
           | Some d => option_map (cons (48 + d)) (as_ascii rest)
           | None => None
           end
  end.

Definition is_digit (c : Z) : bool := (48 <=? c) && (c <=? 57).

Fixpoint span_digits (s : list Z) : list Z * list Z :=
  match s with
  | [] => ([], [])
  | c :: rest =>
      if is_digit c
      then let '(ds, tl) := span_digits rest in (c :: ds, tl)
      else ([], s)
  end.

Definition digits_value (ds : list Z) : Z :=
  fold_left (fun acc c => 10 * acc + (c - 48)) ds 0.

Definition lower (c : Z) : Z := if (65 <=? c) && (c <=? 90) then c + 32 else c.

Definition parse_sign (s : list Z) : bool * list Z :=
  match s with
  | c :: rest =>
      if c =? 43 then (false, rest)
      else if c =? 45 then (true, rest)
      else (false, s)
  | [] => (false, [])
  end.

Definition exact_finite (s : bool) (c e : Z) : outcome Decimal :=
  if e <? MIN_ETINY then Raised InvalidOperation
  else if MAX_EMAX <? (if c =? 0 then e else ndigits c - 1 + e)
       then Raised InvalidOperation
       else Returned (Fin s c e).

(** The exponent after [e] or [E]: an optional sign and at least one
    digit, up to the end of the text. *)
Definition parse_exponent (s : list Z) : option Z :=
  let '(neg, r) := parse_sign s in
  match span_digits r with
  | ([], _) => None
  | (ds, []) => Some (if neg then - digits_value ds else digits_value ds)
  | (_, _ :: _) => None
  end.

Definition parse_number (sign : bool) (body : list Z) : outcome Decimal :=
  let '(ip, r1) := span_digits body in
  let '(fp, r2) :=
    match r1 with
    | c :: r => if c =? 46 then span_digits r else ([], r1)
    | [] => ([], [])
    end in
  match ip ++ fp with
  | [] => Raised InvalidOperation
  | ds =>
      let shift := Z.of_nat (length fp) in
      match r2 with
      | [] => exact_finite sign (digits_value ds) (- shift)
      | c :: r3 =>
          if (c =? 101) || (c =? 69) then
            match parse_exponent r3 with
            | Some x => exact_finite sign (digits_value ds) (x - shift)
            | None => Raised InvalidOperation
            end
          else Raised InvalidOperation
      end
  end.

Definition all_digits (s : list Z) : bool := forallb is_digit s.

(** Infinity and NaN spellings, matched without regard to ASCII case. *)
Definition parse_special (sign : bool) (body : list Z) : option (outcome Decimal) :=
  let l := map lower body in
  if pystr_eqb l (lit "inf") || pystr_eqb l (lit "infinity")
  then Some (Returned (Inf sign))
  else if pystr_eqb (firstn 3 l) (lit "nan") then
    Some (if all_digits (skipn 3 l)
          then Returned (NaN sign false (digits_value (skipn 3 l)))
          else Raised InvalidOperation)
  else if pystr_eqb (firstn 4 l) (lit "snan") then
    Some (if all_digits (skipn 4 l)
          then Returned (NaN sign true (digits_value (skipn 4 l)))
          else Raised InvalidOperation)
  else None.

(** [Decimal(s)] for a [str]. *)
Definition of_str (s : pystr) : outcome Decimal :=
  match as_ascii (strip s) with
  | None => Raised InvalidOperation
  | Some a =>
      let '(sign, body) := parse_sign a in
      match parse_special sign body with
      | Some o => o
      | None => parse_number sign body
      end
  end.

End decimal.
Import decimal.


(** ** Monetary helpers of the program *)

(** [MONEY_Q = Decimal("0.01")] *)
Definition MONEY_Q : Decimal := Fin false 1 (-2).

(** The values [to_decimal] is called with: [None], a [Decimal], text, or
    an [int]. *)
Inductive pyobj : Type :=
| PyNone
| PyDecimal (d : Decimal)
| PyStr (s : pystr)
| PyInt (n : Z).

(** [str(x)] where [to_decimal] reaches it. *)
Definition py_str (x : pyobj) : pystr :=
  match x with
  | PyNone => lit "None"
  | PyDecimal d => to_str d
  | PyStr s => s
  | PyInt n => str_int n
  end.

Definition to_decimal (x : pyobj) : outcome Decimal :=
  match x with
  | PyNone => Returned (Fin false 0 0)
  | PyDecimal d => Returned d
  | _ =>
      let s := strip (replace_char 44 46 (py_str x)) in
      if pystr_eqb s [] then Returned (Fin false 0 0)
      else of_str s
  end.

(** The rounding step of [money]:
    [x.quantize(MONEY_Q, rounding=ROUND_HALF_UP)]; the formatting of the
    result as "R$ 1.234,50" is not modelled. *)
Definition money_quantize (x : Decimal) : outcome Decimal :=
  quantize x MONEY_Q ROUND_HALF_UP.

(** ** [ProductRepo.upsert]: the derived sale price

    [sale_price = (cost * (Decimal('1.0') + (margin/Decimal('100')))).quantize(MONEY_Q)];
    the arguments are [data.get('cost_price')] and [data.get('margin_pct')].
    The SQL statements that follow are not modelled. *)
Definition upsert_sale_price (cost_price margin_pct : pyobj) : outcome Decimal :=
  cost <- to_decimal cost_price ;;
  margin <- to_decimal margin_pct ;;
  ratio <- div margin (Fin false 100 0) ;;
  factor <- add (Fin false 10 (-1)) ratio ;;
  price <- mul cost factor ;;
  quantize price MONEY_Q ROUND_HALF_EVEN.

(** ** [SalesRepo.add_item]: line total and line profit

    The returned dict [{"line_total": ..., "line_profit": ...}] as a pair.
    The INSERT and commit between the computation and the [return] are not
    modelled. *)
Definition add_item (qty : Z) (unit_price unit_cost : Decimal)
  : outcome (Decimal * Decimal) :=
  total <- mul unit_price (of_int qty) ;;
  line_total <- quantize total MONEY_Q ROUND_HALF_EVEN ;;
  diff <- sub unit_price unit_cost ;;
  profit <- mul diff (of_int qty) ;;
  line_profit <- quantize profit MONEY_Q ROUND_HALF_EVEN ;;
  Returned (line_total, line_profit).

(** ** [build_pix_payload] *)

(** [_emv_kv("54", f"{amount.quantize(MONEY_Q)}") if amount and amount > 0 else ""] *)
Definition amount_field (amount : option Decimal) : outcome pystr :=
  match amount with
  | None => Returned []
  | Some a =>
      if to_bool a then
        positive <- gt_zero a ;;
        if (positive : bool) then
          q <- quantize a MONEY_Q ROUND_HALF_EVEN ;;
          Returned (_emv_kv (lit "54") (to_str q))
        else Returned []
      else Returned []
  end.

Definition build_pix_payload (key merchant_name merchant_city : pystr)
    (amount : option Decimal) (txid : pystr) : outcome pystr :=
  if negb (truthy key) || negb (truthy merchant_name) || negb (truthy merchant_city)
  then Returned []
  else
    let gui := _emv_kv (lit "00") (lit "BR.GOV.BCB.PIX") in
    let acc := gui ++ _emv_kv (lit "01") key in
    let mai := _emv_kv (lit "26") acc in
    let pfi := _emv_kv (lit "00") (lit "01") in
    let mcc := _emv_kv (lit "52") (lit "0000") in
    let cur := _emv_kv (lit "53") (lit "986") in
    amt <- amount_field amount ;;
    let cty := _emv_kv (lit "58") (lit "BR") in
    let mname := _emv_kv (lit "59") (py_or (slice_to 25 merchant_name) (lit "LOJA")) in
    let mcity := _emv_kv (lit "60") (py_or (slice_to 15 merchant_city) (lit "CIDADE")) in
    let tx := _emv_kv (lit "05") (slice_to 25 txid) in
    let add := _emv_kv (lit "62") tx in
    let partial :=
      pfi ++ mai ++ mcc ++ cur ++ amt ++ cty ++ mname ++ mcity ++ add ++ lit "6304" in
    data <- encode_utf8 partial ;;
    let crc := _crc16_ccitt data in
    let crc_str := fmt_04X crc in
    Returned (partial ++ crc_str).


(** ** [money]: an amount as Brazilian currency text

    [f"R$ {x.quantize(MONEY_Q, rounding=ROUND_HALF_UP):,.2f}"
       .replace(",", "X").replace(".", ",").replace("X", ".")] *)

(** [sep.join(parts)] *)
Fixpoint join (sep : pystr) (parts : list pystr) : pystr :=
  match parts with
  | [] => []
  | [p] => p
  | p :: rest => p ++ sep ++ join sep rest
  end.

(** The loop of [_insert_thousands_sep] for groups of three and no
    minimum width: groups are cut from the right end of [digits]; [groups]
    holds those cut so far, leftmost first. *)
Fixpoint thousands_groups (fuel : nat) (digits : pystr) (groups : list pystr)
  : list pystr :=
  match fuel with
  | O => groups
  | S f =>
      let l := Nat.min (Nat.max (length digits) 1) 3 in
      let g := repeat 48 (l - length digits) ++ skipn (length digits - l) digits in
      let digits' := firstn (length digits - l) digits in
      if truthy digits' then thousands_groups f digits' (g :: groups)
      else g :: groups
  end.

Definition _insert_thousands_sep (digits : pystr) : pystr :=
  join (lit ",") (thousands_groups (S (length digits)) digits []).

(** [format(x, ",.2f")], which is [f"{x:,.2f}"]: the value is brought to
    two fractional digits with the rounding of the context, the integer
    part is grouped by thousands, and a special value is rendered as by
    [str] without its sign, after the sign. *)
Definition format_comma_2f (x : Decimal) : pystr :=
  match x with
  | Fin s c e =>
      let c' := if c =? 0 then 0 else _rescale ROUND_HALF_EVEN c e (-2) in
      let _int := str_nonneg c' in
      let dotplace := ndigits c' - 2 in
      let intpart :=
        if dotplace <? 0 then lit "0"
        else py_or (firstn (Z.to_nat dotplace) _int) (lit "0") in
      let fracpart :=
        if dotplace <? 0 then repeat 48 (Z.to_nat (- dotplace)) ++ _int
        else skipn (Z.to_nat dotplace) _int in
      (if s then lit "-" else []) ++ _insert_thousands_sep intpart
        ++ lit "." ++ fracpart
  | Inf s => (if s then lit "-" else []) ++ to_str (Inf false)
  | NaN s g p => (if s then lit "-" else []) ++ to_str (NaN false g p)
  end.

Definition money (x : Decimal) : outcome pystr :=
  q <- money_quantize x ;;
  Returned (replace_char 88 46 (replace_char 46 44 (replace_char 44 88
              (lit "R$ " ++ format_comma_2f q)))).

(** ** [hashlib]: SHA-256, HMAC-SHA-256 and PBKDF2

    [bytes] are lists of integers in [0, 255]; the words of SHA-256 are
    integers in [0, 2^32). *)

Module hashlib.

Definition w32 (x : Z) : Z := Z.land x 0xFFFFFFFF.
Definition add32 (a b : Z) : Z := w32 (a + b).
Definition rotr (n x : Z) : Z :=
  Z.lor (Z.shiftr x n) (w32 (Z.shiftl x (32 - n))).

Definition Ch (x y z : Z) : Z :=
  Z.lxor (Z.land x y) (Z.land (Z.lxor x 0xFFFFFFFF) z).
Definition Maj (x y z : Z) : Z :=
  Z.lxor (Z.lxor (Z.land x y) (Z.land x z)) (Z.land y z).
Definition Sigma0 (x : Z) : Z := Z.lxor (Z.lxor (rotr 2 x) (rotr 13 x)) (rotr 22 x).
Definition Sigma1 (x : Z) : Z := Z.lxor (Z.lxor (rotr 6 x) (rotr 11 x)) (rotr 25 x).
Definition sigma0 (x : Z) : Z := Z.lxor (Z.lxor (rotr 7 x) (rotr 18 x)) (Z.shiftr x 3).
Definition sigma1 (x : Z) : Z := Z.lxor (Z.lxor (rotr 17 x) (rotr 19 x)) (Z.shiftr x 10).

(** The constants of SHA-256 come from the first primes: a round constant
    is the first 32 bits of the fractional part of the cube root of a prime,
    an initial hash value those of its square root. *)
Definition is_prime (candidates : list Z) (p : Z) : bool :=
  forallb (fun d => (p <=? d) || negb (p mod d =? 0)) candidates.

Definition primes : list Z :=
  let candidates := map Z.of_nat (seq 2 310) in
  filter (is_prime candidates) candidates.

(** The integer cube root, found bit by bit from the top. *)
Fixpoint cube_root_bits (bits : nat) (n r : Z) : Z :=
  match bits with
  | O => r
  | S b =>
      let t := r + 2 ^ Z.of_nat b in
      cube_root_bits b n (if t * t * t <=? n then t else r)
  end.

Definition cube_root (n : Z) : Z := cube_root_bits 40 n 0.

Definition K : list Z :=
  map (fun p => w32 (cube_root (p * 2 ^ 96))) primes.

Definition state : Type := Z * Z * Z * Z * Z * Z * Z * Z.

Definition H0 : state :=
  match map (fun p => w32 (Z.sqrt (p * 2 ^ 64))) primes with
  | a :: b :: c :: d :: e :: f :: g :: h :: _ => (a, b, c, d, e, f, g, h)
  | _ => (0, 0, 0, 0, 0, 0, 0, 0)
  end.

(** The big-endian 32-bit words of a block. *)
Fixpoint be_words (bs : list Z) : list Z :=
  match bs with
  | a :: b :: c :: d :: rest =>
      (a * 2 ^ 24 + b * 2 ^ 16 + c * 2 ^ 8 + d) :: be_words rest
  | _ => []
  end.

(** The message schedule, newest word first while it is built. *)
Definition schedule_step (w : list Z) : list Z :=
  add32 (add32 (add32 (sigma1 (nth 1 w 0)) (nth 6 w 0)) (sigma0 (nth 14 w 0)))
        (nth 15 w 0)
  :: w.

Definition schedule (block : list Z) : list Z :=
  rev (Nat.iter 48 schedule_step (rev (be_words block))).

Definition round (st : state) (kw : Z * Z) : state :=
  let '(a, b, c, d, e, f, g, h) := st in
  let t1 := add32 (add32 (add32 (add32 h (Sigma1 e)) (Ch e f g)) (fst kw)) (snd kw) in
  let t2 := add32 (Sigma0 a) (Maj a b c) in
  (add32 t1 t2, a, b, c, add32 d t1, e, f, g).

Definition compress (st : state) (block : list Z) : state :=
  let '(a, b, c, d, e, f, g, h) := st in
  let '(a', b', c', d', e', f', g', h') :=
    fold_left round (combine K (schedule block)) st in
  (add32 a a', add32 b b', add32 c c', add32 d d',
   add32 e e', add32 f f', add32 g g', add32 h h').

(** [n] as [k] bytes, most significant first. *)
Fixpoint be_bytes (k : nat) (n : Z) : list Z :=
  match k with
  | O => []
  | S k' => (n / 2 ^ (8 * Z.of_nat k')) mod 256 :: be_bytes k' n
  end.

Definition pad (msg : list Z) : list Z :=
  msg ++ [0x80]
    ++ repeat 0 (Z.to_nat ((55 - Z.of_nat (length msg)) mod 64))
    ++ be_bytes 8 (8 * Z.of_nat (length msg)).

Fixpoint blocks (fuel : nat) (bs : list Z) : list (list Z) :=
  match fuel, bs with
  | S f, _ :: _ => firstn 64 bs :: blocks f (skipn 64 bs)
  | _, _ => []
  end.

Definition digest (st : state) : list Z :=
  let '(a, b, c, d, e, f, g, h) := st in
  flat_map (be_bytes 4) [a; b; c; d; e; f; g; h].

(** [hashlib.sha256(msg).digest()] *)
Definition sha256 (msg : list Z) : list Z :=
  let padded := pad msg in
  digest (fold_left compress (blocks (length padded) padded) H0).

(** [hmac.digest(key, msg, "sha256")] *)
Definition hmac_sha256 (key msg : list Z) : list Z :=
  let k0 := if (64 <? length key)%nat then sha256 key else key in
  let k := k0 ++ repeat 0 (64 - length k0) in
  sha256 (map (Z.lxor 0x5c) k ++ sha256 (map (Z.lxor 0x36) k ++ msg)).

Definition xor_bytes (a b : list Z) : list Z :=
  map (fun p => Z.lxor (fst p) (snd p)) (combine a b).

(** [hashlib.pbkdf2_hmac("sha256", password, salt, iterations)]: the
    derived key has the length of the digest, so it is the first block
    U1 xor U2 xor ... xor Uc of PBKDF2. *)
Definition pbkdf2_hmac_sha256 (password salt : list Z) (iterations : positive)
  : list Z :=
  let u1 := hmac_sha256 password (salt ++ [0; 0; 0; 1]) in
  fst (N.iter (Pos.pred_N iterations)
         (fun tu => let u := hmac_sha256 password (snd tu) in
                    (xor_bytes (fst tu) u, u))
         (u1, u1)).

End hashlib.

(** ** Python runtime: [bytes.hex], [bytes.fromhex], [str.split] *)

Definition hex_digit (d : Z) : Z := if d <? 10 then 48 + d else 87 + d.

(** [b.hex()] *)
Definition bytes_hex (bs : list Z) : pystr :=
  flat_map (fun b => [hex_digit (b / 16); hex_digit (b mod 16)]) bs.

(** [_PyLong_DigitValue]: the value of a digit or letter, 37 for any other
    character. *)
Definition digit_value (c : Z) : Z :=
  if (48 <=? c) && (c <=? 57) then c - 48
  else if (97 <=? c) && (c <=? 122) then c - 87
  else if (65 <=? c) && (c <=? 90) then c - 55
  else 37.

(** [Py_ISSPACE]: the whitespace of ASCII. *)
Definition ascii_space (c : Z) : bool :=
  ((9 <=? c) && (c <=? 13)) || (c =? 32).

Fixpoint fromhex_loop (s : pystr) : option (list Z) :=
  match s with
  | [] => Some []
  | c :: rest =>
      if ascii_space c then fromhex_loop rest
      else
        match rest with
        | [] => None
        | d :: rest' =>
            if (digit_value c <? 16) && (digit_value d <? 16)
            then option_map (cons (16 * digit_value c + digit_value d))
                            (fromhex_loop rest')
            else None
        end
  end.

(** [bytes.fromhex(s)]; [None] stands for the ValueError. *)
Definition bytes_fromhex (s : pystr) : option (list Z) :=
  if forallb (fun c => c <? 128) s then fromhex_loop s else None.

(** [s.split(sep, 1)] for a one-character [sep]. *)
Fixpoint split_once (sep : Z) (s : pystr) : list pystr :=
  match s with
  | [] => [[]]
  | c :: rest =>
      if c =? sep then [[]; rest]
      else match split_once sep rest with
           | head :: tail => (c :: head) :: tail
           | [] => [[c]]
           end
  end.

(** ** Passwords *)

(** [hash_password(password, salt)]; [token] is what
    [secrets.token_bytes(16)] returns if it is called.
    [[
    salt = salt or secrets.token_bytes(16)
    h = hashlib.pbkdf2_hmac("sha256", password.encode("utf-8"), salt, 200_000)
    return salt.hex() + ":" + h.hex()
    ]] *)
Definition hash_password (password : pystr) (salt : option (list Z))
    (token : list Z) : outcome pystr :=
  let salt := match salt with
              | Some (b :: bs) => b :: bs
              | _ => token
              end in
  pw <- encode_utf8 password ;;
  let h := hashlib.pbkdf2_hmac_sha256 pw salt 200000 in
  Returned (bytes_hex salt ++ lit ":" ++ bytes_hex h).

(** [verify_password(password, stored)]: any exception inside the [try]
    (unpacking other than two parts, a salt that is not hexadecimal, a
    password that cannot be encoded) gives [False]. *)
Definition verify_password (password stored : pystr) : bool :=
  match split_once 58 stored with
  | [salt_hex; hash_hex] =>
      match bytes_fromhex salt_hex with
      | None => false
      | Some salt =>
          match encode_utf8 password with
          | Raised _ => false
          | Returned pw =>
              pystr_eqb (bytes_hex (hashlib.pbkdf2_hmac_sha256 pw salt 200000))
                        hash_hex
          end
      end
  | _ => false
  end.

(** ** Python runtime: exceptions of any kind, [int], [dict] *)

Inductive pyexc : Type :=
| DecimalException (e : exn)
| ValueError
| KeyError
| AttributeError
| TypeError
| OverflowError.

Inductive result (A : Type) : Type :=
| Done (a : A)
| Failed (e : pyexc).
Arguments Done {A} a.
Arguments Failed {A} e.

Definition and_then {A B : Type} (r : result A) (k : A -> result B) : result B :=
  match r with
  | Done a => k a
  | Failed e => Failed e
  end.

Notation "x <~ c1 ;; c2" := (and_then c1 (fun x => c2))
  (at level 61, c1 at next level, right associativity).

Definition lift {A : Type} (o : outcome A) : result A :=
  match o with
  | Returned a => Done a
  | Raised e => Failed (DecimalException e)
  end.

(** *** [int(s)] for a [str]

    The text is first brought to ASCII: a character below 127 is kept, a
    Unicode space becomes a space, a Unicode decimal digit its ASCII digit,
    and anything else is an error.  Then: ASCII whitespace, an optional
    sign, digits with single underscores between them, ASCII whitespace.
    More than 4300 digits are refused. *)
Definition int_char (c : Z) : option Z :=
  if c <? 127 then Some c
  else if isspace c then Some 32
  else option_map (Z.add 48) (unicode_decimal c).

Fixpoint int_translate (s : pystr) : option (list Z) :=
  match s with
  | [] => Some []
  | c :: rest =>
      match int_char c with
      | None => None
      | Some a => option_map (cons a) (int_translate rest)
      end
  end.

Fixpoint lstrip_ascii (s : list Z) : list Z :=
  match s with
  | [] => []
  | c :: rest => if ascii_space c then lstrip_ascii rest else s
  end.

(** The digits up to the first character that is neither a digit nor an
    underscore, and what follows them; [None] for two underscores in a row
    or an underscore at the end of the digits. *)
Fixpoint int_scan (after_underscore : bool) (s : list Z)
  : option (list Z * list Z) :=
  match s with
  | [] => if after_underscore then None else Some ([], [])
  | c :: rest =>
      if is_digit c
      then option_map (fun dr => (c :: fst dr, snd dr)) (int_scan false rest)
      else if c =? 95
           then if after_underscore then None else int_scan true rest
           else if after_underscore then None else Some ([], s)
  end.

Definition int_of_str (s : pystr) : option Z :=
  match int_translate s with
  | None => None
  | Some a =>
      let '(neg, body) := parse_sign (lstrip_ascii a) in
      match body with
      | [] => None
      | c :: _ =>
          if c =? 95 then None
          else
            match int_scan false body with
            | None => None
            | Some (ds, rest) =>
                if (length ds =? 0)%nat then None
                else if (4300 <? length ds)%nat then None
                else if forallb ascii_space rest
                     then Some (if neg then - digits_value ds else digits_value ds)
                     else None
            end
      end
  end.

(** [bool(x)] *)
Definition py_truthy (x : pyobj) : bool :=
  match x with
  | PyNone => false
  | PyDecimal d => to_bool d
  | PyStr s => truthy s
  | PyInt n => negb (n =? 0)
  end.

(** [x or y] *)
Definition py_or_obj (x y : pyobj) : pyobj := if py_truthy x then x else y.

(** [int(x)] *)
Definition py_int (x : pyobj) : result Z :=
  match x with
  | PyInt n => Done n
  | PyStr s => match int_of_str s with
               | Some n => Done n
               | None => Failed ValueError
               end
  | PyNone => Failed TypeError
  | PyDecimal (Fin s c e) =>
      let magnitude := if 0 <=? e then c * 10 ^ e else c / 10 ^ (- e) in
      Done (if s then - magnitude else magnitude)
  | PyDecimal (Inf _) => Failed OverflowError
  | PyDecimal (NaN _ _ _) => Failed ValueError
  end.

(** A [dict] with [str] keys, in insertion order. *)
Definition dict : Type := list (pystr * pyobj).

(** [d.get(k)], with [None] for a missing key. *)
Fixpoint dict_get (d : dict) (k : pystr) : pyobj :=
  match d with
  | [] => PyNone
  | (k', v) :: rest => if pystr_eqb k' k then v else dict_get rest k
  end.

(** [k in d] *)
Definition dict_has {V : Type} (d : list (pystr * V)) (k : pystr) : bool :=
  existsb (fun kv => pystr_eqb (fst kv) k) d.

(** [d[k]] *)
Definition dict_item (d : dict) (k : pystr) : result pyobj :=
  if dict_has d k then Done (dict_get d k) else Failed KeyError.

(** [d[k] = v] *)
Fixpoint dict_set {V : Type} (d : list (pystr * V)) (k : pystr) (v : V)
  : list (pystr * V) :=
  match d with
  | [] => [(k, v)]
  | (k', v') :: rest =>
      if pystr_eqb k' k then (k', v) :: rest else (k', v') :: dict_set rest k v
  end.

(** [n or None] for an [int] *)
Definition int_or_none (n : Z) : pyobj := if n =? 0 then PyNone else PyInt n.

(** ** [ProductForm._save]

    The dict handed to [on_save]; [text k] is what the form field [k]
    holds.  The fields are those of [self.vars], in its order. *)
Definition form_keys : list pystr :=
  map lit ["sku"; "barcode"; "name"; "item_type"; "category"; "brand";
           "varietal"; "vintage"; "volume_ml"; "abv"; "country"; "region";
           "supplier_id"; "cost_price"; "margin_pct"; "sale_price";
           "stock_qty"; "min_stock"; "lot_code"; "expiry"; "active"]%string.

Definition _save (text : pystr -> pystr) : result dict :=
  let data : dict := map (fun k => (k, PyStr (strip (text k)))) form_keys in
  v <~ dict_item data (lit "cost_price") ;;
  x <~ lift (to_decimal v) ;;
  let data := dict_set data (lit "cost_price") (PyDecimal x) in
  v <~ dict_item data (lit "margin_pct") ;;
  x <~ lift (to_decimal v) ;;
  let data := dict_set data (lit "margin_pct") (PyDecimal x) in
  x <~ lift (to_decimal (py_or_obj (dict_get data (lit "sale_price")) (PyInt 0))) ;;
  let data := dict_set data (lit "sale_price") (PyDecimal x) in
  v <~ dict_item data (lit "stock_qty") ;;
  n <~ py_int (py_or_obj v (PyInt 0)) ;;
  let data := dict_set data (lit "stock_qty") (PyInt n) in
  v <~ dict_item data (lit "min_stock") ;;
  n <~ py_int (py_or_obj v (PyInt 0)) ;;
  let data := dict_set data (lit "min_stock") (PyInt n) in
  v <~ dict_item data (lit "supplier_id") ;;
  n <~ py_int (py_or_obj v (PyInt 0)) ;;
  let data := dict_set data (lit "supplier_id") (int_or_none n) in
  v <~ dict_item data (lit "vintage") ;;
  n <~ py_int (py_or_obj v (PyInt 0)) ;;
  let data := dict_set data (lit "vintage") (int_or_none n) in
  v <~ dict_item data (lit "volume_ml") ;;
  n <~ py_int (py_or_obj v (PyInt 0)) ;;
  let data := dict_set data (lit "volume_ml") (int_or_none n) in
  v <~ dict_item data (lit "abv") ;;
  x <~ lift (to_decimal (py_or_obj v (PyInt 0))) ;;
  let data := dict_set data (lit "abv") (PyDecimal x) in
  v <~ dict_item data (lit "expiry") ;;
  let data := dict_set data (lit "expiry") (py_or_obj v PyNone) in
  v <~ dict_item data (lit "active") ;;
  n <~ py_int (py_or_obj v (PyInt 1)) ;;
  let data := dict_set data (lit "active") (PyInt n) in
  Done data.

(** ** [ProductPage.import_csv]: one row of the file

    A row as [csv.DictReader] yields it: the named cells in the order of
    the header, where a cell the line does not reach is [None]; and, for a
    line with more cells than the header has names, the surplus under the
    key [None], which comes last. *)
Record csv_row : Type := {
  named : list (pystr * option pystr);
  surplus : option (list pystr)
}.

(** [DictReader.__next__] once the line is split into its cells. *)
Definition DictReader_row (fieldnames cells : list pystr) : csv_row :=
  let d :=
    fold_left (fun d kv => dict_set d (fst kv) (Some (snd kv)))
      (combine fieldnames cells) [] in
  let lf := length fieldnames in
  let lr := length cells in
  if (lf <? lr)%nat then {| named := d; surplus := Some (skipn lf cells) |}
  else if (lr <? lf)%nat then
    {| named := fold_left (fun d key => dict_set d key None) (skipn lr fieldnames) d;
       surplus := None |}
  else {| named := d; surplus := None |}.

(** [{k: (row.get(k,"").strip()) for k in row.keys()}]: neither [None] nor
    a list has a [strip]. *)
Fixpoint stripped_cells (cells : list (pystr * option pystr)) (data : dict)
  : result dict :=
  match cells with
  | [] => Done data
  | (k, Some s) :: more => stripped_cells more (dict_set data k (PyStr (strip s)))
  | (_, None) :: _ => Failed AttributeError
  end.

(** [for k in keys: if k in data: data[k] = convert(data[k])] *)
Fixpoint convert_columns (convert : pyobj -> result pyobj) (keys : list pystr)
    (data : dict) : result dict :=
  match keys with
  | [] => Done data
  | k :: more =>
      if dict_has data k then
        v <~ convert (dict_get data k) ;;
        convert_columns convert more (dict_set data k v)
      else convert_columns convert more data
  end.

Definition int_columns : list pystr :=
  map lit ["vintage"; "volume_ml"; "supplier_id"; "stock_qty"; "min_stock";
           "active"]%string.

Definition decimal_columns : list pystr :=
  map lit ["cost_price"; "margin_pct"; "abv"]%string.

(** [int(data[k]) if data[k] else 0] *)
Definition int_cell (v : pyobj) : result pyobj :=
  if py_truthy v then n <~ py_int v ;; Done (PyInt n) else Done (PyInt 0).

(** [to_decimal(data[k])] *)
Definition decimal_cell (v : pyobj) : result pyobj :=
  x <~ lift (to_decimal v) ;; Done (PyDecimal x).

(** The lines after the two loops: the columns that may be empty. *)
Definition optional_columns (data : dict) : result dict :=
  let data := if py_truthy (dict_get data (lit "expiry")) then data
              else dict_set data (lit "expiry") PyNone in
  v <~ dict_item data (lit "supplier_id") ;;
  let data := dict_set data (lit "supplier_id") (py_or_obj v PyNone) in
  v <~ dict_item data (lit "vintage") ;;
  let data := dict_set data (lit "vintage") (py_or_obj v PyNone) in
  v <~ dict_item data (lit "volume_ml") ;;
  let data := dict_set data (lit "volume_ml") (py_or_obj v PyNone) in
  n <~ py_int (py_or_obj (dict_get data (lit "active")) (PyInt 1)) ;;
  let data := dict_set data (lit "active") (PyInt n) in
  Done data.

(** The body of the [try] up to the call of [self.repo.upsert]: the dict
    that call receives. *)
Definition import_row (row : csv_row) : result dict :=
  data <~ stripped_cells (named row) [] ;;
  data <~ match surplus row with
          | Some _ => Failed AttributeError
          | None => Done data
          end ;;
  data <~ convert_columns int_cell int_columns data ;;
  data <~ convert_columns decimal_cell decimal_columns data ;;
  optional_columns data.

(** The loop of [import_csv]: how many rows were imported and how many
    counted as errors; [upsert data] tells whether [self.repo.upsert]
    returns for that dict. *)
Definition import_csv (upsert : dict -> bool) (fieldnames : list pystr)
    (lines : list (list pystr)) : nat * nat :=
  fold_left
    (fun counts cells =>
       match cells with
       | [] => counts
       | _ :: _ =>
           match import_row (DictReader_row fieldnames cells) with
           | Done data =>
               if upsert data then (S (fst counts), snd counts)
               else (fst counts, S (snd counts))
           | Failed _ => (fst counts, S (snd counts))
           end
       end)
    lines (0%nat, 0%nat).

(** ** Vocabulary of the specification *)

(** *** The checksum as the specification words it

    Register initialised to 0xFFFF; each byte is XORed into the high eight
    bits; then eight times: if the high bit is set, shift left and XOR with
    the polynomial 0x1021, else just shift left, masking to 16 bits. *)
Definition spec_shift (r : Z) : Z :=
  if Z.testbit r 15
  then (Z.lxor (2 * r) 0x1021) mod 2 ^ 16
  else (2 * r) mod 2 ^ 16.

Fixpoint crc16_from (r : Z) (data : list Z) : Z :=
  match data with
  | [] => r
  | b :: rest => crc16_from (Nat.iter 8 spec_shift (Z.lxor r (b * 2 ^ 8))) rest
  end.

Definition crc16 (data : list Z) : Z := crc16_from 0xFFFF data.

(** *** Tag-length-value strings

    [tlv_encode] composes a list of (tag, value) fields with the program's
    composer; [tlv_parse] is the positional reader of a consumer: two
    characters of tag, two decimal digits of length, then that many
    characters of value. *)
Definition tlv_encode (fs : list (pystr * pystr)) : pystr :=
  flat_map (fun f => _emv_kv (fst f) (snd f)) fs.

Fixpoint tlv_parse_fuel (fuel : nat) (s : pystr) : option (list (pystr * pystr)) :=
  match s with
  | [] => Some []
  | t1 :: t2 :: l1 :: l2 :: rest =>
      match fuel with
      | O => None
      | S f =>
          let n := Z.to_nat (10 * (l1 - 48) + (l2 - 48)) in
          if is_digit l1 && is_digit l2 && (n <=? length rest)%nat
          then option_map (cons ([t1; t2], firstn n rest))
                          (tlv_parse_fuel f (skipn n rest))
          else None
      end
  | _ => None
  end.

Definition tlv_parse (s : pystr) : option (list (pystr * pystr)) :=
  tlv_parse_fuel (length s) s.

Definition tlv_tags (s : pystr) : option (list pystr) :=
  option_map (map fst) (tlv_parse s).

Definition tlv_lookup (tag : pystr) (fs : list (pystr * pystr)) : option pystr :=
  option_map snd (find (fun f => pystr_eqb (fst f) tag) fs).

(** The outcome of a call [_emv_kv(_id, value)]: the body has no [raise],
    and neither [len] nor the format can fail on a [str]. *)
Definition call_emv_kv (_id value : pystr) : outcome pystr :=
  Returned (_emv_kv _id value).

(** *** Text that [str.encode("utf-8")] accepts *)
Definition encodable (s : pystr) : bool :=
  forallb (fun c => negb (is_surrogate c)) s.

(** *** Exact values and round-half-up *)

(** The rational number a finite [Decimal] denotes. *)
Definition value (d : Decimal) : Q :=
  match d with
  | Fin s c e => (inject_Z (if s then - c else c) * (10 # 1) ^ e)%Q
  | _ => 0%Q
  end.

(** A monetary amount: finite, with exactly two fractional digits. *)
Definition is_amount (d : Decimal) : bool :=
  match d with
  | Fin _ c e => (0 <=? c) && (e =? -2)
  | _ => false
  end.

(** The amount in cents. *)
Definition cents (d : Decimal) : Z :=
  match d with
  | Fin s c _ => if s then - c else c
  | _ => 0
  end.

(** [x] rounded to a whole number of cents, ties away from zero. *)
Definition half_up_cents (x : Q) : Z :=
  Z.sgn (Qnum x) * Qfloor (Qabs x * (100 # 1) + (1 # 2))%Q.

(** *** The fields of a payload

    The fields a consumer is meant to read, in order.  [amount_text] is the
    rendered amount when the amount field is present, [crc_text] the four
    characters of the checksum. *)
Definition payload_fields (key merchant_name merchant_city : pystr)
    (amount_text : option pystr) (txid crc_text : pystr) : list (pystr * pystr) :=
  [(lit "00", lit "01");
   (lit "26", tlv_encode [(lit "00", lit "BR.GOV.BCB.PIX"); (lit "01", key)]);
   (lit "52", lit "0000");
   (lit "53", lit "986")]
  ++ match amount_text with
     | Some text => [(lit "54", text)]
     | None => []
     end
  ++ [(lit "58", lit "BR");
      (lit "59", firstn 25 merchant_name);
      (lit "60", firstn 15 merchant_city);
      (lit "62", tlv_encode [(lit "05", firstn 25 txid)]);
      (lit "63", crc_text)].

(** The tags in the order of the program, with or without the amount. *)
Definition payload_tags (with_amount : bool) : list pystr :=
  [lit "00"; lit "26"; lit "52"; lit "53"]
  ++ (if with_amount then [lit "54"] else [])
  ++ [lit "58"; lit "59"; lit "60"; lit "62"; lit "63"].

(** The order the specification prescribes: merchant account first. *)
Definition spec_tags (with_amount : bool) : list pystr :=
  [lit "26"; lit "00"; lit "52"; lit "53"]
  ++ (if with_amount then [lit "54"] else [])
  ++ [lit "58"; lit "59"; lit "60"; lit "62"; lit "63"].

(** An amount that is supplied and strictly greater than zero. *)
Definition is_positive (amount : option Decimal) : bool :=
  match amount with
  | Some (Fin s c _) => negb s && (0 <? c)
  | Some (Inf s) => negb s
  | _ => false
  end.

(** A plain decimal rendering: digits, a point, two digits. *)
Definition is_plain_2dp (s : pystr) : bool :=
  match rev s with
  | d2 :: d1 :: dot :: int_part =>
      is_digit d2 && is_digit d1 && (dot =? 46)
      && all_digits int_part && negb (Nat.eqb (length int_part) 0)
  | _ => false
  end.



(** An amount the context can quantize: absent, or a 2-decimal amount of
    at most 28 digits. *)
Definition representable (amount : option Decimal) : bool :=
  match amount with
  | None => true
  | Some a => is_amount a && (Z.abs (cents a) <? 10 ^ prec)
  end.

(** *** The alphabet of decimal literals

    The characters that can occur in a text [Decimal] accepts: decimal
    digits, the signs, the point, the underscore, the exponent marker, and
    the letters of Infinity, NaN and sNaN in either case. *)
Definition ascii_literal_char (c : Z) : bool :=
  is_digit c || (c =? 43) || (c =? 45) || (c =? 46)
  || existsb (Z.eqb (lower c)) (lit "einftyas").

Definition literal_char (c : Z) : bool :=
  (c =? 95) || ascii_literal_char c
  || match unicode_decimal c with Some _ => true | None => false end.

(** The text [to_decimal] hands to [Decimal]: commas replaced, ends
    trimmed. *)
Definition normalized (s : pystr) : pystr := strip (replace_char 44 46 s).

(** A field a consumer can read back: a two-character tag and a value
    whose length fits two digits. *)
Definition well_formed_field (f : pystr * pystr) : Prop :=
  length (fst f) = 2%nat /\ (length (snd f) <= 99)%nat.

(** Texts made of whitespace only, and texts without any. *)
Definition all_space (s : pystr) : bool := forallb isspace s.
Definition no_space (s : pystr) : bool := forallb (fun c => negb (isspace c)) s.

(** Texts of ASCII characters other than the underscore are kept as they
    are. *)
Definition plain_ascii (s : pystr) : bool :=
  forallb (fun c => (0 <? c) && (c <=? 127) && negb (c =? 95)) s.

(** An ASCII text made of literal characters only. *)
Definition literal_text (s : list Z) : bool := forallb ascii_literal_char s.

(** *** Currency text

    [separated sep ds] writes the digits [ds] with [sep] before every
    digit that is followed by a whole number of groups of three. *)
Fixpoint separated (sep : Z) (ds : pystr) : pystr :=
  match ds with
  | [] => []
  | d :: rest =>
      d :: (if (0 <? length rest)%nat && (length rest mod 3 =? 0)%nat
            then sep :: separated sep rest
            else separated sep rest)
  end.

(** A number of cents as Brazilian currency text: the reais in groups of
    three separated by points, a comma, and two digits of centavos. *)
Definition brl (negative : bool) (n : Z) : pystr :=
  lit "R$ " ++ (if negative then lit "-" else [])
    ++ separated 46 (str_nonneg (n / 100))
    ++ lit "," ++ zfill 2 (str_nonneg (n mod 100)).

(** [x] rounded to a whole number of cents, ties to the even neighbour. *)
Definition half_even_cents (x : Q) : Z :=
  let f := Qfloor (x * (100 # 1)) in
  match (x * (100 # 1) - inject_Z f ?= 1 # 2)%Q with
  | Lt => f
  | Gt => f + 1
  | Eq => if Z.even f then f else f + 1
  end.

(** *** Values a [Decimal] object can hold

    A coefficient and a NaN payload are never negative, and the exponent
    of a finite value stays within what the constructor accepts. *)
Definition well_formed (d : Decimal) : bool :=
  match d with
  | Fin _ c e =>
      (0 <=? c) && (MIN_ETINY <=? e)
      && ((if c =? 0 then e else ndigits c - 1 + e) <=? MAX_EMAX)
  | Inf _ => true
  | NaN _ _ p => 0 <=? p
  end.

(** The characters of the text of a number: digits, signs, the point and
    the exponent marker. *)
Definition number_char (c : Z) : bool :=
  is_digit c || (c =? 43) || (c =? 45) || (c =? 46) || (c =? 69).

Definition number_text (s : pystr) : bool := forallb number_char s.

(** *** The checksum step undone

    The step of the checksum register is a bijection of the 16-bit values:
    the low bit of its result tells whether the polynomial was XORed in. *)
Definition crc_unshift (r : Z) : Z :=
  if Z.testbit r 0
  then Z.lor (Z.shiftr (Z.lxor r 0x1021) 1) 0x8000
  else Z.shiftr r 1.

(** [p] holds of every number whose binary digits are those of [acc]
    followed by [n] more binary digits. *)
Fixpoint forall_bits (n : nat) (acc : Z) (p : Z -> bool) : bool :=
  match n with
  | O => p acc
  | S k => forall_bits k (2 * acc) p && forall_bits k (2 * acc + 1) p
  end.

(** *** Stored passwords *)

(** Lower-case hexadecimal digits. *)
Definition is_lower_hex (c : Z) : bool :=
  ((48 <=? c) && (c <=? 57)) || ((97 <=? c) && (c <=? 102)).

(** The salt [hash_password] uses: the one given unless it is missing or
    empty. *)
Definition salt_used (salt : option (list Z)) (token : list Z) : list Z :=
  match salt with
  | Some (b :: bs) => b :: bs
  | _ => token
  end.

(** Byte strings. *)
Definition is_bytes (bs : list Z) : Prop := Forall (fun b => 0 <= b < 256) bs.

(** The lines of a file that are rows: the blank ones are skipped. *)
Definition rows_read (lines : list (list pystr)) : nat :=
  length (filter (fun cells => match cells with [] => false | _ :: _ => true end)
            lines).

(** A value that is text. *)
Definition is_text (v : pyobj) : Prop := exists s, v = PyStr s.

(** *** Decimal literals *)

(** A sign: nothing, [+] or [-]. *)
Definition sign_text (sg : list Z) (neg : bool) : Prop :=
  (sg = [] /\ neg = false) \/ (sg = [43] /\ neg = false) \/ (sg = [45] /\ neg = true).

(** The text after the exponent marker: a sign and at least one digit. *)
Definition exponent_text (t : list Z) (x : Z) : Prop :=
  exists sg neg ds,
    t = sg ++ ds /\ sign_text sg neg /\ all_digits ds = true /\ ds <> [] /\
    x = if neg then - digits_value ds else digits_value ds.

(** A number: digits with at most one point, at least one digit in all,
    and an optional exponent; [c] is the coefficient it denotes and [e] the
    exponent. *)
Definition numeric_literal (body : list Z) (c e : Z) : Prop :=
  exists ip fp point expo x,
    body = ip ++ point ++ expo /\
    all_digits ip = true /\ all_digits fp = true /\ ip ++ fp <> [] /\
    ((point = [] /\ fp = []) \/ point = 46 :: fp) /\
    ((expo = [] /\ x = 0) \/
     exists m ex, expo = m :: ex /\ (m = 101 \/ m = 69) /\ exponent_text ex x) /\
    c = digits_value (ip ++ fp) /\ e = x - Z.of_nat (length fp).

(** The words: Inf or Infinity, and NaN or sNaN with optional digits, in
    any letter case. *)
Definition special_literal (body : list Z) (neg : bool) (d : Decimal) : Prop :=
  ((map lower body = lit "inf" \/ map lower body = lit "infinity") /\ d = Inf neg) \/
  exists ds, all_digits ds = true /\
    ((map lower body = lit "nan" ++ ds /\ d = NaN neg false (digits_value ds)) \/
     (map lower body = lit "snan" ++ ds /\ d = NaN neg true (digits_value ds))).

(** An exponent the library can hold. *)
Definition exponent_in_range (c e : Z) : Prop :=
  MIN_ETINY <= e /\ (if c =? 0 then e else ndigits c - 1 + e) <= MAX_EMAX.

(** A decimal literal and the value it denotes: with the underscores
    dropped and Unicode digits read as digits, a sign followed by a
    number or by one of the words. *)
Definition decimal_literal (t : pystr) (d : Decimal) : Prop :=
  exists a sg neg body,
    as_ascii t = Some a /\ a = sg ++ body /\ sign_text sg neg /\
    (special_literal body neg d \/
     exists c e, numeric_literal body c e /\ exponent_in_range c e /\
                 d = Fin neg c e).

(** * Properties *)

(** ** Digits of integers *)

Lemma to_digits_spec (b : Z) (Hb : 2 <= b) :
  forall (fuel : nat) (n : Z) (acc : list Z),
    (0 < fuel)%nat -> 0 <= n < 2 ^ Z.of_nat fuel ->
    exists ds,
      to_digits fuel b n acc = ds ++ acc /\
      Forall (fun d => 0 <= d < b) ds /\
      fold_left (fun a d => b * a + d) ds 0 = n /\
      (1 <= length ds)%nat /\
      (0 < n -> b ^ (Z.of_nat (length ds) - 1) <= n) /\
      n < b ^ Z.of_nat (length ds).
Proof.
  induction fuel as [|f IH]; intros n acc Hf Hn; [lia|].
  cbn [to_digits].
  destruct (Z.ltb_spec n b) as [Hlt|Hge].
  - exists [n mod b]. rewrite (Z.mod_small n b) by lia.
    cbn. repeat split; try lia. constructor; [lia|constructor].
  - assert (Hf1 : (0 < f)%nat).
    { destruct f; [|lia]. cbn in Hn. lia. }
    assert (Hdiv : 0 <= n / b < 2 ^ Z.of_nat f).
    { split; [apply Z.div_pos; lia|].
      apply Z.div_lt_upper_bound; [lia|].
      rewrite Nat2Z.inj_succ, Z.pow_succ_r in Hn by lia.
      assert (0 < 2 ^ Z.of_nat f) by (apply Z.pow_pos_nonneg; lia). nia. }
    destruct (IH (n / b) (n mod b :: acc) Hf1 Hdiv)
      as (ds & Heq & Hall & Hval & Hlen & Hlo & Hhi).
    exists (ds ++ [n mod b]).
    assert (Hmod : 0 <= n mod b < b) by (apply Z.mod_pos_bound; lia).
    assert (Hn' : n = b * (n / b) + n mod b) by (apply Z.div_mod; lia).
    assert (Hq : 0 < n / b) by (apply Z.div_str_pos; lia).
    rewrite Heq, <- app_assoc. cbn [app].
    rewrite length_app. cbn [length].
    replace (Z.of_nat (length ds + 1)) with (Z.succ (Z.of_nat (length ds))) by lia.
    rewrite Z.pow_succ_r by lia.
    replace (Z.succ (Z.of_nat (length ds)) - 1)
      with (Z.succ (Z.of_nat (length ds) - 1)) by lia.
    rewrite Z.pow_succ_r by lia.
    specialize (Hlo Hq).
    repeat split; try lia.
    + apply Forall_app; split; [assumption|constructor; [lia|constructor]].
    + rewrite fold_left_app. cbn. rewrite Hval. lia.
    + intros _. nia.
    + nia.
Qed.

Lemma int_digits_spec (b n : Z) :
  2 <= b -> 0 <= n ->
  Forall (fun d => 0 <= d < b) (int_digits b n) /\
  fold_left (fun a d => b * a + d) (int_digits b n) 0 = n /\
  (1 <= length (int_digits b n))%nat /\
  (0 < n -> b ^ (Z.of_nat (length (int_digits b n)) - 1) <= n) /\
  n < b ^ Z.of_nat (length (int_digits b n)).
Proof.
  intros Hb Hn. unfold int_digits.
  assert (Hfuel : 0 <= n < 2 ^ Z.of_nat (S (Z.to_nat (Z.log2 n)))).
  { split; [lia|].
    rewrite Nat2Z.inj_succ, Z2Nat.id by apply Z.log2_nonneg.
    destruct (Z.eq_dec n 0) as [->|Hnz]; [reflexivity|].
    apply Z.log2_spec. lia. }
  destruct (to_digits_spec b Hb (S (Z.to_nat (Z.log2 n))) n [] ltac:(lia) Hfuel)
    as (ds & Heq & H).
  rewrite Heq, app_nil_r. exact H.
Qed.

Lemma ndigits_pos (n : Z) : 0 <= n -> 1 <= ndigits n.
Proof.
  intros Hn. unfold ndigits.
  destruct (int_digits_spec 10 n ltac:(lia) Hn) as (_ & _ & H & _). lia.
Qed.

Lemma ndigits_upper (n : Z) : 0 <= n -> n < 10 ^ ndigits n.
Proof.
  intros Hn. unfold ndigits.
  destruct (int_digits_spec 10 n ltac:(lia) Hn) as (_ & _ & _ & _ & H). exact H.
Qed.

Lemma ndigits_lower (n : Z) : 0 < n -> 10 ^ (ndigits n - 1) <= n.
Proof.
  intros Hn. unfold ndigits.
  destruct (int_digits_spec 10 n ltac:(lia) ltac:(lia)) as (_ & _ & _ & H & _).
  auto.
Qed.

Lemma ndigits_le (n k : Z) : 0 <= n < 10 ^ k -> 1 <= k -> ndigits n <= k.
Proof.
  intros [Hn Hlt] Hk.
  destruct (Z.eq_dec n 0) as [->|Hnz]; [change (ndigits 0) with 1; lia|].
  destruct (Z.le_gt_cases (ndigits n) k) as [|Hgt]; [assumption|exfalso].
  pose proof (ndigits_lower n ltac:(lia)) as Hlo.
  assert (10 ^ k <= 10 ^ (ndigits n - 1)) by (apply Z.pow_le_mono_r; lia).
  lia.
Qed.

Lemma ndigits_ge (n k : Z) : 0 <= k -> 10 ^ k <= n -> k + 1 <= ndigits n.
Proof.
  intros Hk Hle.
  assert (0 < 10 ^ k) by (apply Z.pow_pos_nonneg; lia).
  pose proof (ndigits_upper n ltac:(lia)) as Hup.
  destruct (Z.le_gt_cases (k + 1) (ndigits n)) as [|Hgt]; [assumption|exfalso].
  assert (10 ^ ndigits n <= 10 ^ k) by (apply Z.pow_le_mono_r; lia).
  lia.
Qed.

Lemma str_nonneg_digits (n : Z) :
  0 <= n -> Forall (fun c => 48 <= c <= 57) (str_nonneg n).
Proof.
  intros Hn. unfold str_nonneg.
  destruct (int_digits_spec 10 n ltac:(lia) Hn) as (Hall & _).
  induction Hall as [|d ds Hd _ IH]; cbn; constructor; [|exact IH].
  unfold digit_char. destruct (Z.ltb_spec d 10); lia.
Qed.

Lemma str_nonneg_length (n : Z) :
  Z.of_nat (length (str_nonneg n)) = ndigits n.
Proof. unfold str_nonneg, ndigits. now rewrite length_map. Qed.

Lemma digits_value_app (a b : list Z) :
  digits_value (a ++ b) =
  fold_left (fun acc c => 10 * acc + (c - 48)) b (digits_value a).
Proof. unfold digits_value. apply fold_left_app. Qed.

Lemma digits_value_zeros (k : nat) (s : list Z) :
  digits_value (repeat 48 k ++ s) = digits_value s.
Proof.
  rewrite digits_value_app.
  replace (digits_value (repeat 48 k)) with 0; [reflexivity|].
  unfold digits_value. induction k as [|k IH]; [reflexivity|].
  cbn [repeat fold_left]. exact IH.
Qed.

Lemma digits_value_chars (ds : list Z) (acc : Z) :
  Forall (fun d => 0 <= d < 10) ds ->
  fold_left (fun a c => 10 * a + (c - 48)) (map digit_char ds) acc =
  fold_left (fun a d => 10 * a + d) ds acc.
Proof.
  intros H. revert acc. induction H as [|d ds Hd _ IH]; intros acc; [reflexivity|].
  cbn [map fold_left]. rewrite IH. f_equal.
  unfold digit_char. destruct (Z.ltb_spec d 10); lia.
Qed.

Lemma digits_value_str_nonneg (n : Z) : 0 <= n -> digits_value (str_nonneg n) = n.
Proof.
  intros Hn. destruct (int_digits_spec 10 n ltac:(lia) Hn) as (Hall & Hval & _).
  unfold digits_value, str_nonneg. now rewrite digits_value_chars.
Qed.

Lemma all_digits_str_nonneg (n : Z) : 0 <= n -> all_digits (str_nonneg n) = true.
Proof.
  intros Hn. unfold all_digits. apply forallb_forall. intros c Hc.
  pose proof (str_nonneg_digits n Hn) as H.
  rewrite Forall_forall in H. specialize (H c Hc).
  unfold is_digit. apply andb_true_intro; split; apply Z.leb_le; lia.
Qed.

Lemma all_digits_zfill (w : nat) (s : pystr) :
  all_digits s = true -> all_digits (zfill w s) = true.
Proof.
  intros H. unfold all_digits, zfill in *. rewrite forallb_app, H, andb_true_r.
  induction (w - length s)%nat; [reflexivity|cbn; assumption].
Qed.

Lemma zfill_length (w : nat) (s : pystr) :
  length (zfill w s) = Nat.max w (length s).
Proof. unfold zfill. rewrite length_app, repeat_length. lia. Qed.

Lemma fmt_02d_value (n : Z) : 0 <= n -> digits_value (fmt_02d n) = n.
Proof.
  intros Hn. unfold fmt_02d, zfill.
  rewrite digits_value_zeros. now apply digits_value_str_nonneg.
Qed.

Lemma fmt_02d_all_digits (n : Z) : 0 <= n -> all_digits (fmt_02d n) = true.
Proof. intros Hn. apply all_digits_zfill. now apply all_digits_str_nonneg. Qed.

Lemma fmt_02d_length_short (n : Z) : 0 <= n <= 99 -> length (fmt_02d n) = 2%nat.
Proof.
  intros Hn. unfold fmt_02d. rewrite zfill_length.
  pose proof (str_nonneg_length n) as Hl.
  pose proof (ndigits_le n 2 ltac:(lia) ltac:(lia)).
  pose proof (ndigits_pos n ltac:(lia)). lia.
Qed.

Lemma fmt_02d_length_long (n : Z) : 99 < n -> (2 < length (fmt_02d n))%nat.
Proof.
  intros Hn. unfold fmt_02d. rewrite zfill_length.
  pose proof (str_nonneg_length n) as Hl.
  pose proof (ndigits_ge n 2 ltac:(lia) ltac:(lia)). lia.
Qed.

(** The length field of a value of at most 99 characters is two digits
    that read back as the length. *)
Lemma fmt_02d_two_digits (n : Z) :
  0 <= n <= 99 ->
  exists l1 l2,
    fmt_02d n = [l1; l2] /\ is_digit l1 = true /\ is_digit l2 = true /\
    10 * (l1 - 48) + (l2 - 48) = n.
Proof.
  intros Hn.
  pose proof (fmt_02d_length_short n Hn) as Hlen.
  pose proof (fmt_02d_all_digits n ltac:(lia)) as Hall.
  pose proof (fmt_02d_value n ltac:(lia)) as Hval.
  destruct (fmt_02d n) as [|l1 [|l2 [|? ?]]]; try discriminate.
  exists l1, l2. cbn in Hall.
  apply andb_prop in Hall as [H1 Hall]. apply andb_prop in Hall as [H2 _].
  unfold digits_value in Hval. cbn [fold_left] in Hval.
  repeat split; try assumption; lia.
Qed.

(** ** The checksum *)

Lemma land_bit15 (x : Z) :
  negb (Z.land x 0x8000 =? 0) = Z.testbit x 15.
Proof.
  assert (H : Z.land x 0x8000 = if Z.testbit x 15 then 0x8000 else 0).
  { apply Z.bits_inj'. intros i Hi.
    rewrite Z.land_spec.
    change 0x8000 with (2 ^ 15). rewrite Z.pow2_bits_eqb by lia.
    destruct (Z.eqb_spec 15 i) as [<-|Hne].
    - rewrite andb_true_r. destruct (Z.testbit x 15) eqn:E.
      + now rewrite Z.pow2_bits_eqb, Z.eqb_refl by lia.
      + now rewrite Z.bits_0.
    - rewrite andb_false_r. destruct (Z.testbit x 15).
      + rewrite Z.pow2_bits_eqb by lia. symmetry. now apply Z.eqb_neq.
      + now rewrite Z.bits_0. }
  rewrite H. now destruct (Z.testbit x 15).
Qed.

Lemma crc_shift_spec (r : Z) : crc_shift r = spec_shift r.
Proof.
  unfold crc_shift, spec_shift. rewrite land_bit15.
  change 0xFFFF with (Z.ones 16). rewrite Z.land_ones by lia.
  rewrite Z.shiftl_mul_pow2 by lia. change (2 ^ 1) with 2.
  rewrite (Z.mul_comm r 2). now destruct (Z.testbit r 15).
Qed.

Lemma crc_shift_range (r : Z) : 0 <= crc_shift r < 2 ^ 16.
Proof.
  unfold crc_shift. change 0xFFFF with (Z.ones 16).
  rewrite Z.land_ones by lia. apply Z.mod_pos_bound. lia.
Qed.

Lemma crc_byte_spec (r b : Z) :
  crc_byte r b = Nat.iter 8 spec_shift (Z.lxor r (b * 2 ^ 8)).
Proof.
  unfold crc_byte. rewrite Z.shiftl_mul_pow2 by lia.
  cbn [Nat.iter nat_rect]. now rewrite !crc_shift_spec.
Qed.

Lemma crc_byte_range (r b : Z) : 0 <= crc_byte r b < 2 ^ 16.
Proof. unfold crc_byte. cbn [Nat.iter nat_rect]. apply crc_shift_range. Qed.

Lemma crc16_from_fold (data : list Z) (r : Z) :
  fold_left crc_byte data r = crc16_from r data.
Proof.
  revert r. induction data as [|b rest IH]; intros r; [reflexivity|].
  cbn [fold_left crc16_from]. now rewrite IH, crc_byte_spec.
Qed.

Lemma crc16_ccitt_range (data : list Z) : 0 <= _crc16_ccitt data < 2 ^ 16.
Proof.
  unfold _crc16_ccitt.
  assert (H : forall r, 0 <= r < 2 ^ 16 -> 0 <= fold_left crc_byte data r < 2 ^ 16).
  { induction data as [|b rest IH]; intros r Hr; [exact Hr|].
    cbn [fold_left]. apply IH, crc_byte_range. }
  apply H. lia.
Qed.

(** C3. [_crc16_ccitt] is CRC-16/CCITT-FALSE: a function of its input
    bytes alone (equal inputs give equal checksums), whose result fits in
    16 bits, which computes exactly the algorithm the specification
    describes, and which maps the standard test vector b"123456789" to
    0x29B1. *)
Theorem crc16_ccitt_false (data data' : list Z) (Hsame : data = data') :
  _crc16_ccitt data = _crc16_ccitt data' /\
  0 <= _crc16_ccitt data < 2 ^ 16 /\
  _crc16_ccitt data = crc16 data /\
  _crc16_ccitt (lit "123456789") = 0x29B1.
Proof.
  subst data'. repeat split.
  - apply crc16_ccitt_range.
  - apply crc16_ccitt_range.
  - unfold _crc16_ccitt, crc16. apply crc16_from_fold.
Qed.

Lemma crc16_ccitt_false_witness :
  _crc16_ccitt (lit "123456789") = _crc16_ccitt (lit "123456789") /\
  0 <= _crc16_ccitt (lit "123456789") < 2 ^ 16 /\
  _crc16_ccitt (lit "123456789") = crc16 (lit "123456789") /\
  _crc16_ccitt (lit "123456789") = 0x29B1.
Proof.
  apply (crc16_ccitt_false (lit "123456789") (lit "123456789")). reflexivity.
Defined.

(** ** Tag-length-value strings *)

Lemma emv_kv_length (_id value : pystr) :
  (length value <= 99)%nat ->
  length (_emv_kv _id value) = (length _id + 2 + length value)%nat.
Proof.
  intros H. unfold _emv_kv. rewrite !length_app, fmt_02d_length_short; lia.
Qed.

(** A consumer reading a composed field of at most 99 characters gets the
    tag and the value back, and continues after the field. *)
Lemma tlv_parse_fuel_field (fuel : nat) (t1 t2 : Z) (value rest : pystr) :
  (length value <= 99)%nat ->
  tlv_parse_fuel (S fuel) (_emv_kv [t1; t2] value ++ rest) =
  option_map (cons ([t1; t2], value)) (tlv_parse_fuel fuel rest).
Proof.
  intros Hlen.
  destruct (fmt_02d_two_digits (Z.of_nat (length value)) ltac:(lia))
    as (l1 & l2 & Hfmt & H1 & H2 & Hn).
  unfold _emv_kv. rewrite Hfmt. cbn [app tlv_parse_fuel].
  rewrite H1, H2, Hn, Nat2Z.id. cbn [andb].
  replace (length value <=? length (value ++ rest))%nat with true
    by (symmetry; apply Nat.leb_le; rewrite length_app; lia).
  rewrite firstn_app, Nat.sub_diag, firstn_all, firstn_O, app_nil_r.
  rewrite skipn_app, Nat.sub_diag, skipn_all. reflexivity.
Qed.

Lemma tlv_parse_fuel_encode (fs : list (pystr * pystr)) :
  Forall well_formed_field fs ->
  forall fuel, (length fs <= fuel)%nat ->
  tlv_parse_fuel fuel (tlv_encode fs) = Some fs.
Proof.
  induction 1 as [|[tag value] fs [Htag Hval] _ IH]; intros fuel Hfuel.
  - destruct fuel; reflexivity.
  - destruct fuel as [|fuel]; [cbn in Hfuel; lia|].
    cbn [fst snd] in Htag, Hval.
    destruct tag as [|t1 [|t2 [|? ?]]]; try discriminate.
    unfold tlv_encode. cbn [flat_map fst snd].
    rewrite tlv_parse_fuel_field by assumption.
    fold (tlv_encode fs). rewrite IH by (cbn in Hfuel; lia). reflexivity.
Qed.

Lemma tlv_encode_length (fs : list (pystr * pystr)) :
  (length fs <= length (tlv_encode fs))%nat.
Proof.
  induction fs as [|[tag value] fs IH]; [cbn; lia|].
  assert (Hfield : (2 <= length (_emv_kv tag value))%nat).
  { unfold _emv_kv, fmt_02d. rewrite !length_app, zfill_length. lia. }
  unfold tlv_encode in *. cbn [flat_map fst snd length].
  rewrite length_app. lia.
Qed.

(** Reading back what was composed from well-formed fields gives the
    fields. *)
Lemma tlv_parse_encode (fs : list (pystr * pystr)) :
  Forall well_formed_field fs -> tlv_parse (tlv_encode fs) = Some fs.
Proof.
  intros H. unfold tlv_parse. apply tlv_parse_fuel_encode; [assumption|].
  apply tlv_encode_length.
Qed.

(** ** C7: the field composer *)

(** C7, as stated, fails: a 100-character value is not refused.  The
    composer returns the identifier, a three-digit length and the value. *)
Lemma emv_kv_long_value_not_refused :
  length (lit "59") = 2%nat /\
  (99 < length (repeat 65 100))%nat /\
  call_emv_kv (lit "59") (repeat 65 100) =
    Returned (lit "59" ++ lit "100" ++ repeat 65 100) /\
  ~ (exists e, call_emv_kv (lit "59") (repeat 65 100) = Raised e).
Proof.
  repeat split.
  - cbn. lia.
  - intros [e He]. discriminate He.
Qed.

(** C7, amended.  For every identifier and value the composer returns
    (it never fails) the identifier, then the decimal character count of
    the value zero-padded to at least two digits, then the value.  For a
    value of at most 99 characters the count takes exactly two digits, and
    a two-character identifier makes the field readable back; beyond 99
    characters the count takes three digits or more. *)
Theorem emv_kv_composes (_id value : pystr) :
  let n := Z.of_nat (length value) in
  call_emv_kv _id value = Returned (_id ++ fmt_02d n ++ value) /\
  all_digits (fmt_02d n) = true /\
  digits_value (fmt_02d n) = n /\
  ((length value <= 99)%nat -> length (fmt_02d n) = 2%nat) /\
  ((length value <= 99)%nat -> length _id = 2%nat ->
     tlv_parse (_emv_kv _id value) = Some [(_id, value)]) /\
  ((99 < length value)%nat -> (2 < length (fmt_02d n))%nat).
Proof.
  intros n. subst n. repeat split.
  - apply fmt_02d_all_digits. lia.
  - apply fmt_02d_value. lia.
  - intros H. apply fmt_02d_length_short. lia.
  - intros Hv Hid.
    replace (_emv_kv _id value) with (tlv_encode [(_id, value)])
      by (unfold tlv_encode; cbn; apply app_nil_r).
    apply tlv_parse_encode. constructor; [split; assumption|constructor].
  - intros H. apply fmt_02d_length_long. lia.
Qed.

Lemma emv_kv_composes_witness :
  let _id := lit "59" in
  let value := lit "ADEGA QUEBRA TUDO" in
  let n := Z.of_nat (length value) in
  call_emv_kv _id value = Returned (_id ++ fmt_02d n ++ value) /\
  all_digits (fmt_02d n) = true /\
  digits_value (fmt_02d n) = n /\
  ((length value <= 99)%nat -> length (fmt_02d n) = 2%nat) /\
  ((length value <= 99)%nat -> length _id = 2%nat ->
     tlv_parse (_emv_kv _id value) = Some [(_id, value)]) /\
  ((99 < length value)%nat -> (2 < length (fmt_02d n))%nat).
Proof.
  exact (emv_kv_composes (lit "59") (lit "ADEGA QUEBRA TUDO")).
Defined.

(** ** Decimal arithmetic within the context precision *)

Lemma Returned_inj {A : Type} (a b : A) : Returned a = Returned b -> a = b.
Proof. intros H. now injection H. Qed.

Lemma pow10_prec : 10 ^ prec = 10000000000000000000000000000.
Proof. reflexivity. Qed.

(** A value of at most 28 digits with an ordinary exponent is not rounded. *)
Lemma fix_small (s : bool) (c e : Z) :
  0 <= c < 10 ^ prec -> Etiny <= e <= Etop ->
  _fix s c e = Returned (Fin s c e).
Proof.
  intros Hc He. unfold _fix.
  unfold Etiny, Etop, Emin, Emax in *.
  destruct (Z.eqb_spec c 0) as [->|Hnz].
  - do 2 f_equal. unfold prec in *. lia.
  - pose proof (ndigits_le c prec Hc ltac:(unfold prec; lia)) as Hnd.
    pose proof (ndigits_pos c ltac:(lia)) as Hpos.
    unfold prec in *.
    destruct (Z.ltb_spec (999999 - 28 + 1) (ndigits c + e - 28)); [lia|].
    destruct (Z.ltb_spec e (Z.max (ndigits c + e - 28) (-999999 - 28 + 1))); [lia|].
    reflexivity.
Qed.

Lemma rescale_same (r : rounding) (c e : Z) : _rescale r c e e = c.
Proof. unfold _rescale. rewrite Z.leb_refl, Z.sub_diag. cbn [Z.pow]. lia. Qed.

Lemma quantize_amount (r : rounding) (s : bool) (c : Z) :
  0 <= c < 10 ^ prec ->
  quantize (Fin s c (-2)) MONEY_Q r = Returned (Fin s c (-2)).
Proof.
  intros Hc. unfold quantize, MONEY_Q. cbn [_check_nans].
  replace (negb ((Etiny <=? -2) && (-2 <=? Emax))) with false by reflexivity.
  destruct (Z.eqb_spec c 0) as [->|Hnz]; [reflexivity|].
  pose proof (ndigits_le c prec Hc ltac:(unfold prec; lia)) as Hnd.
  pose proof (ndigits_pos c ltac:(lia)) as Hpos.
  rewrite rescale_same.
  unfold prec, Emax in *.
  destruct (Z.ltb_spec 999999 (ndigits c - 1 + -2)); [lia|].
  destruct (Z.ltb_spec 28 (ndigits c - 1 + -2 - -2 + 1)); [lia|].
  destruct (Z.ltb_spec 28 (ndigits c)); [lia|].
  apply fix_small; [exact Hc|unfold Etiny, Etop, Emin, Emax, prec; lia].
Qed.

Lemma mul_amount_int (s : bool) (c q : Z) :
  0 <= c -> c * Z.abs q < 10 ^ prec ->
  mul (Fin s c (-2)) (of_int q) =
  Returned (Fin (xorb s (q <? 0)) (c * Z.abs q) (-2)).
Proof.
  intros Hc Hfit. unfold mul, of_int. cbn [_check_nans].
  replace (-2 + 0) with (-2) by lia.
  apply fix_small; [lia|unfold Etiny, Etop, Emin, Emax, prec; lia].
Qed.

Lemma cents_mul (s : bool) (c q e : Z) :
  cents (Fin (xorb s (q <? 0)) (c * Z.abs q) e) = cents (Fin s c e) * q.
Proof. cbn [cents]. destruct s, (Z.ltb_spec q 0); cbn [xorb]; lia. Qed.

Lemma sub_amount (s1 s2 : bool) (c1 c2 : Z) :
  0 <= c1 -> 0 <= c2 ->
  Z.abs (cents (Fin s1 c1 (-2)) - cents (Fin s2 c2 (-2))) < 10 ^ prec ->
  exists s,
    sub (Fin s1 c1 (-2)) (Fin s2 c2 (-2)) =
      Returned (Fin s (Z.abs (cents (Fin s1 c1 (-2)) - cents (Fin s2 c2 (-2)))) (-2)) /\
    cents (Fin s (Z.abs (cents (Fin s1 c1 (-2)) - cents (Fin s2 c2 (-2)))) (-2)) =
      cents (Fin s1 c1 (-2)) - cents (Fin s2 c2 (-2)).
Proof.
  intros H1 H2 Hfit. unfold sub, copy_negate, add. cbn [_check_nans].
  replace (Z.min (-2) (-2)) with (-2) by reflexivity.
  assert (Hv : signed_at s1 c1 (-2) (-2) + signed_at (negb s2) c2 (-2) (-2) =
               cents (Fin s1 c1 (-2)) - cents (Fin s2 c2 (-2))).
  { unfold signed_at. replace (-2 - -2) with 0 by lia. cbn [cents Z.pow].
    destruct s1, s2; cbn [negb]; lia. }
  assert (Hrange : Etiny <= -2 <= Etop)
    by (unfold Etiny, Etop, Emin, Emax, prec; lia).
  destruct ((c1 =? 0) && (c2 =? 0)) eqn:Hzero.
  - apply andb_prop in Hzero as [Hz1 Hz2].
    apply Z.eqb_eq in Hz1, Hz2. subst c1 c2.
    exists (s1 && negb s2)%bool. cbn [cents].
    replace (Z.abs _) with 0 by (destruct s1, s2; reflexivity).
    split; [reflexivity|]. destruct s1, s2; reflexivity.
  - rewrite Hv. set (v := cents (Fin s1 c1 (-2)) - cents (Fin s2 c2 (-2))) in *.
    destruct (Z.eqb_spec v 0) as [Hv0|Hv0].
    + exists false. rewrite Hv0. cbn [Z.abs cents]. split; [reflexivity|lia].
    + exists (v <? 0). split.
      * apply fix_small; [lia|exact Hrange].
      * cbn [cents]. destruct (Z.ltb_spec v 0); lia.
Qed.

(** Within the precision of the context, [add_item] returns the exact
    products, for a quantity of either sign. *)
Lemma add_item_exact (qty : Z) (unit_price unit_cost : Decimal) :
  is_amount unit_price = true -> is_amount unit_cost = true ->
  Z.abs (cents unit_price * qty) < 10 ^ prec ->
  Z.abs (cents unit_price - cents unit_cost) < 10 ^ prec ->
  Z.abs ((cents unit_price - cents unit_cost) * qty) < 10 ^ prec ->
  exists line_total line_profit,
    add_item qty unit_price unit_cost = Returned (line_total, line_profit) /\
    is_amount line_total = true /\ is_amount line_profit = true /\
    cents line_total = cents unit_price * qty /\
    cents line_profit = (cents unit_price - cents unit_cost) * qty.
Proof.
  intros HP HU Ht Hd Hp.
  destruct unit_price as [sP cP eP| |]; try discriminate.
  destruct unit_cost as [sU cU eU| |]; try discriminate.
  cbn [is_amount] in HP, HU.
  apply andb_prop in HP as [HcP HeP]. apply andb_prop in HU as [HcU HeU].
  apply Z.leb_le in HcP, HcU. apply Z.eqb_eq in HeP, HeU. subst eP eU.
  assert (HtP : cP * Z.abs qty < 10 ^ prec).
  { cbn [cents] in Ht. destruct sP; rewrite Z.abs_mul in Ht;
      [rewrite Z.abs_opp in Ht|]; rewrite (Z.abs_eq cP) in Ht by lia; exact Ht. }
  destruct (sub_amount sP sU cP cU HcP HcU Hd) as (sd & Hsub & Hcd).
  set (d := Z.abs (cents (Fin sP cP (-2)) - cents (Fin sU cU (-2)))) in *.
  assert (Hdq : d * Z.abs qty < 10 ^ prec).
  { subst d. rewrite <- Z.abs_mul. exact Hp. }
  assert (Hd0 : 0 <= d) by (subst d; apply Z.abs_nonneg).
  unfold add_item.
  rewrite mul_amount_int by assumption. cbn [bind].
  rewrite quantize_amount by (split; [apply Z.mul_nonneg_nonneg; lia|assumption]).
  cbn [bind]. rewrite Hsub. cbn [bind].
  rewrite mul_amount_int by assumption. cbn [bind].
  rewrite quantize_amount by (split; [apply Z.mul_nonneg_nonneg; lia|assumption]).
  cbn [bind].
  eexists _, _. split; [reflexivity|].
  repeat split.
  - cbn [is_amount]. apply andb_true_intro; split; [apply Z.leb_le|reflexivity].
    apply Z.mul_nonneg_nonneg; lia.
  - cbn [is_amount]. apply andb_true_intro; split; [apply Z.leb_le|reflexivity].
    apply Z.mul_nonneg_nonneg; lia.
  - apply cents_mul.
  - rewrite cents_mul, Hcd. reflexivity.
Qed.

(** ** Decimal arithmetic beyond the context precision *)

Lemma ndigits_mono (a b : Z) : 0 < a <= b -> ndigits a <= ndigits b.
Proof.
  intros [Ha Hab].
  pose proof (ndigits_lower a Ha) as Hlo.
  pose proof (ndigits_upper b ltac:(lia)) as Hup.
  pose proof (ndigits_pos a ltac:(lia)).
  destruct (Z.le_gt_cases (ndigits a) (ndigits b)) as [|Hgt]; [assumption|exfalso].
  assert (10 ^ ndigits b <= 10 ^ (ndigits a - 1)) by (apply Z.pow_le_mono_r; lia).
  lia.
Qed.

Lemma ndigits_exact (n k : Z) : 1 <= k -> 10 ^ (k - 1) <= n < 10 ^ k -> ndigits n = k.
Proof.
  intros Hk [Hlo Hhi].
  assert (0 < 10 ^ (k - 1)) by (apply Z.pow_pos_nonneg; lia).
  pose proof (ndigits_le n k ltac:(lia) Hk).
  pose proof (ndigits_ge n (k - 1) ltac:(lia) Hlo). lia.
Qed.

(** What [_fix] returns for a non-zero value: the value itself when it has
    at most 28 digits, and otherwise a coefficient of exactly 28 digits at
    a higher exponent. *)
Lemma fix_returned (s : bool) (c e : Z) (d : Decimal) :
  0 < c -> Etiny <= e -> _fix s c e = Returned d ->
  exists c' e',
    d = Fin s c' e' /\ 0 < c' /\ e <= e' /\
    ndigits c + e <= ndigits c' + e' /\
    (ndigits c <= prec -> c' = c /\ e' = e).
Proof.
  intros Hc He. unfold _fix.
  destruct (Z.eqb_spec c 0); [lia|].
  destruct (Etop <? ndigits c + e - prec); [discriminate|].
  destruct (Z.ltb_spec e (Z.max (ndigits c + e - prec) Etiny)) as [Hround|Hkeep].
  - assert (Hbig : prec < ndigits c) by lia.
    rewrite Z.max_l by lia.
    unfold round_coef.
    replace (ndigits c + e - (ndigits c + e - prec)) with prec by lia.
    change (prec <? 0) with false. cbv iota.
    replace (ndigits c + e - prec - e) with (ndigits c - prec) by lia.
    set (k := ndigits c - prec).
    assert (Hk : 1 <= k) by (subst k; lia).
    assert (Hpk : 0 < 10 ^ k) by (apply Z.pow_pos_nonneg; lia).
    assert (Hq : 10 ^ (prec - 1) <= c / 10 ^ k < 10 ^ prec).
    { pose proof (ndigits_lower c Hc) as Hlo.
      pose proof (ndigits_upper c ltac:(lia)) as Hup.
      replace (ndigits c - 1) with (k + (prec - 1)) in Hlo by (subst k; lia).
      replace (ndigits c) with (k + prec) in Hup by (subst k; lia).
      rewrite Z.pow_add_r in Hlo, Hup by (unfold prec; lia).
      split.
      - apply Z.div_le_lower_bound; lia.
      - apply Z.div_lt_upper_bound; lia. }
    set (coeff := if 0 <? _pick_rounding_function ROUND_HALF_EVEN c k
                  then c / 10 ^ k + 1 else c / 10 ^ k).
    assert (Hcoeff : 10 ^ (prec - 1) <= coeff <= 10 ^ prec)
      by (subst coeff; destruct (0 <? _); lia).
    assert (Hp27 : 0 < 10 ^ (prec - 1)) by reflexivity.
    destruct (Z.ltb_spec prec (ndigits coeff)) as [Hcarry|Hfit].
    + assert (Hten : coeff = 10 ^ prec).
      { destruct (Z.eq_dec coeff (10 ^ prec)); [assumption|exfalso].
        pose proof (ndigits_le coeff prec ltac:(lia) ltac:(unfold prec; lia)). lia. }
      rewrite Hten. change (10 ^ prec / 10) with (10 ^ (prec - 1)).
      destruct (Etop <? ndigits c + e - prec + 1); [discriminate|].
      intros [= <-]. exists (10 ^ (prec - 1)), (ndigits c + e - prec + 1).
      change (ndigits (10 ^ (prec - 1))) with prec.
      repeat split; try lia.
    + assert (Hnd : ndigits coeff = prec).
      { pose proof (ndigits_ge coeff (prec - 1) ltac:(unfold prec; lia) ltac:(lia)). lia. }
      destruct (Etop <? ndigits c + e - prec); [discriminate|].
      intros [= <-]. exists coeff, (ndigits c + e - prec).
      repeat split; try lia.
  - intros [= <-]. exists c, e. repeat split; lia.
Qed.

(** A value of 10^26 or more cannot be quantized to two fractional
    digits. *)
Lemma quantize_large (r : rounding) (s : bool) (c e : Z) :
  0 < c -> 27 <= ndigits c + e ->
  quantize (Fin s c e) MONEY_Q r = Raised InvalidOperation.
Proof.
  intros Hc Hbig. unfold quantize, MONEY_Q. cbn [_check_nans].
  replace (negb ((Etiny <=? -2) && (-2 <=? Emax))) with false by reflexivity.
  destruct (Z.eqb_spec c 0); [lia|].
  destruct (Emax <? ndigits c - 1 + e); [reflexivity|].
  destruct (Z.ltb_spec prec (ndigits c - 1 + e - -2 + 1)); [reflexivity|].
  unfold prec in *. lia.
Qed.

(** If rounding to the context and then quantizing to cents succeeds, the
    value had at most 28 digits, so neither step changed it. *)
Lemma fix_quantize_fits (r : rounding) (s : bool) (c : Z) (t q : Decimal) :
  0 <= c -> _fix s c (-2) = Returned t -> quantize t MONEY_Q r = Returned q ->
  c < 10 ^ prec.
Proof.
  intros Hc Hfix Hq.
  destruct (Z.lt_ge_cases c (10 ^ prec)) as [|Hbig]; [assumption|exfalso].
  assert (Hpos : 0 < c) by (assert (0 < 10 ^ prec) by reflexivity; lia).
  pose proof (ndigits_ge c prec ltac:(unfold prec; lia) Hbig) as Hnd.
  destruct (fix_returned s c (-2) t Hpos ltac:(unfold Etiny, Emin, prec; lia) Hfix)
    as (c' & e' & -> & Hc' & He' & Hsum & _).
  rewrite quantize_large in Hq; [discriminate|assumption|unfold prec in *; lia].
Qed.

Lemma sub_amount_unfold (s1 s2 : bool) (c1 c2 : Z) :
  cents (Fin s1 c1 (-2)) - cents (Fin s2 c2 (-2)) <> 0 ->
  sub (Fin s1 c1 (-2)) (Fin s2 c2 (-2)) =
  _fix (cents (Fin s1 c1 (-2)) - cents (Fin s2 c2 (-2)) <? 0)
       (Z.abs (cents (Fin s1 c1 (-2)) - cents (Fin s2 c2 (-2)))) (-2).
Proof.
  intros Hv. unfold sub, copy_negate, add. cbn [_check_nans].
  replace (Z.min (-2) (-2)) with (-2) by reflexivity.
  assert (Heq : signed_at s1 c1 (-2) (-2) + signed_at (negb s2) c2 (-2) (-2) =
                cents (Fin s1 c1 (-2)) - cents (Fin s2 c2 (-2))).
  { unfold signed_at. replace (-2 - -2) with 0 by lia. cbn [cents Z.pow].
    destruct s1, s2; cbn [negb]; lia. }
  rewrite Heq.
  destruct ((c1 =? 0) && (c2 =? 0)) eqn:Hzero.
  - apply andb_prop in Hzero as [Hz1 Hz2]. apply Z.eqb_eq in Hz1, Hz2. subst.
    cbn [cents] in Hv. destruct s1, s2; cbn in Hv; lia.
  - destruct (Z.eqb_spec (cents (Fin s1 c1 (-2)) - cents (Fin s2 c2 (-2))) 0);
      [contradiction|reflexivity].
Qed.

(** [add_item] never returns a rounded pair: whatever it returns is the
    exact pair of products. *)
Lemma add_item_returned (qty : Z) (unit_price unit_cost line_total line_profit : Decimal) :
  is_amount unit_price = true -> is_amount unit_cost = true ->
  add_item qty unit_price unit_cost = Returned (line_total, line_profit) ->
  is_amount line_total = true /\ is_amount line_profit = true /\
  cents line_total = cents unit_price * qty /\
  cents line_profit = (cents unit_price - cents unit_cost) * qty.
Proof.
  intros HP HU Hrun.
  destruct unit_price as [sP cP eP| |]; try discriminate.
  destruct unit_cost as [sU cU eU| |]; try discriminate.
  pose proof HP as HP'. pose proof HU as HU'.
  cbn [is_amount] in HP', HU'.
  apply andb_prop in HP' as [HcP HeP]. apply andb_prop in HU' as [HcU HeU].
  apply Z.leb_le in HcP, HcU. apply Z.eqb_eq in HeP, HeU. subst eP eU.
  set (v := cents (Fin sP cP (-2)) - cents (Fin sU cU (-2))) in *.
  assert (Hrange : Etiny <= -2) by (unfold Etiny, Emin, prec; lia).
  assert (Hrange' : Etiny <= -2 <= Etop)
    by (unfold Etiny, Etop, Emin, Emax, prec; lia).
  (* the line total *)
  unfold add_item in Hrun.
  assert (Hmul : mul (Fin sP cP (-2)) (of_int qty) =
                 _fix (xorb sP (qty <? 0)) (cP * Z.abs qty) (-2)) by reflexivity.
  rewrite Hmul in Hrun.
  destruct (_fix (xorb sP (qty <? 0)) (cP * Z.abs qty) (-2)) as [total|] eqn:Htotal;
    cbn [bind] in Hrun; [|discriminate].
  destruct (quantize total MONEY_Q ROUND_HALF_EVEN) as [lt|] eqn:Hlt;
    cbn [bind] in Hrun; [|discriminate].
  assert (Hnn : 0 <= cP * Z.abs qty) by nia.
  assert (Hfit1 : cP * Z.abs qty < 10 ^ prec)
    by (apply (fix_quantize_fits _ _ _ _ _ Hnn Htotal Hlt)).
  rewrite (fix_small _ _ _ (conj Hnn Hfit1) Hrange') in Htotal.
  apply Returned_inj in Htotal. subst total.
  rewrite (quantize_amount _ _ _ (conj Hnn Hfit1)) in Hlt.
  apply Returned_inj in Hlt. subst lt.
  (* the line profit *)
  destruct (Z.eq_dec v 0) as [Hv0|Hv0].
  { destruct (sub_amount sP sU cP cU HcP HcU) as (sd & Hsub & Hcd);
      [fold v; rewrite Hv0; reflexivity|].
    fold v in Hsub, Hcd. rewrite Hv0 in Hsub. cbn [Z.abs] in Hsub.
    rewrite Hsub in Hrun. cbn [bind] in Hrun.
    assert (Hzero : 0 <= 0 * Z.abs qty < 10 ^ prec)
      by (rewrite Z.mul_0_l; split; [lia|reflexivity]).
    rewrite (mul_amount_int sd 0 qty (Z.le_refl 0) (proj2 Hzero)) in Hrun.
    cbn [bind] in Hrun.
    rewrite (quantize_amount _ _ _ Hzero) in Hrun.
    cbn [bind] in Hrun. apply Returned_inj in Hrun. injection Hrun as <- <-.
    repeat split.
    - cbn [is_amount]. apply andb_true_intro; split; [apply Z.leb_le; nia|reflexivity].
    - apply cents_mul.
    - rewrite Hv0. cbn. destruct (xorb sd (qty <? 0)); reflexivity. }
  rewrite sub_amount_unfold in Hrun by (fold v; exact Hv0). fold v in Hrun.
  destruct (_fix (v <? 0) (Z.abs v) (-2)) as [diff|] eqn:Hdiff;
    cbn [bind] in Hrun; [|discriminate].
  assert (Habs : 0 < Z.abs v) by lia.
  destruct (fix_returned _ _ _ _ Habs Hrange Hdiff)
    as (cd & ed & -> & Hcd & Hed & Hsum & Hsame).
  assert (Hmul2 : mul (Fin (v <? 0) cd ed) (of_int qty) =
                  _fix (xorb (v <? 0) (qty <? 0)) (cd * Z.abs qty) (ed + 0)) by reflexivity.
  rewrite Hmul2, Z.add_0_r in Hrun.
  destruct (_fix (xorb (v <? 0) (qty <? 0)) (cd * Z.abs qty) ed) as [profit|] eqn:Hprofit;
    cbn [bind] in Hrun; [|discriminate].
  destruct (quantize profit MONEY_Q ROUND_HALF_EVEN) as [lp|] eqn:Hlp;
    cbn [bind] in Hrun; [|discriminate].
  apply Returned_inj in Hrun. injection Hrun as <- <-.
  assert (Hlt_ok : is_amount (Fin (xorb sP (qty <? 0)) (cP * Z.abs qty) (-2)) = true)
    by (cbn [is_amount]; apply andb_true_intro; split; [apply Z.leb_le; nia|reflexivity]).
  destruct (Z.eq_dec qty 0) as [->|Hq0].
  { (* nothing sold: the profit is zero whatever the difference *)
    cbn [Z.abs] in Hprofit. rewrite Z.mul_0_r in Hprofit.
    unfold _fix in Hprofit. cbn [Z.eqb] in Hprofit.
    apply Returned_inj in Hprofit. subst profit.
    unfold quantize, MONEY_Q in Hlp. cbn [_check_nans Z.eqb] in Hlp.
    replace (negb ((Etiny <=? -2) && (-2 <=? Emax))) with false in Hlp by reflexivity.
    apply Returned_inj in Hlp. subst lp.
    repeat split; [exact Hlt_ok|apply cents_mul|].
    cbn. rewrite Z.mul_0_r.
    destruct (xorb (v <? 0) false); reflexivity. }
  assert (Hprod : 0 < cd * Z.abs qty) by nia.
  destruct (Z.le_gt_cases (ndigits (Z.abs v)) prec) as [Hsmall|Hbig].
  - (* the difference was not rounded *)
    destruct (Hsame Hsmall) as [-> ->].
    assert (Hnn2 : 0 <= Z.abs v * Z.abs qty) by lia.
    assert (Hfit2 : Z.abs v * Z.abs qty < 10 ^ prec)
      by (apply (fix_quantize_fits _ _ _ _ _ Hnn2 Hprofit Hlp)).
    rewrite (fix_small _ _ _ (conj Hnn2 Hfit2) Hrange') in Hprofit.
    apply Returned_inj in Hprofit. subst profit.
    rewrite (quantize_amount _ _ _ (conj Hnn2 Hfit2)) in Hlp.
    apply Returned_inj in Hlp. subst lp.
    repeat split; [exact Hlt_ok| |apply cents_mul|].
    + cbn [is_amount]. apply andb_true_intro; split; [apply Z.leb_le; lia|reflexivity].
    + rewrite cents_mul. f_equal. cbn [cents]. destruct (Z.ltb_spec v 0); lia.
  - (* the difference was rounded: the product cannot be quantized *)
    exfalso.
    assert (Hed' : Etiny <= ed) by lia.
    destruct (fix_returned _ _ _ _ Hprod Hed' Hprofit)
      as (cp & ep & -> & Hcp & Hep & Hsum2 & _).
    assert (Hle : 0 < cd <= cd * Z.abs qty) by nia.
    pose proof (ndigits_mono cd (cd * Z.abs qty) Hle) as Hmono.
    rewrite quantize_large in Hlp; [discriminate|assumption|].
    unfold prec in *. lia.
Qed.

(** ** Exact values and round-half-up *)

Lemma sgn_Qnum_comp (x y : Q) : (x == y)%Q -> Z.sgn (Qnum x) = Z.sgn (Qnum y).
Proof.
  unfold Qeq. destruct x as [nx dx], y as [ny dy]. cbn [Qnum Qden]. intros H.
  destruct (Z.lt_trichotomy nx 0) as [Hx|[Hx|Hx]],
           (Z.lt_trichotomy ny 0) as [Hy|[Hy|Hy]];
    try (rewrite ?(Z.sgn_neg nx), ?(Z.sgn_neg ny), ?(Z.sgn_pos nx), ?(Z.sgn_pos ny)
           by lia; subst; cbn; reflexivity);
    exfalso; nia.
Qed.

Lemma half_up_cents_comp (x y : Q) : (x == y)%Q -> half_up_cents x = half_up_cents y.
Proof.
  intros H. unfold half_up_cents. rewrite (sgn_Qnum_comp x y H). f_equal.
  apply Qfloor_comp. now rewrite H.
Qed.

(** A whole number of cents is its own rounding. *)
Lemma Qfloor_half (a : Z) : Qfloor (inject_Z a + (1 # 2)) = a.
Proof.
  unfold Qfloor, Qplus, inject_Z. cbn [Qnum Qden].
  change (Z.pos (1 * 2)) with 2. change (Z.pos 1) with 1.
  apply eq_sym, (Z.div_unique _ _ _ 1); lia.
Qed.

Lemma half_up_cents_exact (z : Z) : half_up_cents (inject_Z z / (100 # 1)) = z.
Proof.
  unfold half_up_cents.
  assert (Habs : (Qabs (inject_Z z / (100 # 1)) * (100 # 1) + (1 # 2) ==
                  inject_Z (Z.abs z) + (1 # 2))%Q).
  { unfold Qdiv. rewrite Qabs_Qmult.
    change (Qabs (inject_Z z)) with (inject_Z (Z.abs z)).
    change (Qabs (/ (100 # 1))) with (1 # 100)%Q. field. }
  rewrite (Qfloor_comp _ _ Habs), Qfloor_half.
  unfold Qdiv, Qinv, Qmult, inject_Z. cbn [Qnum]. rewrite Z.mul_1_r.
  destruct (Z.lt_trichotomy z 0) as [Hz|[Hz|Hz]].
  - rewrite Z.sgn_neg by lia. lia.
  - subst z. reflexivity.
  - rewrite Z.sgn_pos by lia. lia.
Qed.

Lemma value_amount (d : Decimal) :
  is_amount d = true -> (value d == inject_Z (cents d) / (100 # 1))%Q.
Proof.
  destruct d as [s c e| |]; try discriminate. cbn [is_amount].
  intros H. apply andb_prop in H as [_ He]. apply Z.eqb_eq in He. subst e.
  reflexivity.
Qed.

Lemma half_up_cents_times (d : Decimal) (q : Z) :
  is_amount d = true ->
  half_up_cents (value d * inject_Z q) = cents d * q.
Proof.
  intros H. rewrite <- (half_up_cents_exact (cents d * q)).
  apply half_up_cents_comp. rewrite (value_amount d H), inject_Z_mult. field.
Qed.

Lemma half_up_cents_diff_times (d1 d2 : Decimal) (q : Z) :
  is_amount d1 = true -> is_amount d2 = true ->
  half_up_cents ((value d1 - value d2) * inject_Z q) = (cents d1 - cents d2) * q.
Proof.
  intros H1 H2. rewrite <- (half_up_cents_exact ((cents d1 - cents d2) * q)).
  apply half_up_cents_comp.
  rewrite (value_amount d1 H1), (value_amount d2 H2).
  rewrite inject_Z_mult. unfold Z.sub. rewrite inject_Z_plus, inject_Z_opp. field.
Qed.

(** ** C5 and C6: line totals *)

(** C5, as stated, fails: two units at 99999999999999999999999999.99 need
    29 significant digits, and the computation raises instead of returning
    the pair. *)
Lemma add_item_beyond_precision :
  is_amount (Fin false 9999999999999999999999999999 (-2)) = true /\
  is_amount (Fin false 0 (-2)) = true /\
  0 < 2 /\
  add_item 2 (Fin false 9999999999999999999999999999 (-2)) (Fin false 0 (-2)) =
    Raised InvalidOperation.
Proof. repeat split. Qed.

(** C5, amended.  For every unit price P and unit cost U that are exact
    2-decimal amounts and every positive integer quantity Q such that
    P*Q, P-U and (P-U)*Q have at most 28 significant digits (the precision
    of the decimal context), [add_item] returns the pair (P*Q, (P-U)*Q),
    each an amount with exactly two fractional digits equal to the exact
    product rounded half-up to cents; the exact products are used, so
    nothing is rounded at an intermediate step. *)
Theorem add_item_line_totals (qty : Z) (unit_price unit_cost : Decimal)
  (HP : is_amount unit_price = true) (HU : is_amount unit_cost = true)
  (Hqty : 0 < qty)
  (Htotal : Z.abs (cents unit_price * qty) < 10 ^ prec)
  (Hdiff : Z.abs (cents unit_price - cents unit_cost) < 10 ^ prec)
  (Hprofit : Z.abs ((cents unit_price - cents unit_cost) * qty) < 10 ^ prec) :
  exists line_total line_profit,
    add_item qty unit_price unit_cost = Returned (line_total, line_profit) /\
    is_amount line_total = true /\ is_amount line_profit = true /\
    cents line_total = half_up_cents (value unit_price * inject_Z qty) /\
    cents line_profit =
      half_up_cents ((value unit_price - value unit_cost) * inject_Z qty).
Proof.
  destruct (add_item_exact qty unit_price unit_cost HP HU Htotal Hdiff Hprofit)
    as (lt & lp & Hrun & Hlt & Hlp & Hct & Hcp).
  exists lt, lp. rewrite half_up_cents_times, half_up_cents_diff_times by assumption.
  repeat split; assumption.
Qed.

Lemma add_item_line_totals_witness :
  exists line_total line_profit,
    add_item 3 (Fin false 1250 (-2)) (Fin false 800 (-2)) =
      Returned (line_total, line_profit) /\
    is_amount line_total = true /\ is_amount line_profit = true /\
    cents line_total =
      half_up_cents (value (Fin false 1250 (-2)) * inject_Z 3) /\
    cents line_profit =
      half_up_cents ((value (Fin false 1250 (-2)) - value (Fin false 800 (-2)))
                     * inject_Z 3).
Proof.
  apply (add_item_line_totals 3 (Fin false 1250 (-2)) (Fin false 800 (-2)));
    reflexivity.
Defined.

(** C6, as stated, fails: a quantity of zero or below is not refused.
    Zero units give totals of zero and -3 units give the negated totals. *)
Lemma add_item_nonpositive_quantity_not_refused :
  add_item 0 (Fin false 1250 (-2)) (Fin false 800 (-2)) =
    Returned (Fin false 0 (-2), Fin false 0 (-2)) /\
  add_item (-3) (Fin false 1250 (-2)) (Fin false 800 (-2)) =
    Returned (Fin true 3750 (-2), Fin true 1350 (-2)).
Proof. split; reflexivity. Qed.

(** C6, amended.  For every quantity Q <= 0 and every unit price and unit
    cost that are 2-decimal amounts (with products within the 28 digits of
    the context), [add_item] does not fail: it returns the pair
    (P*Q, (P-U)*Q) by the same formula as for a positive quantity. *)
Theorem add_item_nonpositive_quantity (qty : Z) (unit_price unit_cost : Decimal)
  (HP : is_amount unit_price = true) (HU : is_amount unit_cost = true)
  (Hqty : qty <= 0)
  (Htotal : Z.abs (cents unit_price * qty) < 10 ^ prec)
  (Hdiff : Z.abs (cents unit_price - cents unit_cost) < 10 ^ prec)
  (Hprofit : Z.abs ((cents unit_price - cents unit_cost) * qty) < 10 ^ prec) :
  exists line_total line_profit,
    add_item qty unit_price unit_cost = Returned (line_total, line_profit) /\
    is_amount line_total = true /\ is_amount line_profit = true /\
    cents line_total = cents unit_price * qty /\
    cents line_profit = (cents unit_price - cents unit_cost) * qty.
Proof. now apply add_item_exact. Qed.

Lemma add_item_nonpositive_quantity_witness :
  exists line_total line_profit,
    add_item (-3) (Fin false 1250 (-2)) (Fin false 800 (-2)) =
      Returned (line_total, line_profit) /\
    is_amount line_total = true /\ is_amount line_profit = true /\
    cents line_total = cents (Fin false 1250 (-2)) * -3 /\
    cents line_profit =
      (cents (Fin false 1250 (-2)) - cents (Fin false 800 (-2))) * -3.
Proof.
  apply (add_item_nonpositive_quantity (-3) (Fin false 1250 (-2)) (Fin false 800 (-2)));
    first [reflexivity | discriminate].
Defined.

(** ** Rendering of amounts *)

Lemma to_digits_range (b : Z) (Hb : 0 < b) :
  forall (fuel : nat) (n : Z) (acc : list Z),
    Forall (fun d => 0 <= d < b) acc ->
    Forall (fun d => 0 <= d < b) (to_digits fuel b n acc).
Proof.
  induction fuel as [|f IH]; intros n acc Hacc; [exact Hacc|].
  cbn [to_digits].
  assert (Forall (fun d => 0 <= d < b) (n mod b :: acc))
    by (constructor; [apply Z.mod_pos_bound; lia|exact Hacc]).
  destruct (n <? b); [assumption|now apply IH].
Qed.

Lemma all_digits_str (n : Z) : all_digits (str_nonneg n) = true.
Proof.
  unfold all_digits, str_nonneg, int_digits. apply forallb_forall. intros c Hc.
  apply in_map_iff in Hc as (d & <- & Hd).
  pose proof (to_digits_range 10 ltac:(lia) (S (Z.to_nat (Z.log2 n))) n []
                (Forall_nil _)) as H.
  rewrite Forall_forall in H. specialize (H d Hd).
  unfold is_digit, digit_char. destruct (Z.ltb_spec d 10); [|lia].
  apply andb_true_intro; split; apply Z.leb_le; lia.
Qed.

Lemma to_digits_acc_length (b : Z) :
  forall (fuel : nat) (n : Z) (acc : list Z),
    (length acc <= length (to_digits fuel b n acc))%nat.
Proof.
  induction fuel as [|f IH]; intros n acc; [cbn; lia|].
  cbn [to_digits]. destruct (n <? b); [cbn; lia|].
  specialize (IH (n / b) (n mod b :: acc)). cbn [length] in IH. lia.
Qed.

Lemma str_nonneg_nonempty (n : Z) : (1 <= length (str_nonneg n))%nat.
Proof.
  unfold str_nonneg, int_digits. rewrite length_map. cbn [to_digits].
  destruct (n <? 10); [cbn; lia|].
  pose proof (to_digits_acc_length 10 (Z.to_nat (Z.log2 n)) (n / 10) [n mod 10]) as H.
  cbn [length] in H. exact H.
Qed.

(** [str] of a non-negative value with two fractional digits. *)
Lemma to_str_amount (c : Z) :
  to_str (Fin false c (-2)) =
  let ds := str_nonneg c in
  if (length ds <=? 2)%nat
  then lit "0." ++ repeat 48 (2 - length ds) ++ ds
  else firstn (length ds - 2) ds ++ lit "." ++ skipn (length ds - 2) ds.
Proof.
  cbv zeta. unfold to_str. rewrite <- str_nonneg_length.
  pose proof (str_nonneg_nonempty c) as Hne.
  set (ds := str_nonneg c) in *. set (n := length ds) in *.
  replace ((-2 <=? 0) && (-6 <? -2 + Z.of_nat n)) with true
    by (symmetry; apply andb_true_intro; split; [reflexivity|apply Z.ltb_lt; lia]).
  replace (-2 + Z.of_nat n =? -2 + Z.of_nat n) with true
    by (symmetry; apply Z.eqb_refl).
  cbn [app]. rewrite app_nil_r.
  destruct (Nat.leb_spec n 2) as [Hle|Hgt].
  - replace (-2 + Z.of_nat n <=? 0) with true by (symmetry; apply Z.leb_le; lia).
    replace (Z.to_nat (- (-2 + Z.of_nat n))) with (2 - n)%nat by lia.
    reflexivity.
  - replace (-2 + Z.of_nat n <=? 0) with false by (symmetry; apply Z.leb_gt; lia).
    replace (Z.of_nat n <=? -2 + Z.of_nat n) with false
      by (symmetry; apply Z.leb_gt; lia).
    replace (Z.to_nat (-2 + Z.of_nat n)) with (n - 2)%nat by lia.
    reflexivity.
Qed.

Lemma all_digits_app (a b : list Z) :
  all_digits (a ++ b) = all_digits a && all_digits b.
Proof. apply forallb_app. Qed.

Lemma all_digits_rev (a : list Z) : all_digits (rev a) = all_digits a.
Proof.
  induction a as [|c a IH]; [reflexivity|].
  cbn [rev]. rewrite all_digits_app, IH. cbn. rewrite andb_true_r. apply andb_comm.
Qed.

Lemma to_str_amount_plain (c : Z) : is_plain_2dp (to_str (Fin false c (-2))) = true.
Proof.
  rewrite to_str_amount. cbv zeta.
  pose proof (str_nonneg_nonempty c) as Hne.
  pose proof (all_digits_str c) as Hall.
  set (ds := str_nonneg c) in *.
  destruct (Nat.leb_spec (length ds) 2) as [Hle|Hgt].
  - destruct ds as [|d1 [|d2 [|? ?]]]; cbn [length] in *; try lia.
    + cbn in Hall |- *. rewrite andb_true_r in Hall. now rewrite Hall.
    + cbn in Hall |- *. rewrite andb_true_r in Hall.
      apply andb_prop in Hall as [H1 H2]. now rewrite H1, H2.
  - unfold is_plain_2dp.
    rewrite <- (firstn_skipn (length ds - 2) ds) in Hall.
    rewrite all_digits_app in Hall. apply andb_prop in Hall as [Hint Hfrac].
    assert (Hlf : length (skipn (length ds - 2) ds) = 2%nat)
      by (rewrite length_skipn; lia).
    assert (Hli : length (firstn (length ds - 2) ds) = (length ds - 2)%nat)
      by (rewrite length_firstn; lia).
    destruct (skipn (length ds - 2) ds) as [|f1 [|f2 [|? ?]]]; try discriminate.
    rewrite !rev_app_distr. cbn [rev app lit map list_ascii_of_string].
    cbn in Hfrac. rewrite andb_true_r in Hfrac. apply andb_prop in Hfrac as [H1 H2].
    rewrite H1, H2. cbn [andb].
    change (Z.of_N (N_of_ascii "."%char) =? 46) with true. cbn [andb].
    rewrite all_digits_rev, Hint. cbn [andb].
    rewrite length_rev, Hli. destruct (length ds - 2)%nat eqn:E; [lia|reflexivity].
Qed.

(** ** The payload builder *)

Lemma fmt_04X_length (n : Z) : 0 <= n < 2 ^ 16 -> length (fmt_04X n) = 4%nat.
Proof.
  intros Hn. unfold fmt_04X. rewrite zfill_length, length_map.
  destruct (int_digits_spec 16 n ltac:(lia) ltac:(lia)) as (_ & _ & Hlen & Hlo & _).
  destruct (Z.eq_dec n 0) as [->|Hnz]; [reflexivity|].
  specialize (Hlo ltac:(lia)).
  destruct (Nat.le_gt_cases (length (int_digits 16 n)) 4) as [|Hgt]; [lia|exfalso].
  assert (16 ^ 4 <= 16 ^ (Z.of_nat (length (int_digits 16 n)) - 1))
    by (apply Z.pow_le_mono_r; lia).
  change (16 ^ 4) with (2 ^ 16) in *. lia.
Qed.


Lemma fix_by_digits (s : bool) (c e : Z) :
  ndigits c <= prec -> Etiny <= e <= Etop ->
  _fix s c e = Returned (Fin s c e).
Proof.
  intros Hnd He. unfold _fix.
  unfold Etiny, Etop, Emin, Emax, prec in *.
  destruct (Z.eqb_spec c 0) as [->|Hnz].
  - do 2 f_equal. lia.
  - destruct (Z.ltb_spec (999999 - 28 + 1) (ndigits c + e - 28)); [lia|].
    destruct (Z.ltb_spec e (Z.max (ndigits c + e - 28) (-999999 - 28 + 1))); [lia|].
    reflexivity.
Qed.

(** Whatever [quantize] returns for a finite value at [MONEY_Q] has two
    fractional digits, the sign of its argument and at most 28 digits. *)
Lemma quantize_shape (r : rounding) (s : bool) (c e : Z) (q : Decimal) :
  quantize (Fin s c e) MONEY_Q r = Returned q ->
  exists c', q = Fin s c' (-2) /\ ndigits c' <= prec.
Proof.
  unfold quantize, MONEY_Q. cbn [_check_nans].
  replace (negb ((Etiny <=? -2) && (-2 <=? Emax))) with false by reflexivity.
  destruct (c =? 0).
  - intros [= <-]. exists 0. split; [reflexivity|unfold prec; cbn; lia].
  - destruct (Emax <? ndigits c - 1 + e); [discriminate|].
    destruct (prec <? ndigits c - 1 + e - -2 + 1); [discriminate|].
    destruct (Emax <? ndigits (_rescale r c e (-2)) - 1 + -2); [discriminate|].
    destruct (Z.ltb_spec prec (ndigits (_rescale r c e (-2)))); [discriminate|].
    rewrite fix_by_digits
      by (try assumption; unfold Etiny, Etop, Emin, Emax, prec; lia).
    intros [= <-]. eexists. split; [reflexivity|assumption].
Qed.

Lemma amount_field_returned (amount : option Decimal) (amt : pystr) :
  amount_field amount = Returned amt ->
  (is_positive amount = false /\ amt = []) \/
  (exists a q c,
      amount = Some a /\ is_positive amount = true /\
      quantize a MONEY_Q ROUND_HALF_EVEN = Returned q /\
      q = Fin false c (-2) /\ ndigits c <= prec /\
      amt = _emv_kv (lit "54") (to_str q)).
Proof.
  destruct amount as [[s c e|s|s g pl]|]; cbn [amount_field to_bool gt_zero bind is_positive].
  - destruct (Z.eqb_spec c 0) as [->|Hnz]; cbn [negb].
    + intros [= <-]. left. split; [now rewrite andb_false_r|reflexivity].
    + destruct (negb s && (0 <? c)) eqn:Hpos.
      * destruct (quantize (Fin s c e) MONEY_Q ROUND_HALF_EVEN) as [q|] eqn:Hq;
          cbn [bind]; [|discriminate].
        intros [= <-]. right.
        destruct (quantize_shape _ _ _ _ _ Hq) as (c' & -> & Hnd).
        apply andb_prop in Hpos as [Hs _]. destruct s; [discriminate|].
        exists (Fin false c e), (Fin false c' (-2)), c'. repeat split; assumption.
      * intros [= <-]. left. split; reflexivity.
  - destruct s; cbn [negb].
    + intros [= <-]. left. split; reflexivity.
    + cbn. discriminate.
  - discriminate.
  - intros [= <-]. left. split; reflexivity.
Qed.

Lemma to_str_amount_length (c : Z) :
  ndigits c <= prec -> (length (to_str (Fin false c (-2))) <= 99)%nat.
Proof.
  intros Hnd. rewrite to_str_amount. cbv zeta.
  pose proof (str_nonneg_length c) as Hl. unfold prec in Hnd.
  destruct (Nat.leb_spec (length (str_nonneg c)) 2).
  - rewrite !length_app, repeat_length. cbn [length lit map list_ascii_of_string]. lia.
  - rewrite !length_app, length_firstn, length_skipn.
    cbn [length lit map list_ascii_of_string]. lia.
Qed.

Lemma emv_kv_checksum (crc_text : pystr) :
  length crc_text = 4%nat -> _emv_kv (lit "63") crc_text = lit "6304" ++ crc_text.
Proof. intros H. unfold _emv_kv. rewrite H. reflexivity. Qed.

Lemma py_or_nonempty (s fallback : pystr) (n : nat) :
  s <> [] -> py_or (slice_to (S n) s) fallback = firstn (S n) s.
Proof. destruct s; [congruence|reflexivity]. Qed.

Lemma app10 {A : Type} (a b c d e f g h i t : list A) :
  a ++ b ++ c ++ d ++ e ++ f ++ g ++ h ++ i ++ t =
  (a ++ b ++ c ++ d ++ e ++ f ++ g ++ h ++ i) ++ t.
Proof. now rewrite <- !app_assoc. Qed.

Lemma build_pix_payload_guard (key merchant_name merchant_city : pystr)
    (amount : option Decimal) (txid p : pystr) :
  build_pix_payload key merchant_name merchant_city amount txid = Returned p ->
  p <> [] -> key <> [] /\ merchant_name <> [] /\ merchant_city <> [].
Proof.
  unfold build_pix_payload. intros H Hp.
  destruct key, merchant_name, merchant_city; cbn in H;
    try (injection H as <-; congruence); repeat split; discriminate.
Qed.

Lemma payload_fields_well_formed (key merchant_name merchant_city : pystr)
    (amount_text : option pystr) (txid crc_text : pystr) :
  (length key <= 77)%nat ->
  match amount_text with
  | Some text => (length text <= 99)%nat
  | None => True
  end ->
  length crc_text = 4%nat ->
  Forall well_formed_field
    (payload_fields key merchant_name merchant_city amount_text txid crc_text).
Proof.
  intros Hkey Hamt Hcrc. unfold payload_fields, tlv_encode.
  cbn [flat_map fst snd]. rewrite !app_nil_r.
  assert (Hn := firstn_le_length 25 merchant_name).
  assert (Hc := firstn_le_length 15 merchant_city).
  assert (Ht := firstn_le_length 25 txid).
  repeat first [apply Forall_app; split | apply Forall_cons | apply Forall_nil];
    try (split; cbn [fst snd]); try reflexivity; try lia; try (cbn; lia).
  - assert (Hgui : length (lit "BR.GOV.BCB.PIX") = 14%nat) by reflexivity.
    assert (H00 : length (lit "00") = 2%nat) by reflexivity.
    assert (H01 : length (lit "01") = 2%nat) by reflexivity.
    rewrite length_app, !emv_kv_length by lia. lia.
  - destruct amount_text; [|constructor].
    constructor; [split; cbn [fst snd]; [reflexivity|lia]|constructor].
  - assert (H05 : length (lit "05") = 2%nat) by reflexivity.
    rewrite emv_kv_length by lia. lia.
Qed.

(** The shape of every payload built for a payee: the composed fields in
    the program's order, closed by the checksum of everything before it. *)
Lemma build_pix_payload_structure (key merchant_name merchant_city : pystr)
    (amount : option Decimal) (txid p : pystr) :
  key <> [] -> merchant_name <> [] -> merchant_city <> [] ->
  build_pix_payload key merchant_name merchant_city amount txid = Returned p ->
  exists amount_text body data,
    p = tlv_encode (payload_fields key merchant_name merchant_city amount_text txid
                      (fmt_04X (_crc16_ccitt data))) /\
    p = body ++ lit "6304" ++ fmt_04X (_crc16_ccitt data) /\
    encode_utf8 (body ++ lit "6304") = Returned data /\
    ((length key <= 77)%nat ->
     tlv_parse p =
     Some (payload_fields key merchant_name merchant_city amount_text txid
             (fmt_04X (_crc16_ccitt data)))) /\
    match amount_text with
    | None => is_positive amount = false
    | Some text =>
        is_positive amount = true /\
        exists a c,
          amount = Some a /\
          quantize a MONEY_Q ROUND_HALF_EVEN = Returned (Fin false c (-2)) /\
          ndigits c <= prec /\
          text = to_str (Fin false c (-2))
    end.
Proof.
  intros Hk Hn Hc. unfold build_pix_payload.
  replace (negb (truthy key) || negb (truthy merchant_name)
           || negb (truthy merchant_city)) with false
    by (destruct key, merchant_name, merchant_city; congruence || reflexivity).
  destruct (amount_field amount) as [amt|] eqn:Hamt; cbn [bind]; [|discriminate].
  rewrite !py_or_nonempty by assumption. rewrite app10.
  match goal with
  | |- context [encode_utf8 ?partial] =>
      destruct (encode_utf8 partial) as [data|] eqn:Henc; cbn [bind]; [|discriminate]
  end.
  intros Hp. apply Returned_inj in Hp. subst p.
  pose proof (fmt_04X_length _ (crc16_ccitt_range data)) as Hlen.
  assert (Hfields : forall amount_text,
    amt = match amount_text with
          | Some text => _emv_kv (lit "54") text
          | None => []
          end ->
    (_emv_kv (lit "00") (lit "01") ++
     _emv_kv (lit "26") (_emv_kv (lit "00") (lit "BR.GOV.BCB.PIX") ++ _emv_kv (lit "01") key) ++
     _emv_kv (lit "52") (lit "0000") ++ _emv_kv (lit "53") (lit "986") ++ amt ++
     _emv_kv (lit "58") (lit "BR") ++ _emv_kv (lit "59") (firstn 25 merchant_name) ++
     _emv_kv (lit "60") (firstn 15 merchant_city) ++
     _emv_kv (lit "62") (_emv_kv (lit "05") (slice_to 25 txid)) ++ lit "6304") ++
    fmt_04X (_crc16_ccitt data) =
    tlv_encode (payload_fields key merchant_name merchant_city amount_text txid
                  (fmt_04X (_crc16_ccitt data)))).
  { intros amount_text ->. unfold payload_fields, tlv_encode, slice_to.
    rewrite !flat_map_app. cbn [flat_map fst snd].
    rewrite (emv_kv_checksum _ Hlen). rewrite !app_nil_r, <- !app_assoc.
    destruct amount_text; cbn [flat_map fst snd app]; rewrite ?app_nil_r; reflexivity. }
  destruct (amount_field_returned _ _ Hamt)
    as [[Hpos ->] | (a & q & c & Ha & Hpos & Hq & -> & Hnd & ->)].
  - exists None. eexists. exists data.
    split; [rewrite <- app10; apply (Hfields None); reflexivity|].
    split; [rewrite <- app_assoc; reflexivity|].
    split; [exact Henc|]. split; [|exact Hpos].
    intros Hkey. rewrite <- app10, (Hfields None eq_refl).
    apply tlv_parse_encode, payload_fields_well_formed; [exact Hkey|exact I|exact Hlen].
  - exists (Some (to_str (Fin false c (-2)))). eexists. exists data.
    split; [rewrite <- app10; apply (Hfields (Some _)); reflexivity|].
    split; [rewrite <- app_assoc; reflexivity|].
    split; [exact Henc|]. split.
    + intros Hkey. rewrite <- app10, (Hfields (Some _) eq_refl).
      apply tlv_parse_encode, payload_fields_well_formed;
        [exact Hkey|now apply to_str_amount_length|exact Hlen].
    + split; [exact Hpos|]. exists a, c. repeat split; assumption.
Qed.

Lemma encodable_app (a b : pystr) : encodable (a ++ b) = encodable a && encodable b.
Proof. apply forallb_app. Qed.

Lemma encodable_firstn (n : nat) (s : pystr) :
  encodable s = true -> encodable (firstn n s) = true.
Proof.
  intros H. rewrite <- (firstn_skipn n s), encodable_app in H.
  now apply andb_prop in H.
Qed.

Lemma encodable_skipn (n : nat) (s : pystr) :
  encodable s = true -> encodable (skipn n s) = true.
Proof.
  intros H. rewrite <- (firstn_skipn n s), encodable_app in H.
  now apply andb_prop in H.
Qed.

Lemma encodable_digits (s : pystr) : all_digits s = true -> encodable s = true.
Proof.
  unfold all_digits, encodable. intros H. apply forallb_forall. intros c Hc.
  rewrite forallb_forall in H. specialize (H c Hc). unfold is_digit in H.
  apply andb_prop in H as [H1 H2]. apply Z.leb_le in H1, H2.
  unfold is_surrogate. destruct (Z.leb_spec 0xD800 c); [lia|reflexivity].
Qed.

Lemma encodable_zeros (n : nat) : encodable (repeat 48 n) = true.
Proof. induction n; [reflexivity|cbn; assumption]. Qed.

Lemma encodable_emv_kv (_id value : pystr) :
  encodable _id = true -> encodable value = true ->
  encodable (_emv_kv _id value) = true.
Proof.
  intros Hi Hv. unfold _emv_kv. rewrite !encodable_app, Hi, Hv.
  rewrite encodable_digits by (apply fmt_02d_all_digits; lia). reflexivity.
Qed.

Lemma encodable_to_str_amount (c : Z) : encodable (to_str (Fin false c (-2))) = true.
Proof.
  rewrite to_str_amount. cbv zeta.
  pose proof (encodable_digits _ (all_digits_str c)) as Hds.
  destruct (_ <=? _)%nat; rewrite !encodable_app.
  - now rewrite encodable_zeros, Hds.
  - now rewrite encodable_firstn, encodable_skipn.
Qed.

Lemma encode_utf8_encodable (s : pystr) :
  encodable s = true -> encode_utf8 s = Returned (flat_map utf8_char s).
Proof.
  induction s as [|c s IH]; [reflexivity|].
  cbn [encodable forallb encode_utf8 flat_map]. intros H.
  apply andb_prop in H as [Hc Hs]. apply negb_true_iff in Hc.
  rewrite Hc. fold (encodable s) in Hs. now rewrite (IH Hs).
Qed.

Lemma amount_field_representable (amount : option Decimal) :
  representable amount = true ->
  exists amt, amount_field amount = Returned amt /\ encodable amt = true.
Proof.
  destruct amount as [[s c e|s|s g pl]|]; cbn [representable is_amount];
    try discriminate; [|intros _; exists []; split; reflexivity].
  intros H. apply andb_prop in H as [H Hlt]. apply andb_prop in H as [Hc He].
  apply Z.leb_le in Hc. apply Z.eqb_eq in He. apply Z.ltb_lt in Hlt. subst e.
  assert (Hc' : 0 <= c < 10 ^ prec).
  { cbn [cents] in Hlt. destruct s; rewrite ?Z.abs_opp, Z.abs_eq in Hlt; lia. }
  cbn [amount_field to_bool gt_zero bind].
  destruct (c =? 0); cbn [negb]; [exists []; split; reflexivity|].
  destruct (negb s && (0 <? c)) eqn:Hpos; [|exists []; split; reflexivity].
  rewrite quantize_amount by assumption. cbn [bind].
  apply andb_prop in Hpos as [Hs _]. destruct s; [discriminate|].
  eexists. split; [reflexivity|].
  apply encodable_emv_kv; [reflexivity|apply encodable_to_str_amount].
Qed.

(** A payload is produced for every payee whose texts can be encoded and
    whose amount the context can quantize. *)
Lemma build_pix_payload_returns (key merchant_name merchant_city : pystr)
    (amount : option Decimal) (txid : pystr) :
  encodable key = true -> encodable merchant_name = true ->
  encodable merchant_city = true -> encodable txid = true ->
  representable amount = true ->
  exists p, build_pix_payload key merchant_name merchant_city amount txid = Returned p.
Proof.
  intros Hk Hn Hc Ht Ha. unfold build_pix_payload.
  destruct (negb (truthy key) || negb (truthy merchant_name)
            || negb (truthy merchant_city)); [eexists; reflexivity|].
  destruct (amount_field_representable amount Ha) as (amt & -> & Hamt).
  cbn [bind].
  rewrite encode_utf8_encodable; [cbn [bind]; eexists; reflexivity|].
  assert (Hor : forall s fb n, encodable s = true -> encodable fb = true ->
                               encodable (py_or (slice_to n s) fb) = true).
  { intros s fb n Hs Hfb. unfold py_or, slice_to.
    destruct (truthy (firstn n s)); [now apply encodable_firstn|exact Hfb]. }
  rewrite !encodable_app.
  rewrite !encodable_emv_kv;
    try reflexivity; try assumption;
    try (apply Hor; [assumption|reflexivity]).
  - now rewrite Hamt.
  - apply encodable_emv_kv; [reflexivity|]. now apply encodable_firstn.
  - rewrite encodable_app. rewrite !encodable_emv_kv; try reflexivity; assumption.
Qed.


Lemma pystr_eqb_refl (s : pystr) : pystr_eqb s s = true.
Proof. unfold pystr_eqb. destruct (list_eq_dec Z.eq_dec s s); congruence. Qed.

Lemma firstn_min_length {A : Type} (n : nat) (s : list A) :
  firstn (Nat.min n (length s)) s = firstn n s.
Proof.
  destruct (Nat.le_gt_cases n (length s)) as [H|H].
  - now rewrite Nat.min_l.
  - rewrite Nat.min_r, firstn_all, firstn_all2 by lia. reflexivity.
Qed.

(** ** C1: the order of the fields *)

(** C1, as stated, fails: the payload of a sale of 37.50 reads, field by
    field, 00 26 52 53 54 58 59 60 62 63; the point-of-initiation field 00
    comes first and the merchant-account field 26 second, not the other
    way round. *)
Lemma build_pix_payload_order_differs :
  let p := lit "00020126350014BR.GOV.BCB.PIX0113adega@pix.com520400005303986540537.505802BR5917ADEGA QUEBRA TUDO6008SAOPAULO62100506VENDA16304D385" in
  build_pix_payload (lit "adega@pix.com") (lit "ADEGA QUEBRA TUDO") (lit "SAOPAULO")
    (Some (Fin false 3750 (-2))) (lit "VENDA1") = Returned p /\
  p <> [] /\
  tlv_tags p = Some (payload_tags true) /\
  tlv_tags p <> Some (spec_tags true) /\
  tlv_tags p <> Some (spec_tags false).
Proof.
  cbv zeta. split; [vm_compute; reflexivity|].
  split; [discriminate|].
  assert (H : tlv_tags (lit "00020126350014BR.GOV.BCB.PIX0113adega@pix.com520400005303986540537.505802BR5917ADEGA QUEBRA TUDO6008SAOPAULO62100506VENDA16304D385")
              = Some (payload_tags true)) by (vm_compute; reflexivity).
  rewrite H. split; [reflexivity|]. split; vm_compute; discriminate.
Qed.

(** C1, amended.  Every call that produces a non-empty payload composes
    its fields in one fixed order: the point-of-initiation field ("00")
    first, then the merchant-account field ("26"), then "52", "53", the
    amount "54" when the amount is positive, "58", "59", "60", "62", and
    the checksum field "63" last.  A consumer reading the payload field by
    field finds exactly these tags whenever the key has at most 77
    characters (so that the merchant-account field fits its two-digit
    length). *)
Theorem build_pix_payload_field_order
    (key merchant_name merchant_city : pystr) (amount : option Decimal)
    (txid p : pystr)
    (Hret : build_pix_payload key merchant_name merchant_city amount txid = Returned p)
    (Hp : p <> []) :
  exists amount_text crc_text,
    let fields :=
      payload_fields key merchant_name merchant_city amount_text txid crc_text in
    p = tlv_encode fields /\
    map fst fields = payload_tags (is_positive amount) /\
    ((length key <= 77)%nat -> tlv_tags p = Some (payload_tags (is_positive amount))).
Proof.
  destruct (build_pix_payload_guard _ _ _ _ _ _ Hret Hp) as (Hk & Hn & Hc).
  destruct (build_pix_payload_structure _ _ _ _ _ _ Hk Hn Hc Hret)
    as (amount_text & body & data & Hfields & _ & _ & Hread & Hamt).
  exists amount_text, (fmt_04X (_crc16_ccitt data)). cbv zeta.
  assert (Htags : map fst (payload_fields key merchant_name merchant_city amount_text
                             txid (fmt_04X (_crc16_ccitt data)))
                  = payload_tags (is_positive amount)).
  { destruct amount_text as [text|].
    - destruct Hamt as [-> _]. reflexivity.
    - rewrite Hamt. reflexivity. }
  split; [exact Hfields|]. split; [exact Htags|].
  intros Hkey. unfold tlv_tags. rewrite (Hread Hkey). cbn [option_map].
  now rewrite Htags.
Qed.

Lemma build_pix_payload_field_order_witness :
  let key := lit "adega@pix.com" in
  let p := lit "00020126350014BR.GOV.BCB.PIX0113adega@pix.com5204000053039865802BR5917ADEGA QUEBRA TUDO6008SAOPAULO62100506VENDA16304F930" in
  build_pix_payload key (lit "ADEGA QUEBRA TUDO") (lit "SAOPAULO") None (lit "VENDA1")
    = Returned p /\
  p <> [] /\
  (length key <= 77)%nat /\
  exists amount_text crc_text,
    let fields :=
      payload_fields key (lit "ADEGA QUEBRA TUDO") (lit "SAOPAULO") amount_text
        (lit "VENDA1") crc_text in
    p = tlv_encode fields /\
    map fst fields = payload_tags false /\
    tlv_tags p = Some (payload_tags false).
Proof.
  cbv zeta.
  assert (Hret : build_pix_payload (lit "adega@pix.com") (lit "ADEGA QUEBRA TUDO")
                   (lit "SAOPAULO") None (lit "VENDA1")
                 = Returned (lit "00020126350014BR.GOV.BCB.PIX0113adega@pix.com5204000053039865802BR5917ADEGA QUEBRA TUDO6008SAOPAULO62100506VENDA16304F930"))
    by (vm_compute; reflexivity).
  assert (Hp : lit "00020126350014BR.GOV.BCB.PIX0113adega@pix.com5204000053039865802BR5917ADEGA QUEBRA TUDO6008SAOPAULO62100506VENDA16304F930" <> [])
    by discriminate.
  assert (Hlen : (length (lit "adega@pix.com") <= 77)%nat)
    by (apply Nat.leb_le; reflexivity).
  destruct (build_pix_payload_field_order _ _ _ _ _ _ Hret Hp)
    as (amount_text & crc_text & Hfields & Htags & Hread).
  split; [exact Hret|]. split; [exact Hp|]. split; [exact Hlen|].
  exists amount_text, crc_text.
  split; [exact Hfields|]. split; [exact Htags|exact (Hread Hlen)].
Defined.

(** ** C2: the checksum closes the payload *)



(** ** The amount field *)

(** X19.  For every call with non-empty key, merchant name and merchant
    city that returns a payload: if an amount is supplied and is strictly
    greater than zero, the payload has a field "54" whose value is the
    text of [amount.quantize(MONEY_Q)], where [quantize] rounds half to
    even as the context does, rendered as digits, a point and two digits
    (no thousands separator, no currency prefix); if the amount is absent,
    zero or negative, the payload has no field "54" at all.  The fields
    are those a consumer reads whenever the key has at most 77 characters.
    A payload is returned whenever the texts can be encoded in UTF-8 and
    the amount is absent or a 2-decimal amount of at most 28 digits, which
    is then rendered unchanged. *)
Theorem build_pix_payload_amount_field
    (key merchant_name merchant_city : pystr) (amount : option Decimal)
    (txid : pystr)
    (Hkey : key <> []) (Hname : merchant_name <> []) (Hcity : merchant_city <> []) :
  (encodable key = true -> encodable merchant_name = true ->
   encodable merchant_city = true -> encodable txid = true ->
   representable amount = true ->
   exists p,
     build_pix_payload key merchant_name merchant_city amount txid = Returned p) /\
  (forall p,
     build_pix_payload key merchant_name merchant_city amount txid = Returned p ->
     exists amount_text crc_text,
       let fields :=
         payload_fields key merchant_name merchant_city amount_text txid crc_text in
       p = tlv_encode fields /\
       ((length key <= 77)%nat -> tlv_parse p = Some fields) /\
       if is_positive amount then
         exists a q,
           amount = Some a /\
           quantize a MONEY_Q ROUND_HALF_EVEN = Returned q /\
           (representable amount = true -> q = a) /\
           is_plain_2dp (to_str q) = true /\
           amount_text = Some (to_str q) /\
           tlv_lookup (lit "54") fields = Some (to_str q)
       else
         amount_text = None /\
         tlv_lookup (lit "54") fields = None /\
         ~ In (lit "54") (map fst fields)).
Proof.
  split; [apply build_pix_payload_returns|].
  intros p Hret.
  destruct (build_pix_payload_structure _ _ _ _ _ _ Hkey Hname Hcity Hret)
    as (amount_text & body & data & Hfields & _ & _ & Hread & Hamt).
  exists amount_text, (fmt_04X (_crc16_ccitt data)). cbv zeta.
  split; [exact Hfields|]. split; [exact Hread|].
  { destruct amount_text as [text|].
    + destruct Hamt as (-> & a & c & -> & Hq & Hnd & ->).
      exists a, (Fin false c (-2)).
      split; [reflexivity|]. split; [exact Hq|]. split.
      * cbn [representable]. intros Hrep.
        apply andb_prop in Hrep as [Ha Hlt]. apply Z.ltb_lt in Hlt.
        destruct a as [s ca e| |]; try discriminate.
        cbn [is_amount] in Ha. apply andb_prop in Ha as [Hca He].
        apply Z.leb_le in Hca. apply Z.eqb_eq in He. subst e.
        rewrite quantize_amount in Hq
          by (cbn [cents] in Hlt; destruct s; rewrite ?Z.abs_opp, Z.abs_eq in Hlt; lia).
        now injection Hq as <- <-.
      * split; [apply to_str_amount_plain|]. split; reflexivity.
    + rewrite Hamt. split; [reflexivity|]. split; [reflexivity|].
      cbn [payload_fields map fst app In].
      intros H; repeat (destruct H as [H|H]; [vm_compute in H; discriminate H|]);
        exact H. }
Qed.

Lemma build_pix_payload_amount_field_witness :
  let key := lit "adega@pix.com" in
  let merchant_name := lit "ADEGA QUEBRA TUDO" in
  let merchant_city := lit "SAOPAULO" in
  let amount := Some (Fin false 3750 (-2)) in
  let txid := lit "VENDA1" in
  key <> [] /\ merchant_name <> [] /\ merchant_city <> [] /\
  exists p amount_text crc_text,
    let fields :=
      payload_fields key merchant_name merchant_city amount_text txid crc_text in
    build_pix_payload key merchant_name merchant_city amount txid = Returned p /\
    p = tlv_encode fields /\
    tlv_parse p = Some fields /\
    exists a q,
      amount = Some a /\
      quantize a MONEY_Q ROUND_HALF_EVEN = Returned q /\
      q = a /\
      is_plain_2dp (to_str q) = true /\
      amount_text = Some (to_str q) /\
      tlv_lookup (lit "54") fields = Some (to_str q).
Proof.
  cbv zeta.
  assert (Hkey : lit "adega@pix.com" <> []) by discriminate.
  assert (Hname : lit "ADEGA QUEBRA TUDO" <> []) by discriminate.
  assert (Hcity : lit "SAOPAULO" <> []) by discriminate.
  assert (Hlen : (length (lit "adega@pix.com") <= 77)%nat)
    by (apply Nat.leb_le; reflexivity).
  destruct (build_pix_payload_amount_field (lit "adega@pix.com")
              (lit "ADEGA QUEBRA TUDO") (lit "SAOPAULO")
              (Some (Fin false 3750 (-2))) (lit "VENDA1")
              Hkey Hname Hcity) as [Hreturns Hfield].
  destruct (Hreturns eq_refl eq_refl eq_refl eq_refl eq_refl) as [p Hret].
  destruct (Hfield p Hret) as (amount_text & crc_text & Hfields & Hread & Hamount).
  cbn [is_positive negb andb Z.ltb Z.compare] in Hamount.
  destruct Hamount as (a & q & Ha & Hq & Hsame & Hplain & Htext & Hlookup).
  split; [exact Hkey|]. split; [exact Hname|]. split; [exact Hcity|].
  exists p, amount_text, crc_text.
  split; [exact Hret|]. split; [exact Hfields|]. split; [exact (Hread Hlen)|].
  exists a, q.
  split; [exact Ha|]. split; [exact Hq|]. split; [exact (Hsame eq_refl)|].
  split; [exact Hplain|]. split; [exact Htext|exact Hlookup].
Defined.

(** ** C10: merchant name and city *)

(** C10.  For every call with non-empty key, merchant name and merchant
    city, the value composed under "59" is exactly the first
    min(25, length) characters of the merchant name and the value composed
    under "60" exactly the first min(15, length) characters of the
    merchant city; neither is empty, so the fallbacks "LOJA" and "CIDADE"
    are never taken.  Every returned payload carries these two fields (and
    a consumer reads them whenever the key has at most 77 characters). *)
Theorem build_pix_payload_name_city
    (key merchant_name merchant_city : pystr) (amount : option Decimal)
    (txid : pystr)
    (Hkey : key <> []) (Hname : merchant_name <> []) (Hcity : merchant_city <> []) :
  let name_value := firstn (Nat.min 25 (length merchant_name)) merchant_name in
  let city_value := firstn (Nat.min 15 (length merchant_city)) merchant_city in
  py_or (slice_to 25 merchant_name) (lit "LOJA") = name_value /\
  py_or (slice_to 15 merchant_city) (lit "CIDADE") = city_value /\
  truthy (slice_to 25 merchant_name) = true /\
  truthy (slice_to 15 merchant_city) = true /\
  (encodable key = true -> encodable merchant_name = true ->
   encodable merchant_city = true -> encodable txid = true ->
   representable amount = true ->
   exists p,
     build_pix_payload key merchant_name merchant_city amount txid = Returned p) /\
  (forall p,
     build_pix_payload key merchant_name merchant_city amount txid = Returned p ->
     exists amount_text crc_text,
       let fields :=
         payload_fields key merchant_name merchant_city amount_text txid crc_text in
       p = tlv_encode fields /\
       tlv_lookup (lit "59") fields = Some name_value /\
       tlv_lookup (lit "60") fields = Some city_value /\
       ((length key <= 77)%nat -> tlv_parse p = Some fields)).
Proof.
  cbv zeta. rewrite !firstn_min_length.
  split; [now apply py_or_nonempty|]. split; [now apply py_or_nonempty|].
  split; [destruct merchant_name; [congruence|reflexivity]|].
  split; [destruct merchant_city; [congruence|reflexivity]|].
  split; [apply build_pix_payload_returns|].
  intros p Hret.
  destruct (build_pix_payload_structure _ _ _ _ _ _ Hkey Hname Hcity Hret)
    as (amount_text & body & data & Hfields & _ & _ & Hread & _).
  exists amount_text, (fmt_04X (_crc16_ccitt data)). cbv zeta.
  split; [exact Hfields|].
  split; [destruct amount_text; reflexivity|].
  split; [destruct amount_text; reflexivity|exact Hread].
Qed.

Lemma build_pix_payload_name_city_witness :
  let key := lit "abc@bank" in
  let merchant_name := repeat 65 40 in
  let merchant_city := repeat 66 20 in
  let amount := @None Decimal in
  let txid := lit "T" in
  key <> [] /\ merchant_name <> [] /\ merchant_city <> [] /\
  py_or (slice_to 25 merchant_name) (lit "LOJA") = repeat 65 25 /\
  py_or (slice_to 15 merchant_city) (lit "CIDADE") = repeat 66 15 /\
  exists p amount_text crc_text,
    let fields :=
      payload_fields key merchant_name merchant_city amount_text txid crc_text in
    build_pix_payload key merchant_name merchant_city amount txid = Returned p /\
    p = tlv_encode fields /\
    tlv_lookup (lit "59") fields = Some (repeat 65 25) /\
    tlv_lookup (lit "60") fields = Some (repeat 66 15) /\
    tlv_parse p = Some fields.
Proof.
  cbv zeta.
  assert (Hkey : lit "abc@bank" <> []) by discriminate.
  assert (Hname : repeat 65 40 <> []) by discriminate.
  assert (Hcity : repeat 66 20 <> []) by discriminate.
  assert (Hlen : (length (lit "abc@bank") <= 77)%nat)
    by (apply Nat.leb_le; reflexivity).
  destruct (build_pix_payload_name_city (lit "abc@bank") (repeat 65 40) (repeat 66 20)
              None (lit "T") Hkey Hname Hcity)
    as (Hn & Hc & _ & _ & Hreturns & Hfield).
  destruct (Hreturns eq_refl eq_refl eq_refl eq_refl eq_refl) as [p Hret].
  destruct (Hfield p Hret) as (amount_text & crc_text & Hfields & H59 & H60 & Hread).
  split; [exact Hkey|]. split; [exact Hname|]. split; [exact Hcity|].
  split; [exact Hn|]. split; [exact Hc|].
  exists p, amount_text, crc_text.
  split; [exact Hret|]. split; [exact Hfields|]. split; [exact H59|].
  split; [exact H60|exact (Hread Hlen)].
Defined.

(** ** Trimming and separators *)

Lemma lstrip_all_space (l s : pystr) : all_space l = true -> lstrip (l ++ s) = lstrip s.
Proof.
  induction l as [|c l IH]; [reflexivity|].
  cbn [all_space forallb app lstrip]. intros H. apply andb_prop in H as [Hc Hl].
  rewrite Hc. now apply IH.
Qed.

Lemma lstrip_app (s r : pystr) :
  lstrip (s ++ r) = match lstrip s with [] => lstrip r | _ => lstrip s ++ r end.
Proof.
  induction s as [|c s IH]; [reflexivity|].
  cbn [app lstrip]. destruct (isspace c); [exact IH|reflexivity].
Qed.

Lemma all_space_rev (s : pystr) : all_space (rev s) = all_space s.
Proof.
  unfold all_space. induction s as [|c s IH]; [reflexivity|].
  cbn [rev forallb]. rewrite forallb_app, IH. cbn. rewrite andb_true_r. apply andb_comm.
Qed.

Lemma rstrip_all_space (s r : pystr) : all_space r = true -> rstrip (s ++ r) = rstrip s.
Proof.
  intros H. unfold rstrip. rewrite rev_app_distr, lstrip_all_space; [reflexivity|].
  now rewrite all_space_rev.
Qed.

Lemma rstrip_nil : rstrip [] = [].
Proof. reflexivity. Qed.

(** Whitespace around a text does not survive [strip]. *)
Lemma strip_padding (l s r : pystr) :
  all_space l = true -> all_space r = true -> strip (l ++ s ++ r) = strip s.
Proof.
  intros Hl Hr. unfold strip. rewrite lstrip_all_space by assumption.
  rewrite lstrip_app. destruct (lstrip s) as [|c t] eqn:Hs.
  - rewrite <- (app_nil_r r), lstrip_all_space by assumption. reflexivity.
  - now apply rstrip_all_space.
Qed.

Lemma lstrip_head (c : Z) (s : pystr) : isspace c = false -> lstrip (c :: s) = c :: s.
Proof. intros H. cbn [lstrip]. now rewrite H. Qed.

Lemma lstrip_shape (s : pystr) :
  lstrip s = [] \/ exists c t, lstrip s = c :: t /\ isspace c = false.
Proof.
  induction s as [|c s IH]; [now left|].
  cbn [lstrip]. destruct (isspace c) eqn:Hc; [exact IH|].
  right. now exists c, s.
Qed.

Lemma lstrip_keeps_last (s : pystr) (c : Z) :
  isspace c = false -> exists t, lstrip (s ++ [c]) = t ++ [c].
Proof.
  intros Hc. induction s as [|d s IH].
  - exists []. cbn. now rewrite Hc.
  - cbn [app lstrip]. destruct (isspace d); [exact IH|]. now exists (d :: s).
Qed.

Lemma lstrip_idem (s : pystr) : lstrip (lstrip s) = lstrip s.
Proof.
  induction s as [|c s IH]; [reflexivity|].
  cbn [lstrip]. destruct (isspace c) eqn:Hc; [exact IH|]. now apply lstrip_head.
Qed.

Lemma rstrip_idem (s : pystr) : rstrip (rstrip s) = rstrip s.
Proof. unfold rstrip. now rewrite rev_involutive, lstrip_idem. Qed.

Lemma lstrip_rstrip (s : pystr) : lstrip s = s -> lstrip (rstrip s) = rstrip s.
Proof.
  intros Hs. destruct (lstrip_shape s) as [Hnil|(c & t & Hct & Hc)].
  - rewrite Hnil in Hs. subst s. reflexivity.
  - rewrite Hs in Hct. subst s. unfold rstrip. cbn [rev].
    destruct (lstrip_keeps_last (rev t) c Hc) as [u ->].
    rewrite rev_app_distr. cbn [rev app]. now apply lstrip_head.
Qed.

(** Trimming a trimmed text changes nothing. *)
Lemma strip_idem (s : pystr) : strip (strip s) = strip s.
Proof.
  unfold strip. rewrite lstrip_rstrip by apply lstrip_idem. apply rstrip_idem.
Qed.

Lemma lstrip_no_space (s : pystr) : no_space s = true -> lstrip s = s.
Proof.
  destruct s as [|c s]; [reflexivity|]. cbn [no_space forallb]. intros H.
  apply andb_prop in H as [Hc _]. apply negb_true_iff in Hc. now apply lstrip_head.
Qed.

Lemma no_space_rev (s : pystr) : no_space (rev s) = no_space s.
Proof.
  unfold no_space. induction s as [|c s IH]; [reflexivity|].
  cbn [rev forallb]. rewrite forallb_app, IH. cbn. rewrite andb_true_r. apply andb_comm.
Qed.

(** A text without whitespace is its own trimming. *)
Lemma strip_no_space (s : pystr) : no_space s = true -> strip s = s.
Proof.
  intros H. unfold strip, rstrip. rewrite (lstrip_no_space s H).
  rewrite lstrip_no_space by now rewrite no_space_rev. apply rev_involutive.
Qed.

Lemma replace_char_app (a b : Z) (s t : pystr) :
  replace_char a b (s ++ t) = replace_char a b s ++ replace_char a b t.
Proof. apply map_app. Qed.

Lemma replace_char_idem (s : pystr) :
  replace_char 44 46 (replace_char 44 46 s) = replace_char 44 46 s.
Proof.
  unfold replace_char. rewrite map_map. apply map_ext. intros c.
  destruct (Z.eqb_spec c 44); [reflexivity|].
  destruct (Z.eqb_spec c 44); [contradiction|reflexivity].
Qed.

Lemma replace_char_all_space (s : pystr) :
  all_space s = true -> replace_char 44 46 s = s.
Proof.
  unfold all_space, replace_char. intros H.
  rewrite <- (map_id s) at 2. apply map_ext_in. intros c Hc.
  rewrite forallb_forall in H. specialize (H c Hc).
  destruct (Z.eqb_spec c 44) as [->|]; [discriminate H|reflexivity].
Qed.

Lemma normalized_comma (s : pystr) :
  normalized (replace_char 44 46 s) = normalized s.
Proof. unfold normalized. now rewrite replace_char_idem. Qed.

Lemma normalized_padding (l s r : pystr) :
  all_space l = true -> all_space r = true -> normalized (l ++ s ++ r) = normalized s.
Proof.
  intros Hl Hr. unfold normalized. rewrite !replace_char_app.
  rewrite (replace_char_all_space l Hl), (replace_char_all_space r Hr).
  now apply strip_padding.
Qed.

Lemma to_decimal_normalized (s : pystr) :
  to_decimal (PyStr s) =
  if pystr_eqb (normalized s) [] then Returned (Fin false 0 0)
  else of_str (normalized s).
Proof. reflexivity. Qed.

(** ** Reading decimal literals *)

Lemma pystr_eqb_eq (a b : pystr) : pystr_eqb a b = true -> a = b.
Proof. unfold pystr_eqb. destruct (list_eq_dec Z.eq_dec a b); congruence. Qed.

Lemma pystr_eqb_neq (a b : pystr) : a <> b -> pystr_eqb a b = false.
Proof. unfold pystr_eqb. destruct (list_eq_dec Z.eq_dec a b); congruence. Qed.

Lemma pystr_eqb_spec (a b : pystr) : reflect (a = b) (pystr_eqb a b).
Proof.
  unfold pystr_eqb. destruct (list_eq_dec Z.eq_dec a b); now constructor.
Qed.

Lemma is_digit_range (c : Z) : is_digit c = true <-> 48 <= c <= 57.
Proof. unfold is_digit. rewrite andb_true_iff, !Z.leb_le. reflexivity. Qed.

Lemma isspace_range (c : Z) : isspace c = true -> c <= 32 \/ 133 <= c.
Proof.
  unfold isspace. rewrite !orb_true_iff, !andb_true_iff, !Z.leb_le, !Z.eqb_eq. lia.
Qed.

Lemma digit_not_space (c : Z) : is_digit c = true -> isspace c = false.
Proof.
  intros H. apply is_digit_range in H.
  destruct (isspace c) eqn:E; [|reflexivity].
  apply isspace_range in E. lia.
Qed.

Lemma span_digits_spec (s ds tl : list Z) :
  span_digits s = (ds, tl) -> s = ds ++ tl /\ all_digits ds = true.
Proof.
  revert ds tl. induction s as [|c s IH]; intros ds tl.
  - intros [= <- <-]. split; reflexivity.
  - cbn [span_digits]. destruct (is_digit c) eqn:Hc.
    + destruct (span_digits s) as [ds' tl'] eqn:Hs. intros [= <- <-].
      destruct (IH ds' tl' eq_refl) as [-> Hall]. split; [reflexivity|].
      cbn. now rewrite Hc.
    + intros [= <- <-]. split; reflexivity.
Qed.

Lemma span_digits_app (ds tl : list Z) :
  all_digits ds = true ->
  match tl with [] => True | c :: _ => is_digit c = false end ->
  span_digits (ds ++ tl) = (ds, tl).
Proof.
  intros Hds Htl. induction ds as [|d ds IH].
  - destruct tl as [|c tl]; [reflexivity|]. cbn. now rewrite Htl.
  - cbn in Hds. apply andb_prop in Hds as [Hd Hds].
    cbn [app span_digits]. now rewrite Hd, (IH Hds).
Qed.

Lemma digits_value_bound (ds : list Z) :
  all_digits ds = true -> 0 <= digits_value ds < 10 ^ Z.of_nat (length ds).
Proof.
  unfold digits_value.
  assert (H : forall acc, 0 <= acc -> all_digits ds = true ->
            0 <= fold_left (fun a c => 10 * a + (c - 48)) ds acc
              < (acc + 1) * 10 ^ Z.of_nat (length ds)).
  { induction ds as [|d ds IH]; intros acc Hacc Hall.
    - cbn. lia.
    - cbn in Hall. apply andb_prop in Hall as [Hd Hall]. apply is_digit_range in Hd.
      cbn [fold_left length]. rewrite Nat2Z.inj_succ, Z.pow_succ_r by lia.
      specialize (IH (10 * acc + (d - 48)) ltac:(lia) Hall).
      assert (0 < 10 ^ Z.of_nat (length ds)) by (apply Z.pow_pos_nonneg; lia).
      nia. }
  intros Hall. specialize (H 0 ltac:(lia) Hall). lia.
Qed.

Lemma ndigits_digits_value (ds : list Z) :
  all_digits ds = true -> ds <> [] ->
  ndigits (digits_value ds) <= Z.of_nat (length ds).
Proof.
  intros Hall Hne. apply ndigits_le; [now apply digits_value_bound|].
  destruct ds; [congruence|cbn [length]; lia].
Qed.

Lemma as_ascii_plain (s : pystr) : plain_ascii s = true -> as_ascii s = Some s.
Proof.
  induction s as [|c s IH]; [reflexivity|].
  cbn [plain_ascii forallb as_ascii]. intros H.
  apply andb_prop in H as [Hc Hs]. apply andb_prop in Hc as [Hc Hu].
  apply negb_true_iff in Hu. rewrite Hu, Hc. fold (plain_ascii s) in Hs.
  now rewrite (IH Hs).
Qed.

Lemma digits_plain_ascii (s : pystr) : all_digits s = true -> plain_ascii s = true.
Proof.
  unfold all_digits, plain_ascii. intros H. apply forallb_forall. intros c Hc.
  rewrite forallb_forall in H. specialize (H c Hc). apply is_digit_range in H.
  rewrite !andb_true_iff, negb_true_iff, Z.ltb_lt, Z.leb_le, Z.eqb_neq. lia.
Qed.

Lemma digits_no_space (s : pystr) : all_digits s = true -> no_space s = true.
Proof.
  unfold all_digits, no_space. intros H. apply forallb_forall. intros c Hc.
  rewrite forallb_forall in H. now rewrite digit_not_space by auto.
Qed.

Lemma digits_no_comma (s : pystr) : all_digits s = true -> replace_char 44 46 s = s.
Proof.
  unfold all_digits, replace_char. intros H.
  rewrite <- (map_id s) at 2. apply map_ext_in. intros c Hc.
  rewrite forallb_forall in H. specialize (H c Hc). apply is_digit_range in H.
  destruct (Z.eqb_spec c 44); [lia|reflexivity].
Qed.

Lemma digits_lower (s : pystr) : all_digits s = true -> map lower s = s.
Proof.
  unfold all_digits. intros H.
  rewrite <- (map_id s) at 2. apply map_ext_in. intros c Hc.
  rewrite forallb_forall in H. specialize (H c Hc). apply is_digit_range in H.
  unfold lower. destruct (Z.leb_spec 65 c); [lia|reflexivity].
Qed.

(** A text that starts with a digit or the point is no Infinity or NaN. *)
Lemma parse_special_number (sign : bool) (c : Z) (rest : list Z) :
  is_digit c = true \/ c = 46 -> parse_special sign (c :: rest) = None.
Proof.
  intros Hc.
  assert (Hl : lower c = c).
  { unfold lower. destruct Hc as [Hc| ->]; [|reflexivity].
    apply is_digit_range in Hc. destruct (Z.leb_spec 65 c); [lia|reflexivity]. }
  assert (Hne : c <> 105 /\ c <> 110 /\ c <> 115).
  { destruct Hc as [Hc| ->]; [apply is_digit_range in Hc|]; lia. }
  unfold parse_special. cbn [map]. rewrite Hl.
  rewrite !pystr_eqb_neq; [reflexivity| | | |];
    cbn [firstn lit map list_ascii_of_string];
    intros [= H]; cbn in H; lia.
Qed.

Lemma exact_finite_ok (s : bool) (c e : Z) :
  MIN_ETINY <= e -> (if c =? 0 then e else ndigits c - 1 + e) <= MAX_EMAX ->
  exact_finite s c e = Returned (Fin s c e).
Proof.
  intros H1 H2. unfold exact_finite.
  destruct (Z.ltb_spec e MIN_ETINY); [lia|].
  destruct (Z.ltb_spec MAX_EMAX (if c =? 0 then e else ndigits c - 1 + e)); [lia|].
  reflexivity.
Qed.

(** Digits, a point, digits: the value read is the digits at the exponent
    the fraction gives. *)
Lemma of_str_plain (ip fp : list Z) :
  all_digits ip = true -> all_digits fp = true -> ip ++ fp <> [] ->
  Z.of_nat (length (ip ++ fp)) <= 10 ^ 18 ->
  of_str (ip ++ 46 :: fp) =
  Returned (Fin false (digits_value (ip ++ fp)) (- Z.of_nat (length fp))).
Proof.
  intros Hip Hfp Hne Hlen.
  assert (Hall : all_digits (ip ++ fp) = true) by now rewrite all_digits_app, Hip, Hfp.
  unfold of_str.
  rewrite strip_no_space
    by (unfold no_space; rewrite forallb_app; cbn [forallb];
        fold (no_space ip) (no_space fp);
        now rewrite !digits_no_space by assumption).
  rewrite as_ascii_plain
    by (unfold plain_ascii; rewrite forallb_app; cbn [forallb];
        fold (plain_ascii ip) (plain_ascii fp);
        now rewrite !digits_plain_ascii by assumption).
  assert (Hhead : exists c rest, ip ++ 46 :: fp = c :: rest /\ (is_digit c = true \/ c = 46)).
  { destruct ip as [|c ip']; [now exists 46, fp; split; [|right]|].
    exists c, (ip' ++ 46 :: fp). split; [reflexivity|left].
    cbn in Hip. now apply andb_prop in Hip. }
  destruct Hhead as (c & rest & Heq & Hc).
  assert (Hsign : parse_sign (ip ++ 46 :: fp) = (false, ip ++ 46 :: fp)).
  { rewrite Heq. unfold parse_sign.
    assert (c <> 43 /\ c <> 45) as [H43 H45]
      by (destruct Hc as [Hc| ->]; [apply is_digit_range in Hc|]; lia).
    destruct (Z.eqb_spec c 43); [contradiction|].
    destruct (Z.eqb_spec c 45); [contradiction|reflexivity]. }
  rewrite Hsign. rewrite Heq at 1. rewrite parse_special_number by exact Hc.
  unfold parse_number.
  rewrite (span_digits_app ip (46 :: fp) Hip) by reflexivity.
  rewrite Z.eqb_refl.
  rewrite <- (app_nil_r fp) at 1. rewrite (span_digits_app fp [] Hfp I).
  assert (Hfplen : Z.of_nat (length fp) <= 10 ^ 18)
    by (rewrite length_app in Hlen; lia).
  pose proof (ndigits_digits_value (ip ++ fp) Hall Hne) as Hnd.
  change (10 ^ 18) with 1000000000000000000 in *.
  destruct (ip ++ fp) as [|d ds] eqn:Hds; [congruence|].
  apply exact_finite_ok.
  - unfold MIN_ETINY. lia.
  - unfold MAX_EMAX. destruct (digits_value (d :: ds) =? 0); lia.
Qed.

(** Either separator: the comma is read as the point. *)
Lemma to_decimal_separator (sep : Z) (ip fp : list Z) :
  sep = 44 \/ sep = 46 ->
  all_digits ip = true -> all_digits fp = true -> ip ++ fp <> [] ->
  Z.of_nat (length (ip ++ fp)) <= 10 ^ 18 ->
  to_decimal (PyStr (ip ++ sep :: fp)) =
  Returned (Fin false (digits_value (ip ++ fp)) (- Z.of_nat (length fp))).
Proof.
  intros Hsep Hip Hfp Hne Hlen. rewrite to_decimal_normalized.
  assert (Hnorm : normalized (ip ++ sep :: fp) = ip ++ 46 :: fp).
  { unfold normalized. rewrite replace_char_app. cbn [replace_char map].
    fold (replace_char 44 46 fp). rewrite !digits_no_comma by assumption.
    replace (if sep =? 44 then 46 else sep) with 46 by (destruct Hsep; subst; reflexivity).
    apply strip_no_space. unfold no_space. rewrite forallb_app. cbn [forallb].
    fold (no_space ip) (no_space fp). now rewrite !digits_no_space by assumption. }
  rewrite Hnorm. rewrite pystr_eqb_neq by (destruct ip; discriminate).
  now apply of_str_plain.
Qed.

(** ** What [Decimal] refuses *)

Lemma literal_text_app (a b : list Z) :
  literal_text (a ++ b) = literal_text a && literal_text b.
Proof. apply forallb_app. Qed.

Lemma literal_digit (c : Z) : is_digit c = true -> ascii_literal_char c = true.
Proof. intros H. unfold ascii_literal_char. now rewrite H. Qed.

Lemma literal_digits (s : list Z) : all_digits s = true -> literal_text s = true.
Proof.
  unfold all_digits, literal_text. intros H. apply forallb_forall. intros c Hc.
  rewrite forallb_forall in H. now apply literal_digit, H.
Qed.

Lemma literal_letter (c : Z) :
  existsb (Z.eqb (lower c)) (lit "einftyas") = true -> ascii_literal_char c = true.
Proof. intros H. unfold ascii_literal_char. rewrite H. apply orb_true_r. Qed.

Lemma lower_digit (c : Z) : is_digit (lower c) = true -> is_digit c = true.
Proof.
  unfold lower. destruct ((65 <=? c) && (c <=? 90)) eqn:E; [|trivial].
  apply andb_prop in E as [H1 H2]. apply Z.leb_le in H1, H2.
  intros H. apply is_digit_range in H. lia.
Qed.

Lemma parse_sign_spec (s r : list Z) (sg : bool) :
  parse_sign s = (sg, r) -> s = r \/ exists c, s = c :: r /\ (c = 43 \/ c = 45).
Proof.
  unfold parse_sign. destruct s as [|c s]; [intros [= <- <-]; now left|].
  destruct (Z.eqb_spec c 43) as [->|]; [intros [= <- <-]; right; eauto|].
  destruct (Z.eqb_spec c 45) as [->|]; [intros [= <- <-]; right; eauto|].
  intros [= <- <-]. now left.
Qed.

Lemma parse_sign_literal (s r : list Z) (sg : bool) :
  parse_sign s = (sg, r) -> literal_text r = true -> literal_text s = true.
Proof.
  intros H Hr. destruct (parse_sign_spec _ _ _ H) as [->|(c & -> & [->| ->])];
    [assumption|cbn; exact Hr|cbn; exact Hr].
Qed.

Lemma parse_exponent_literal (s : list Z) (x : Z) :
  parse_exponent s = Some x -> literal_text s = true.
Proof.
  unfold parse_exponent. destruct (parse_sign s) as [neg r] eqn:Hsign.
  destruct (span_digits r) as [ds tl] eqn:Hspan.
  destruct (span_digits_spec _ _ _ Hspan) as [-> Hds].
  destruct ds as [|d ds]; [discriminate|]. destruct tl; [|discriminate].
  intros _. apply (parse_sign_literal _ _ _ Hsign).
  rewrite app_nil_r. now apply literal_digits.
Qed.

Lemma exact_finite_raises (s : bool) (c e : Z) (x : exn) :
  exact_finite s c e = Raised x -> x = InvalidOperation.
Proof.
  unfold exact_finite. destruct (e <? MIN_ETINY); [now intros [= <-]|].
  destruct (MAX_EMAX <? _); [now intros [= <-]|discriminate].
Qed.

Lemma parse_number_raises (sign : bool) (body : list Z) (x : exn) :
  parse_number sign body = Raised x -> x = InvalidOperation.
Proof.
  unfold parse_number. destruct (span_digits body) as [ip r1].
  destruct (match r1 with
            | [] => ([], [])
            | c :: r => if c =? 46 then span_digits r else ([], r1)
            end) as [fp r2].
  destruct (ip ++ fp); [now intros [= <-]|].
  destruct r2 as [|c r3]; [apply exact_finite_raises|].
  destruct ((c =? 101) || (c =? 69)); [|now intros [= <-]].
  destruct (parse_exponent r3); [apply exact_finite_raises|now intros [= <-]].
Qed.

Lemma parse_number_literal (sign : bool) (body : list Z) (d : Decimal) :
  parse_number sign body = Returned d -> literal_text body = true.
Proof.
  unfold parse_number. destruct (span_digits body) as [ip r1] eqn:Hip.
  destruct (span_digits_spec _ _ _ Hip) as [-> Hipd].
  rewrite literal_text_app, (literal_digits ip Hipd). cbn [andb].
  assert (Htail : forall fp r2,
    (match r1 with
     | [] => ([], [])
     | c :: r => if c =? 46 then span_digits r else ([], r1)
     end) = (fp, r2) ->
    literal_text r2 = true -> literal_text r1 = true).
  { intros fp r2 H Hr2. destruct r1 as [|c r]; [reflexivity|].
    destruct (Z.eqb_spec c 46) as [->|].
    - destruct (span_digits_spec _ _ _ H) as [-> Hfp].
      cbn [literal_text forallb]. fold (literal_text (fp ++ r2)).
      rewrite literal_text_app, (literal_digits fp Hfp), Hr2. reflexivity.
    - injection H as <- <-. exact Hr2. }
  destruct (match r1 with
            | [] => ([], [])
            | c :: r => if c =? 46 then span_digits r else ([], r1)
            end) as [fp r2] eqn:Hfp.
  specialize (Htail fp r2 eq_refl).
  destruct (ip ++ fp); [discriminate|].
  destruct r2 as [|c r3]; [intros _; now apply Htail|].
  destruct ((c =? 101) || (c =? 69)) eqn:He; [|discriminate].
  destruct (parse_exponent r3) as [x|] eqn:Hexp; [|discriminate].
  intros _. apply Htail. cbn [literal_text forallb]. fold (literal_text r3).
  rewrite (parse_exponent_literal r3 x Hexp), andb_true_r.
  apply literal_letter.
  apply orb_prop in He as [He|He]; apply Z.eqb_eq in He; subst c; reflexivity.
Qed.

Lemma lowered_literal (body word : list Z) :
  map lower body = word ->
  forallb (fun c => existsb (Z.eqb c) (lit "einftyas") || is_digit c) word = true ->
  literal_text body = true.
Proof.
  intros <- H. unfold literal_text. apply forallb_forall. intros c Hc.
  rewrite forallb_forall in H. specialize (H (lower c) (in_map lower _ _ Hc)).
  apply orb_prop in H as [H|H]; [now apply literal_letter|].
  now apply literal_digit, lower_digit.
Qed.

Lemma parse_special_literal (sign : bool) (body : list Z) (d : Decimal) :
  parse_special sign body = Some (Returned d) -> literal_text body = true.
Proof.
  unfold parse_special.
  destruct (pystr_eqb (map lower body) (lit "inf")) eqn:E1.
  { intros _. apply pystr_eqb_eq in E1.
    now apply (lowered_literal _ _ E1). }
  destruct (pystr_eqb (map lower body) (lit "infinity")) eqn:E2.
  { intros _. apply pystr_eqb_eq in E2.
    now apply (lowered_literal _ _ E2). }
  cbn [orb].
  assert (Hword : forall n prefix,
    pystr_eqb (firstn n (map lower body)) prefix = true ->
    forallb (fun c => existsb (Z.eqb c) (lit "einftyas") || is_digit c) prefix = true ->
    all_digits (skipn n (map lower body)) = true ->
    literal_text body = true).
  { intros n prefix Hp Hpre Hdig. apply pystr_eqb_eq in Hp.
    apply (lowered_literal body (map lower body) eq_refl).
    rewrite <- (firstn_skipn n (map lower body)), forallb_app, Hp, Hpre. cbn [andb].
    unfold all_digits in Hdig. apply forallb_forall. intros c Hc.
    rewrite forallb_forall in Hdig. rewrite (Hdig c Hc). apply orb_true_r. }
  destruct (pystr_eqb (firstn 3 (map lower body)) (lit "nan")) eqn:E3.
  { destruct (all_digits (skipn 3 (map lower body))) eqn:D3; [|discriminate].
    intros _. now apply (Hword 3%nat (lit "nan")). }
  destruct (pystr_eqb (firstn 4 (map lower body)) (lit "snan")) eqn:E4; [|discriminate].
  destruct (all_digits (skipn 4 (map lower body))) eqn:D4; [|discriminate].
  intros _. now apply (Hword 4%nat (lit "snan")).
Qed.

Lemma parse_special_raises (sign : bool) (body : list Z) (x : exn) :
  parse_special sign body = Some (Raised x) -> x = InvalidOperation.
Proof.
  unfold parse_special.
  destruct (pystr_eqb _ (lit "inf") || pystr_eqb _ (lit "infinity")); [discriminate|].
  destruct (pystr_eqb _ (lit "nan")).
  { destruct (all_digits _); [discriminate|now intros [= <-]]. }
  destruct (pystr_eqb _ (lit "snan")); [|discriminate].
  destruct (all_digits _); [discriminate|now intros [= <-]].
Qed.

Lemma as_ascii_literal (s a : list Z) :
  as_ascii s = Some a -> literal_text a = true -> forallb literal_char s = true.
Proof.
  revert a. induction s as [|c s IH]; intros a; [reflexivity|].
  cbn [as_ascii forallb]. unfold literal_char at 1.
  destruct (Z.eqb_spec c 95) as [->|Hu].
  { intros H Ha. cbn [orb]. now apply (IH a). }
  cbn [orb].
  destruct ((0 <? c) && (c <=? 127)).
  { destruct (as_ascii s) as [a'|]; [|discriminate]. intros [= <-].
    cbn [literal_text forallb]. intros H. apply andb_prop in H as [Hc Ha].
    rewrite Hc. cbn [orb]. now apply (IH a'). }
  destruct (isspace c).
  { destruct (as_ascii s) as [a'|]; [|discriminate]. intros [= <-]. discriminate. }
  destruct (unicode_decimal c) as [dgt|]; [|discriminate].
  destruct (as_ascii s) as [a'|]; [|discriminate]. intros [= <-].
  cbn [literal_text forallb]. intros H. apply andb_prop in H as [_ Ha].
  rewrite orb_true_r. now apply (IH a').
Qed.

(** Every character of a text that [Decimal] accepts belongs to the
    alphabet of decimal literals; a refusal is an InvalidOperation. *)
Lemma of_str_accepts (t : pystr) (d : Decimal) :
  of_str t = Returned d -> forallb literal_char (strip t) = true.
Proof.
  unfold of_str. destruct (as_ascii (strip t)) as [a|] eqn:Ha; [|discriminate].
  destruct (parse_sign a) as [sign body] eqn:Hsign.
  intros H. apply (as_ascii_literal _ _ Ha), (parse_sign_literal _ _ _ Hsign).
  destruct (parse_special sign body) as [o|] eqn:Hsp.
  - subst o. now apply (parse_special_literal sign body d).
  - now apply (parse_number_literal sign body d).
Qed.

Lemma of_str_raises (t : pystr) (x : exn) :
  of_str t = Raised x -> x = InvalidOperation.
Proof.
  unfold of_str. destruct (as_ascii (strip t)) as [a|]; [|now intros [= <-]].
  destruct (parse_sign a) as [sign body].
  destruct (parse_special sign body) as [o|] eqn:Hsp.
  - intros ->. now apply (parse_special_raises sign body).
  - apply parse_number_raises.
Qed.

Lemma to_decimal_rejects (s : pystr) (c : Z) :
  In c (normalized s) -> literal_char c = false ->
  to_decimal (PyStr s) = Raised InvalidOperation.
Proof.
  intros Hin Hc. rewrite to_decimal_normalized.
  rewrite pystr_eqb_neq by (intros E; rewrite E in Hin; exact Hin).
  destruct (of_str (normalized s)) as [d|x] eqn:H.
  - apply of_str_accepts in H. unfold normalized in H. rewrite strip_idem in H.
    rewrite forallb_forall in H. specialize (H c Hin). congruence.
  - now rewrite (of_str_raises _ _ H).
Qed.

(** ** Decimal literals: what [Decimal] accepts *)

Lemma sign_text_parse (sg body : list Z) (neg : bool) :
  sign_text sg neg ->
  match body with [] => True | c :: _ => c <> 43 /\ c <> 45 end ->
  parse_sign (sg ++ body) = (neg, body).
Proof.
  intros [[-> ->]|[[-> ->]|[-> ->]]] Hhead; [|reflexivity|reflexivity].
  cbn [app]. destruct body as [|c rest]; [reflexivity|].
  destruct Hhead as [H43 H45]. unfold parse_sign.
  apply Z.eqb_neq in H43, H45. now rewrite H43, H45.
Qed.

Lemma parse_sign_text (a body : list Z) (neg : bool) :
  parse_sign a = (neg, body) ->
  exists sg, a = sg ++ body /\ sign_text sg neg.
Proof.
  unfold parse_sign, sign_text. destruct a as [|c rest].
  - intros [= <- <-]. exists []. tauto.
  - destruct (Z.eqb_spec c 43) as [->|_].
    { intros [= <- <-]. exists [43]. tauto. }
    destruct (Z.eqb_spec c 45) as [->|_].
    { intros [= <- <-]. exists [45]. tauto. }
    intros [= <- <-]. exists []. tauto.
Qed.

Lemma digit_head (ds tl : list Z) :
  all_digits ds = true -> ds <> [] ->
  match ds ++ tl with [] => True | c :: _ => c <> 43 /\ c <> 45 end.
Proof.
  destruct ds as [|c ds]; [congruence|]. intros H _. cbn [app].
  cbn [all_digits forallb] in H. apply andb_prop in H as [H _].
  split; intros ->; discriminate H.
Qed.

Lemma span_digits_all (ds : list Z) :
  all_digits ds = true -> span_digits ds = (ds, []).
Proof.
  intros H. rewrite <- (app_nil_r ds) at 1. now apply span_digits_app.
Qed.

Lemma parse_exponent_iff (t : list Z) (x : Z) :
  parse_exponent t = Some x <-> exponent_text t x.
Proof.
  unfold parse_exponent, exponent_text. split.
  - destruct (parse_sign t) as [neg r] eqn:Hsign.
    destruct (span_digits r) as [ds tl] eqn:Hspan.
    destruct (span_digits_spec _ _ _ Hspan) as [-> Hds].
    destruct (parse_sign_text _ _ _ Hsign) as (sg & -> & Hsg).
    destruct ds as [|d ds]; [discriminate|]. destruct tl; [|discriminate].
    intros [= <-]. exists sg, neg, (d :: ds). rewrite app_nil_r.
    repeat split; try assumption. discriminate.
  - intros (sg & neg & ds & -> & Hsg & Hds & Hne & ->).
    rewrite <- (app_nil_r ds) at 1.
    rewrite (sign_text_parse sg (ds ++ []) neg Hsg (digit_head ds [] Hds Hne)).
    rewrite app_nil_r, (span_digits_all ds Hds).
    destruct ds; [congruence|reflexivity].
Qed.

Lemma exact_finite_iff (s : bool) (c e : Z) (d : Decimal) :
  exact_finite s c e = Returned d <-> exponent_in_range c e /\ d = Fin s c e.
Proof.
  unfold exact_finite, exponent_in_range.
  destruct (Z.ltb_spec e MIN_ETINY).
  - split; [discriminate|]. intros [[? _] _]. lia.
  - destruct (Z.ltb_spec MAX_EMAX (if c =? 0 then e else ndigits c - 1 + e)).
    + split; [discriminate|]. intros [[_ ?] _]. lia.
    + split; [intros [= <-]; tauto|]. now intros [_ ->].
Qed.

Lemma not_digit_head (tl : list Z) :
  match tl with [] => True | c :: _ => c = 46 \/ c = 101 \/ c = 69 end ->
  match tl with [] => True | c :: _ => is_digit c = false end.
Proof.
  destruct tl as [|c tl]; [trivial|]. intros [->|[->| ->]]; reflexivity.
Qed.

Lemma parse_number_iff (neg : bool) (body : list Z) (d : Decimal) :
  parse_number neg body = Returned d <->
  exists c e, numeric_literal body c e /\ exponent_in_range c e /\ d = Fin neg c e.
Proof.
  unfold parse_number. split.
  - destruct (span_digits body) as [ip r1] eqn:Hip.
    destruct (span_digits_spec _ _ _ Hip) as [-> Hipd].
    assert (Hfrac : forall fp r2,
      (match r1 with
       | [] => ([], [])
       | c :: r => if c =? 46 then span_digits r else ([], r1)
       end) = (fp, r2) ->
      all_digits fp = true /\
      exists point, r1 = point ++ r2 /\ ((point = [] /\ fp = []) \/ point = 46 :: fp)).
    { intros fp r2 H. destruct r1 as [|c r].
      - injection H as <- <-. split; [reflexivity|]. exists []. tauto.
      - destruct (Z.eqb_spec c 46) as [->|_].
        + destruct (span_digits_spec _ _ _ H) as [-> Hfp]. split; [exact Hfp|].
          exists (46 :: fp). tauto.
        + injection H as <- <-. split; [reflexivity|]. exists []. tauto. }
    destruct (match r1 with
              | [] => ([], [])
              | c :: r => if c =? 46 then span_digits r else ([], r1)
              end) as [fp r2] eqn:Hfp.
    destruct (Hfrac fp r2 eq_refl) as (Hfpd & point & -> & Hpoint).
    destruct (ip ++ fp) as [|d0 ds] eqn:Hds; [discriminate|].
    rewrite <- Hds.
    assert (Hne : ip ++ fp <> []) by (rewrite Hds; discriminate).
    destruct r2 as [|m r3].
    + intros H. apply exact_finite_iff in H as [Hrange ->].
      exists (digits_value (ip ++ fp)), (- Z.of_nat (length fp)).
      split; [|split; [exact Hrange|reflexivity]].
      exists ip, fp, point, [], 0. repeat split; try assumption. tauto.
    + destruct ((m =? 101) || (m =? 69)) eqn:Hm; [|discriminate].
      destruct (parse_exponent r3) as [x|] eqn:Hx; [|discriminate].
      intros H. apply exact_finite_iff in H as [Hrange ->].
      exists (digits_value (ip ++ fp)), (x - Z.of_nat (length fp)).
      split; [|split; [exact Hrange|reflexivity]].
      exists ip, fp, point, (m :: r3), x. repeat split; try assumption.
      right. exists m, r3. split; [reflexivity|]. split.
      * apply orb_prop in Hm as [Hm|Hm]; apply Z.eqb_eq in Hm; tauto.
      * now apply parse_exponent_iff.
  - intros (c & e & (ip & fp & point & expo & x & -> & Hipd & Hfpd & Hne & Hpoint
                     & Hexpo & -> & ->) & Hrange & ->).
    assert (Hhead : match expo with [] => True | c :: _ => c = 46 \/ c = 101 \/ c = 69 end).
    { destruct Hexpo as [[-> _]|(m & ex & -> & Hm & _)]; [trivial|tauto]. }
    assert (Hexp : match expo with
                   | [] => exact_finite neg (digits_value (ip ++ fp)) (- Z.of_nat (length fp))
                   | m :: r3 =>
                       if (m =? 101) || (m =? 69)
                       then match parse_exponent r3 with
                            | Some x => exact_finite neg (digits_value (ip ++ fp))
                                          (x - Z.of_nat (length fp))
                            | None => Raised InvalidOperation
                            end
                       else Raised InvalidOperation
                   end = Returned (Fin neg (digits_value (ip ++ fp))
                                     (x - Z.of_nat (length fp)))).
    { destruct Hexpo as [[-> ->]|(m & ex & -> & Hm & Hx)].
      - apply exact_finite_iff. split; [|reflexivity].
        now replace (- Z.of_nat (length fp)) with (0 - Z.of_nat (length fp)) by lia.
      - apply parse_exponent_iff in Hx. rewrite Hx.
        replace ((m =? 101) || (m =? 69)) with true
          by (destruct Hm as [-> | ->]; reflexivity).
        now apply exact_finite_iff. }
    destruct Hpoint as [[-> ->]| ->].
    + cbn [app]. rewrite (span_digits_app ip expo Hipd (not_digit_head _ Hhead)).
      replace (match expo with
               | [] => ([], [])
               | c :: r => if c =? 46 then span_digits r else ([], expo)
               end) with (@nil Z, expo).
      2:{ destruct Hexpo as [[-> _]|(m & ex & -> & [-> | ->] & _)]; reflexivity. }
      revert Hexp. destruct (ip ++ []) as [|d0 ds] eqn:Hds; [congruence|].
      intros Hexp. exact Hexp.
    + rewrite (span_digits_app ip ((46 :: fp) ++ expo) Hipd) by reflexivity.
      cbn [app]. rewrite Z.eqb_refl.
      rewrite (span_digits_app fp expo Hfpd (not_digit_head _ Hhead)).
      revert Hexp. destruct (ip ++ fp) as [|d0 ds] eqn:Hds; [congruence|].
      intros Hexp. exact Hexp.
Qed.

Lemma parse_special_iff (neg : bool) (body : list Z) (d : Decimal) :
  parse_special neg body = Some (Returned d) <-> special_literal body neg d.
Proof.
  unfold parse_special, special_literal. split.
  - destruct (pystr_eqb_spec (map lower body) (lit "inf")) as [E1|_].
    { intros [= <-]. tauto. }
    destruct (pystr_eqb_spec (map lower body) (lit "infinity")) as [E2|_].
    { intros [= <-]. tauto. }
    cbn [orb].
    destruct (pystr_eqb_spec (firstn 3 (map lower body)) (lit "nan")) as [E3|_].
    { destruct (all_digits (skipn 3 (map lower body))) eqn:D3; [|discriminate].
      intros [= <-]. right. exists (skipn 3 (map lower body)).
      split; [exact D3|]. left. split; [|reflexivity].
      now rewrite <- E3, firstn_skipn. }
    destruct (pystr_eqb_spec (firstn 4 (map lower body)) (lit "snan")) as [E4|_];
      [|discriminate].
    destruct (all_digits (skipn 4 (map lower body))) eqn:D4; [|discriminate].
    intros [= <-]. right. exists (skipn 4 (map lower body)).
    split; [exact D4|]. right. split; [|reflexivity].
    now rewrite <- E4, firstn_skipn.
  - intros [[[E|E] ->]|(ds & Hds & [[E ->]|[E ->]])]; rewrite E.
    + reflexivity.
    + reflexivity.
    + rewrite !pystr_eqb_neq by (intros H; vm_compute in H; discriminate H).
      cbn [orb].
      change (firstn 3 (lit "nan" ++ ds)) with (lit "nan").
      change (skipn 3 (lit "nan" ++ ds)) with ds.
      now rewrite pystr_eqb_refl, Hds.
    + rewrite !pystr_eqb_neq by (intros H; vm_compute in H; discriminate H).
      cbn [orb].
      change (firstn 4 (lit "snan" ++ ds)) with (lit "snan").
      change (skipn 4 (lit "snan" ++ ds)) with ds.
      now rewrite pystr_eqb_refl, Hds.
Qed.

Lemma numeric_literal_head (body : list Z) (c e : Z) :
  numeric_literal body c e ->
  exists h rest, body = h :: rest /\ (is_digit h = true \/ h = 46).
Proof.
  intros (ip & fp & point & expo & x & -> & Hipd & Hfpd & Hne & Hpoint & _).
  destruct ip as [|h ip].
  - destruct Hpoint as [[-> ->]| ->]; [now contradiction Hne|].
    exists 46, (fp ++ expo). tauto.
  - exists h, (ip ++ point ++ expo). split; [reflexivity|].
    cbn [all_digits forallb] in Hipd. apply andb_prop in Hipd as [H _]. tauto.
Qed.

Lemma special_literal_head (body : list Z) (neg : bool) (d : Decimal) :
  special_literal body neg d ->
  exists h rest, body = h :: rest /\ h <> 43 /\ h <> 45.
Proof.
  assert (Hlower : forall h rest w x,
    map lower (h :: rest) = x :: w -> x <> 43 -> x <> 45 -> h <> 43 /\ h <> 45).
  { intros h rest w x H H43 H45. cbn [map] in H. injection H as H _.
    split; intros ->; vm_compute in H; congruence. }
  intros [[[E|E] _]|(ds & _ & [[E _]|[E _]])];
    (destruct body as [|h rest]; [vm_compute in E; discriminate E|]);
    exists h, rest; (split; [reflexivity|]);
    apply (Hlower h rest _ _ E); intros H; vm_compute in H; discriminate H.
Qed.

Lemma of_str_iff (t : pystr) (d : Decimal) :
  of_str t = Returned d <-> decimal_literal (strip t) d.
Proof.
  unfold of_str, decimal_literal. split.
  - destruct (as_ascii (strip t)) as [a|]; [|discriminate].
    destruct (parse_sign a) as [neg body] eqn:Hsign.
    destruct (parse_sign_text _ _ _ Hsign) as (sg & -> & Hsg).
    destruct (parse_special neg body) as [o|] eqn:Hsp.
    + intros ->. exists (sg ++ body), sg, neg, body.
      repeat split; try assumption. left. now apply parse_special_iff.
    + intros H. exists (sg ++ body), sg, neg, body.
      repeat split; try assumption. right. now apply parse_number_iff.
  - intros (a & sg & neg & body & -> & -> & Hsg & [Hsp|Hnum]).
    + destruct (special_literal_head _ _ _ Hsp) as (h & rest & -> & Hh).
      rewrite (sign_text_parse sg (h :: rest) neg Hsg Hh).
      apply parse_special_iff in Hsp. now rewrite Hsp.
    + destruct Hnum as (c & e & Hnum & Hrange & ->).
      destruct (numeric_literal_head _ _ _ Hnum) as (h & rest & -> & Hh).
      rewrite (sign_text_parse sg (h :: rest) neg Hsg)
        by (destruct Hh as [Hh| ->]; split; intros E; try discriminate E;
            subst h; discriminate Hh).
      rewrite (parse_special_number neg h rest Hh).
      apply parse_number_iff. now exists c, e.
Qed.

Lemma decimal_literal_nonempty (d : Decimal) : ~ decimal_literal [] d.
Proof.
  intros (a & sg & neg & body & Ha & Hbody & _ & H).
  injection Ha as <-. symmetry in Hbody. apply app_eq_nil in Hbody as [_ ->].
  destruct H as [Hsp|(c & e & Hnum & _)].
  - destruct (special_literal_head _ _ _ Hsp) as (h & rest & E & _). discriminate E.
  - destruct (numeric_literal_head _ _ _ Hnum) as (h & rest & E & _). discriminate E.
Qed.

(** [to_decimal] on text: what it returns, and when. *)
Lemma to_decimal_iff (s : pystr) (d : Decimal) :
  to_decimal (PyStr s) = Returned d <->
  (normalized s = [] /\ d = Fin false 0 0) \/ decimal_literal (normalized s) d.
Proof.
  rewrite to_decimal_normalized.
  destruct (pystr_eqb_spec (normalized s) []) as [E|Hne].
  - rewrite E. split.
    + intros [= <-]. now left.
    + intros [[_ ->]|H]; [reflexivity|]. now apply decimal_literal_nonempty in H.
  - rewrite of_str_iff. unfold normalized at 1. rewrite strip_idem.
    fold (normalized s). split; [now right|]. now intros [[E _]|H].
Qed.

Lemma to_decimal_raises_iff (s : pystr) :
  to_decimal (PyStr s) = Raised InvalidOperation <->
  normalized s <> [] /\ forall d, ~ decimal_literal (normalized s) d.
Proof.
  split.
  - intros H. split.
    + intros E. rewrite to_decimal_normalized, E in H. discriminate H.
    + intros d Hd.
      assert (Hret : to_decimal (PyStr s) = Returned d)
        by (apply to_decimal_iff; now right).
      congruence.
  - intros [Hne Hnot].
    destruct (to_decimal (PyStr s)) as [d|x] eqn:H.
    + apply to_decimal_iff in H as [[E _]|H]; [contradiction|].
      now apply Hnot in H.
    + rewrite to_decimal_normalized in H.
      rewrite pystr_eqb_neq in H by exact Hne.
      now rewrite (of_str_raises _ _ H).
Qed.

(** ** C9: [to_decimal] *)

(** C9, as stated, fails: texts that still contain characters other than
    digits and the separator after normalization are not all refused.  An
    underscore, an exponent marker, and the words NaN and Infinity are
    accepted. *)
Lemma to_decimal_accepts_non_numeric :
  In 95 (normalized (lit "1_000")) /\
  to_decimal (PyStr (lit "1_000")) = Returned (Fin false 1000 0) /\
  In 101 (normalized (lit "1e3")) /\
  to_decimal (PyStr (lit "1e3")) = Returned (Fin false 1 3) /\
  In 78 (normalized (lit "NaN")) /\
  to_decimal (PyStr (lit "NaN")) = Returned (NaN false false 0) /\
  In 73 (normalized (lit "Infinity")) /\
  to_decimal (PyStr (lit "Infinity")) = Returned (Inf false).
Proof. vm_compute. intuition. Qed.

(** C9, amended.  [to_decimal] reads text with either '.' or ',' as the
    fractional separator, with the same exact value for both spellings
    (the digits, at the exponent the fraction gives), also when the
    separator comes first or last; whitespace around the text is ignored;
    the empty text is zero; and the call fails, always with the decimal
    module's InvalidOperation, exactly for the texts that after
    normalization are not empty and not a decimal literal: a sign, then
    digits with at most one point and an optional exponent the library
    can hold, or one of the words Infinity, Inf, NaN and sNaN; underscores
    are ignored.  Whatever it returns is the value the literal denotes.
    In particular it fails for every text that after normalization
    contains a character outside the alphabet of these literals. *)
Theorem to_decimal_reads (s l r ip fp : pystr) (sep c : Z)
    (Hsep : sep = 44 \/ sep = 46)
    (Hip : all_digits ip = true) (Hfp : all_digits fp = true)
    (Hdigits : ip ++ fp <> [])
    (Hlen : Z.of_nat (length (ip ++ fp)) <= 10 ^ 18)
    (Hl : all_space l = true) (Hr : all_space r = true) :
  to_decimal (PyStr (replace_char 44 46 s)) = to_decimal (PyStr s) /\
  to_decimal (PyStr (ip ++ sep :: fp)) =
    Returned (Fin false (digits_value (ip ++ fp)) (- Z.of_nat (length fp))) /\
  to_decimal (PyStr (l ++ s ++ r)) = to_decimal (PyStr s) /\
  to_decimal (PyStr []) = Returned (Fin false 0 0) /\
  to_decimal (PyStr l) = Returned (Fin false 0 0) /\
  (forall d, to_decimal (PyStr s) = Returned d <->
             (normalized s = [] /\ d = Fin false 0 0) \/
             decimal_literal (normalized s) d) /\
  (to_decimal (PyStr s) = Raised InvalidOperation <->
   normalized s <> [] /\ forall d, ~ decimal_literal (normalized s) d) /\
  (In c (normalized s) -> literal_char c = false ->
   to_decimal (PyStr s) = Raised InvalidOperation) /\
  (forall x, to_decimal (PyStr s) = Raised x -> x = InvalidOperation).
Proof.
  split; [now rewrite !to_decimal_normalized, normalized_comma|].
  split; [now apply to_decimal_separator|].
  split; [now rewrite !to_decimal_normalized, normalized_padding|].
  split; [reflexivity|].
  split.
  { rewrite to_decimal_normalized.
    replace (normalized l) with (normalized []); [reflexivity|].
    rewrite <- (normalized_padding l [] [] Hl eq_refl). now rewrite app_nil_r. }
  split; [intros d; apply to_decimal_iff|].
  split; [apply to_decimal_raises_iff|].
  split; [apply to_decimal_rejects|].
  intros x. rewrite to_decimal_normalized.
  destruct (pystr_eqb (normalized s) []); [discriminate|apply of_str_raises].
Qed.

Lemma to_decimal_reads_witness :
  to_decimal (PyStr (replace_char 44 46 (lit "12,50"))) =
    to_decimal (PyStr (lit "12,50")) /\
  to_decimal (PyStr (lit "12,50")) = Returned (Fin false 1250 (-2)) /\
  to_decimal (PyStr (lit "12,")) = Returned (Fin false 12 0) /\
  to_decimal (PyStr (lit ",5")) = Returned (Fin false 5 (-1)) /\
  to_decimal (PyStr (lit " 12,50 ")) = to_decimal (PyStr (lit "12,50")) /\
  to_decimal (PyStr []) = Returned (Fin false 0 0) /\
  to_decimal (PyStr (lit " ")) = Returned (Fin false 0 0) /\
  to_decimal (PyStr (lit "R$ 12,50")) = Raised InvalidOperation /\
  to_decimal (PyStr (lit "ten")) = Raised InvalidOperation /\
  to_decimal (PyStr (lit "12a")) = Raised InvalidOperation /\
  to_decimal (PyStr (lit "1,234.56")) = Raised InvalidOperation /\
  decimal_literal (normalized (lit " 1_000 ")) (Fin false 1000 0).
Proof.
  pose proof (to_decimal_reads (lit "12,50") (lit " ") (lit " ") (lit "12") (lit "50")
                44 0 (or_introl eq_refl) eq_refl eq_refl
                ltac:(discriminate) ltac:(vm_compute; discriminate)
                eq_refl eq_refl) as (H1 & H2 & H3 & H4 & H5 & _).
  pose proof (to_decimal_reads (lit "R$ 12,50") (lit " ") (lit " ") (lit "12") []
                44 82 (or_introl eq_refl) eq_refl eq_refl
                ltac:(discriminate) ltac:(vm_compute; discriminate)
                eq_refl eq_refl) as (_ & H2a & _ & _ & _ & _ & _ & H6 & _).
  pose proof (to_decimal_reads (lit "ten") (lit " ") (lit " ") [] (lit "5")
                44 0 (or_introl eq_refl) eq_refl eq_refl
                ltac:(discriminate) ltac:(vm_compute; discriminate)
                eq_refl eq_refl) as (_ & H2b & _ & _ & _ & Hten & Hten' & _).
  pose proof (to_decimal_reads (lit "12a") (lit " ") (lit " ") (lit "12") (lit "50")
                44 0 (or_introl eq_refl) eq_refl eq_refl
                ltac:(discriminate) ltac:(vm_compute; discriminate)
                eq_refl eq_refl) as (_ & _ & _ & _ & _ & H12a & H12a' & _).
  pose proof (to_decimal_reads (lit "1,234.56") (lit " ") (lit " ") (lit "12") (lit "50")
                44 0 (or_introl eq_refl) eq_refl eq_refl
                ltac:(discriminate) ltac:(vm_compute; discriminate)
                eq_refl eq_refl) as (_ & _ & _ & _ & _ & Hsep & Hsep' & _).
  pose proof (to_decimal_reads (lit " 1_000 ") (lit " ") (lit " ") (lit "12") (lit "50")
                44 0 (or_introl eq_refl) eq_refl eq_refl
                ltac:(discriminate) ltac:(vm_compute; discriminate)
                eq_refl eq_refl) as (_ & _ & _ & _ & _ & Hlit & _).
  split; [exact H1|]. split; [exact H2|]. split; [exact H2a|]. split; [exact H2b|].
  split; [exact H3|]. split; [exact H4|]. split; [exact H5|].
  split; [apply H6; [vm_compute; tauto|reflexivity]|].
  split.
  { apply Hten'. split; [discriminate|]. intros d Hd.
    assert (H : to_decimal (PyStr (lit "ten")) = Returned d)
      by (apply Hten; right; exact Hd).
    vm_compute in H. discriminate H. }
  split.
  { apply H12a'. split; [discriminate|]. intros d Hd.
    assert (H : to_decimal (PyStr (lit "12a")) = Returned d)
      by (apply H12a; right; exact Hd).
    vm_compute in H. discriminate H. }
  split.
  { apply Hsep'. split; [discriminate|]. intros d Hd.
    assert (H : to_decimal (PyStr (lit "1,234.56")) = Returned d)
      by (apply Hsep; right; exact Hd).
    vm_compute in H. discriminate H. }
  destruct (proj1 (Hlit (Fin false 1000 0)) eq_refl) as [[E _]|H];
    [discriminate E|exact H].
Defined.

(** ** C8: the rounding of the amount field *)

(** C8 at an amount of 0.125, with the key, name and city non-empty: the
    amount is greater than zero and round-half-up takes it to 0.13, as the
    rounding step of [money] does; the payload carries 0.12 in field "54",
    because the [quantize] of line 326 is called without a rounding mode
    and so rounds half to even.  On the same input without the tie, 0.126,
    the field is 0.13. *)
Theorem build_pix_payload_amount_half_even_tie :
  let amount := Fin false 125 (-3) in
  gt_zero amount = Returned true /\
  half_up_cents (value amount) = 13 /\
  money_quantize amount = Returned (Fin false 13 (-2)) /\
  quantize amount MONEY_Q ROUND_HALF_EVEN = Returned (Fin false 12 (-2)) /\
  (exists p fields,
     build_pix_payload (lit "abc@bank") (lit "ADEGA") (lit "SAOPAULO")
       (Some amount) (lit "T") = Returned p /\
     tlv_parse p = Some fields /\
     tlv_lookup (lit "54") fields = Some (lit "0.12")) /\
  (exists p fields,
     build_pix_payload (lit "abc@bank") (lit "ADEGA") (lit "SAOPAULO")
       (Some (Fin false 126 (-3))) (lit "T") = Returned p /\
     tlv_parse p = Some fields /\
     tlv_lookup (lit "54") fields = Some (lit "0.13")).
Proof.
  cbv zeta.
  split; [reflexivity|]. split; [reflexivity|]. split; [reflexivity|].
  split; [reflexivity|].
  split; eexists; eexists; (split; [vm_compute; reflexivity|]);
    split; vm_compute; reflexivity.
Qed.

(** ** C4: the derived sale price *)

(** C4 at a cost of 2.50 and a margin of 25 percent: the exact price is
    3.125, which round-half-up takes to 3.13; [upsert] stores 3.12, because
    its [quantize] is called without a rounding mode and so rounds half to
    even.  The rounding step of [money], which names ROUND_HALF_UP, takes
    the same product to 3.13. *)
Theorem upsert_sale_price_half_even_tie :
  upsert_sale_price (PyStr (lit "2.50")) (PyStr (lit "25")) =
    Returned (Fin false 312 (-2)) /\
  upsert_sale_price (PyDecimal (Fin false 250 (-2))) (PyDecimal (Fin false 25 0)) =
    Returned (Fin false 312 (-2)) /\
  half_up_cents
    (value (Fin false 250 (-2)) * (1 + value (Fin false 25 0) / (100 # 1)))%Q = 313 /\
  mul (Fin false 250 (-2)) (Fin false 125 (-2)) = Returned (Fin false 31250 (-4)) /\
  money_quantize (Fin false 31250 (-4)) = Returned (Fin false 313 (-2)).
Proof. vm_compute. intuition. Qed.

(** * Further properties of the code *)

(** ** Digit strings *)

Lemma digits_value_snoc (a : list Z) (d : Z) :
  digits_value (a ++ [d]) = 10 * digits_value a + (d - 48).
Proof. rewrite digits_value_app. reflexivity. Qed.

(** Digit strings of equal length and equal value are equal. *)
Lemma digits_inj (a : list Z) :
  forall b : list Z,
    all_digits a = true -> all_digits b = true ->
    length a = length b -> digits_value a = digits_value b -> a = b.
Proof.
  induction a as [|d a IH] using rev_ind; intros b Ha Hb Hlen Hval.
  - destruct b; [reflexivity|discriminate].
  - destruct b as [|e b _] using rev_ind;
      [rewrite length_app in Hlen; cbn in Hlen; lia|].
    rewrite !length_app in Hlen. cbn [length] in Hlen.
    rewrite !all_digits_app in Ha, Hb.
    apply andb_prop in Ha as [Ha Hd]. apply andb_prop in Hb as [Hb He].
    cbn in Hd, He. rewrite andb_true_r in Hd, He.
    apply is_digit_range in Hd, He.
    rewrite !digits_value_snoc in Hval.
    assert (Hde : d = e) by lia. subst e.
    rewrite (IH b Ha Hb ltac:(lia) ltac:(lia)). reflexivity.
Qed.

Lemma digits_value_app_pow (a b : list Z) :
  digits_value (a ++ b) =
  digits_value a * 10 ^ Z.of_nat (length b) + digits_value b.
Proof.
  induction b as [|d b IH] using rev_ind.
  - rewrite app_nil_r. cbn. lia.
  - rewrite app_assoc, !digits_value_snoc, IH, length_app. cbn [length].
    replace (Z.of_nat (length b + 1)) with (Z.succ (Z.of_nat (length b))) by lia.
    rewrite Z.pow_succ_r by lia. lia.
Qed.

(** [str] of a number is the only digit string of that value without a
    leading zero. *)
Lemma str_nonneg_canonical (ds : list Z) :
  all_digits ds = true -> ds <> [] ->
  length ds = 1%nat \/ 10 ^ (Z.of_nat (length ds) - 1) <= digits_value ds ->
  str_nonneg (digits_value ds) = ds.
Proof.
  intros Hall Hne Hlead.
  pose proof (digits_value_bound ds Hall) as Hb.
  apply digits_inj.
  - apply all_digits_str_nonneg. lia.
  - exact Hall.
  - apply Nat2Z.inj. rewrite str_nonneg_length.
    destruct Hlead as [H1|Hlo].
    + rewrite H1 in *. pose proof (ndigits_pos (digits_value ds) ltac:(lia)).
      pose proof (ndigits_le (digits_value ds) 1 ltac:(lia) ltac:(lia)). lia.
    + apply ndigits_exact; [destruct ds; [congruence|cbn [length]; lia]|lia].
  - apply digits_value_str_nonneg. lia.
Qed.

(** The digits of a number are those of its quotient by 10^k followed by
    the [k] digits of the remainder. *)
Lemma str_nonneg_split (n : Z) (k : nat) :
  (1 <= k)%nat -> 10 ^ Z.of_nat k <= n ->
  str_nonneg n =
  str_nonneg (n / 10 ^ Z.of_nat k) ++ zfill k (str_nonneg (n mod 10 ^ Z.of_nat k)).
Proof.
  intros Hk Hn.
  assert (Hp : 0 < 10 ^ Z.of_nat k) by (apply Z.pow_pos_nonneg; lia).
  set (q := n / 10 ^ Z.of_nat k). set (r := n mod 10 ^ Z.of_nat k).
  assert (Hr : 0 <= r < 10 ^ Z.of_nat k) by (apply Z.mod_pos_bound; lia).
  assert (Hq : 0 < q) by (apply Z.div_str_pos; lia).
  assert (Hqr : n = q * 10 ^ Z.of_nat k + r)
    by (subst q r; rewrite Z.mul_comm; apply Z.div_mod; lia).
  assert (Hlen : length (zfill k (str_nonneg r)) = k).
  { rewrite zfill_length. pose proof (str_nonneg_length r).
    pose proof (ndigits_le r (Z.of_nat k) Hr ltac:(lia)). lia. }
  assert (Hval : digits_value (str_nonneg q ++ zfill k (str_nonneg r)) = n).
  { rewrite digits_value_app_pow, Hlen. unfold zfill.
    rewrite digits_value_zeros, !digits_value_str_nonneg by lia. lia. }
  rewrite <- Hval at 1. apply str_nonneg_canonical.
  - rewrite all_digits_app, all_digits_zfill by (apply all_digits_str_nonneg; lia).
    now rewrite all_digits_str_nonneg by lia.
  - pose proof (str_nonneg_nonempty q). destruct (str_nonneg q); [cbn in *; lia|discriminate].
  - right. rewrite Hval, length_app, Hlen, Nat2Z.inj_add, str_nonneg_length.
    pose proof (ndigits_lower q Hq) as Hlo.
    pose proof (ndigits_pos q ltac:(lia)).
    replace (ndigits q + Z.of_nat k - 1) with (ndigits q - 1 + Z.of_nat k) by lia.
    rewrite Z.pow_add_r by lia. nia.
Qed.

(** ** [money] *)

Lemma separated_short (sep : Z) (ds : pystr) :
  (length ds <= 3)%nat -> separated sep ds = ds.
Proof.
  destruct ds as [|a [|b [|c [|d ds]]]]; cbn [length]; intros H;
    [reflexivity..|lia].
Qed.

Lemma separated_app3 (sep : Z) (a b : pystr) :
  a <> [] -> length b = 3%nat ->
  separated sep (a ++ b) = separated sep a ++ sep :: b.
Proof.
  intros Ha Hb. induction a as [|d a IH]; [congruence|].
  destruct a as [|d' a].
  - cbn [app separated length]. rewrite Hb, separated_short by lia. reflexivity.
  - specialize (IH ltac:(discriminate)).
    change ((d :: d' :: a) ++ b) with (d :: ((d' :: a) ++ b)).
    cbn [separated]. rewrite IH, length_app, Hb.
    replace (length (d' :: a) + 3)%nat with (length (d' :: a) + 1 * 3)%nat by lia.
    rewrite Nat.Div0.mod_add.
    replace (0 <? length (d' :: a) + 1 * 3)%nat with true
      by (symmetry; apply Nat.ltb_lt; lia).
    replace (0 <? length (d' :: a))%nat with true
      by (symmetry; apply Nat.ltb_lt; cbn [length]; lia).
    cbn [andb]. destruct (length (d' :: a) mod 3 =? 0)%nat; reflexivity.
Qed.

(** The grouping loop of [format] puts a comma before every group of
    three digits counted from the right. *)
Lemma thousands_groups_spec (fuel : nat) :
  forall (digits : pystr) (groups : list pystr),
    digits <> [] -> (length digits < fuel)%nat ->
    join (lit ",") (thousands_groups fuel digits groups) =
    separated 44 digits
      ++ match groups with [] => [] | _ => 44 :: join (lit ",") groups end.
Proof.
  induction fuel as [|f IH]; intros digits groups Hne Hlen; [lia|].
  cbn [thousands_groups].
  assert (Hpos : (0 < length digits)%nat) by (destruct digits; [congruence|cbn; lia]).
  destruct (Nat.le_gt_cases (length digits) 3) as [Hshort|Hlong].
  - replace (Nat.min (Nat.max (length digits) 1) 3) with (length digits) by lia.
    rewrite !Nat.sub_diag. cbn [repeat firstn skipn app truthy].
    rewrite separated_short by assumption.
    destruct groups; [cbn; now rewrite app_nil_r|reflexivity].
  - replace (Nat.min (Nat.max (length digits) 1) 3) with 3%nat by lia.
    replace (3 - length digits)%nat with 0%nat by lia. cbn [repeat app].
    set (n := (length digits - 3)%nat).
    assert (Hhead : firstn n digits <> []).
    { intros H. apply (f_equal (@length Z)) in H.
      rewrite length_firstn in H. cbn in H. lia. }
    assert (Htruthy : truthy (firstn n digits) = true)
      by (destruct (firstn n digits); [congruence|reflexivity]).
    rewrite Htruthy.
    rewrite IH by (try assumption; rewrite length_firstn; lia).
    rewrite <- (firstn_skipn n digits) at 3.
    rewrite separated_app3 by (try assumption; rewrite length_skipn; lia).
    rewrite <- app_assoc. f_equal. cbn [app]. f_equal.
    destruct groups; [cbn [join]; now rewrite app_nil_r|reflexivity].
Qed.

Lemma insert_thousands_sep_spec (digits : pystr) :
  digits <> [] -> _insert_thousands_sep digits = separated 44 digits.
Proof.
  intros Hne. unfold _insert_thousands_sep.
  rewrite thousands_groups_spec by (try assumption; lia). apply app_nil_r.
Qed.

(** *** Values in hundredths *)

Lemma pow10_Q (k : Z) : 0 <= k -> ((10 # 1) ^ k == inject_Z (10 ^ k))%Q.
Proof. intros Hk. rewrite Zpower_Qpower by assumption. reflexivity. Qed.

Lemma pow10_Q_neg (k : Z) : 0 <= k -> ((10 # 1) ^ (- k) == / inject_Z (10 ^ k))%Q.
Proof. intros Hk. rewrite Qpower_opp, pow10_Q by assumption. reflexivity. Qed.

Lemma inject_Z_pow10_nonzero (k : Z) : 0 <= k -> ~ (inject_Z (10 ^ k) == 0)%Q.
Proof.
  intros Hk H. assert (0 < 10 ^ k) by (apply Z.pow_pos_nonneg; lia).
  unfold Qeq, inject_Z in H. cbn [Qnum Qden] in H. lia.
Qed.

(** The magnitude of a finite value, in hundredths, as a quotient of
    integers. *)
Lemma abs_value_hundredths (s : bool) (c e : Z) :
  0 <= c ->
  (Qabs (value (Fin s c e)) * (100 # 1) ==
   if -2 <=? e then inject_Z (c * 10 ^ (e + 2))
   else inject_Z c / inject_Z (10 ^ (-2 - e)))%Q.
Proof.
  intros Hc. cbn [value]. rewrite Qabs_Qmult.
  assert (Habs : (Qabs (inject_Z (if s then - c else c)) == inject_Z c)%Q).
  { assert (Hq : (0 <= inject_Z c)%Q)
      by (change 0%Q with (inject_Z 0); rewrite <- Zle_Qle; assumption).
    destruct s; [rewrite inject_Z_opp, Qabs_opp|]; now apply Qabs_pos. }
  rewrite Habs.
  rewrite (Qabs_pos ((10 # 1) ^ e)) by (apply Qlt_le_weak, Qpower_0_lt; reflexivity).
  destruct (Z.leb_spec (-2) e) as [Hhi|Hlo].
  - replace e with ((e + 2) + - (2)) at 1 by lia.
    rewrite Qpower_plus by discriminate.
    rewrite pow10_Q by lia. rewrite inject_Z_mult.
    change ((10 # 1) ^ (- (2)))%Q with (1 # 100)%Q. field.
  - replace e with (- (-2 - e) + - (2)) at 1 by lia.
    rewrite Qpower_plus by discriminate.
    rewrite pow10_Q_neg by lia.
    change ((10 # 1) ^ (- (2)))%Q with (1 # 100)%Q.
    field. apply inject_Z_pow10_nonzero. lia.
Qed.

Lemma sgn_value (s : bool) (c e : Z) :
  Z.sgn (Qnum (value (Fin s c e))) = Z.sgn (if s then - c else c).
Proof.
  cbn [value].
  change (Qnum (inject_Z (if s then - c else c) * (10 # 1) ^ e))
    with ((if s then - c else c) * Qnum ((10 # 1) ^ e)).
  rewrite Z.sgn_mul.
  assert (Hpos : (0 < (10 # 1) ^ e)%Q) by (apply Qpower_0_lt; reflexivity).
  unfold Qlt in Hpos. cbn [Qnum Qden] in Hpos.
  rewrite (Z.sgn_pos (Qnum ((10 # 1) ^ e))) by lia. lia.
Qed.

Lemma Qfloor_quotient (n m : Z) : Qfloor (inject_Z n / inject_Z m) = n / m.
Proof. symmetry. apply Zdiv_Qdiv. Qed.

Lemma Qfloor_half_up (n d : Z) :
  0 < d -> Qfloor (inject_Z n / inject_Z d + (1 # 2)) = (2 * n + d) / (2 * d).
Proof.
  intros Hd. rewrite <- Qfloor_quotient. apply Qfloor_comp.
  rewrite inject_Z_plus, !inject_Z_mult. field.
  intros H. unfold Qeq, inject_Z in H. cbn [Qnum Qden] in H. lia.
Qed.

Lemma half_up_cents_fin (s : bool) (c e : Z) :
  0 <= c ->
  Z.abs (half_up_cents (value (Fin s c e))) =
  if -2 <=? e then c * 10 ^ (e + 2)
  else (2 * c + 10 ^ (-2 - e)) / (2 * 10 ^ (-2 - e)).
Proof.
  intros Hc. unfold half_up_cents. rewrite sgn_value.
  assert (Hfloor : Qfloor (Qabs (value (Fin s c e)) * (100 # 1) + (1 # 2)) =
                   if -2 <=? e then c * 10 ^ (e + 2)
                   else (2 * c + 10 ^ (-2 - e)) / (2 * 10 ^ (-2 - e))).
  { erewrite Qfloor_comp
      by (apply Qplus_comp; [apply abs_value_hundredths; assumption|reflexivity]).
    destruct (Z.leb_spec (-2) e) as [Hhi|Hlo].
    - apply Qfloor_half.
    - apply Qfloor_half_up, Z.pow_pos_nonneg; lia. }
  rewrite Hfloor.
  destruct (Z.leb_spec (-2) e) as [Hhi|Hlo].
  - assert (0 <= 10 ^ (e + 2)) by (apply Z.pow_nonneg; lia).
    destruct s; nia.
  - assert (HD : 0 < 10 ^ (-2 - e)) by (apply Z.pow_pos_nonneg; lia).
    assert (0 <= (2 * c + 10 ^ (-2 - e)) / (2 * 10 ^ (-2 - e)))
      by (apply Z.div_pos; lia).
    destruct (Z.eq_dec c 0) as [->|Hnz].
    + rewrite Z.div_small by lia. destruct s; reflexivity.
    + destruct s; nia.
Qed.

(** *** The rounding of [quantize] at two fractional digits *)

Lemma pow10_half (k : Z) : 1 <= k -> 10 ^ k = 2 * (5 * 10 ^ (k - 1)).
Proof.
  intros Hk. replace k with (Z.succ (k - 1)) at 1 by lia.
  rewrite Z.pow_succ_r by lia. lia.
Qed.

Lemma below_last_place (c k : Z) :
  0 < c -> ndigits c < k -> 2 * c < 10 ^ k.
Proof.
  intros Hc Hk. pose proof (ndigits_upper c ltac:(lia)) as Hup.
  pose proof (ndigits_pos c ltac:(lia)).
  assert (10 ^ ndigits c <= 10 ^ (k - 1)) by (apply Z.pow_le_mono_r; lia).
  rewrite (pow10_half k) by lia. lia.
Qed.

Lemma rescale_half_up (c e : Z) :
  0 < c -> e < -2 ->
  _rescale ROUND_HALF_UP c e (-2) =
  (2 * c + 10 ^ (-2 - e)) / (2 * 10 ^ (-2 - e)).
Proof.
  intros Hc He. unfold _rescale, round_coef.
  destruct (Z.leb_spec (-2) e); [lia|].
  set (k := -2 - e). assert (Hk : 1 <= k) by (subst k; lia).
  assert (HD : 0 < 10 ^ k) by (apply Z.pow_pos_nonneg; lia).
  destruct (Z.ltb_spec (ndigits c + e - -2) 0) as [Hsmall|Hdig].
  - pose proof (below_last_place c k Hc ltac:(subst k; lia)).
    rewrite (Z.div_small (2 * c + 10 ^ k)) by lia. reflexivity.
  - cbn [_pick_rounding_function]. unfold _round_half_up.
    pose proof (pow10_half k Hk) as Hhalf.
    set (half := 5 * 10 ^ (k - 1)) in *.
    pose proof (Z.div_mod c (10 ^ k) ltac:(lia)) as Hdm.
    pose proof (Z.mod_pos_bound c (10 ^ k) HD) as Hr.
    set (q := c / 10 ^ k) in *. set (r := c mod 10 ^ k) in *.
    destruct (Z.leb_spec half r) as [Hup|Hdown].
    + cbn [Z.ltb Z.compare].
      apply (Z.div_unique _ _ _ (2 * r - 10 ^ k)); lia.
    + replace (0 <? (if r =? 0 then 0 else -1)) with false
        by (destruct (r =? 0); reflexivity).
      apply (Z.div_unique _ _ _ (2 * r + 10 ^ k)); lia.
Qed.

Lemma rescale_half_even (c e : Z) :
  0 < c -> e < -2 ->
  _rescale ROUND_HALF_EVEN c e (-2) =
  match 2 * (c mod 10 ^ (-2 - e)) ?= 10 ^ (-2 - e) with
  | Lt => c / 10 ^ (-2 - e)
  | Gt => c / 10 ^ (-2 - e) + 1
  | Eq => if Z.even (c / 10 ^ (-2 - e))
          then c / 10 ^ (-2 - e) else c / 10 ^ (-2 - e) + 1
  end.
Proof.
  intros Hc He. unfold _rescale, round_coef.
  destruct (Z.leb_spec (-2) e); [lia|].
  set (k := -2 - e). assert (Hk : 1 <= k) by (subst k; lia).
  assert (HD : 0 < 10 ^ k) by (apply Z.pow_pos_nonneg; lia).
  destruct (Z.ltb_spec (ndigits c + e - -2) 0) as [Hsmall|Hdig].
  - pose proof (below_last_place c k Hc ltac:(subst k; lia)).
    rewrite (Z.mod_small c) by lia. rewrite (Z.div_small c) by lia.
    destruct (Z.compare_spec (2 * c) (10 ^ k)); try lia. reflexivity.
  - cbn [_pick_rounding_function]. unfold _round_half_even, _round_half_up.
    pose proof (pow10_half k Hk) as Hhalf.
    set (half := 5 * 10 ^ (k - 1)) in *.
    pose proof (Z.mod_pos_bound c (10 ^ k) HD) as Hr.
    set (q := c / 10 ^ k) in *. set (r := c mod 10 ^ k) in *.
    destruct (Z.compare_spec (2 * r) (10 ^ k)) as [Heq|Hlt|Hgt].
    + replace (r =? half) with true by (symmetry; apply Z.eqb_eq; lia).
      destruct (Z.even q); cbn [andb].
      * reflexivity.
      * replace (half <=? r) with true by (symmetry; apply Z.leb_le; lia).
        reflexivity.
    + replace (r =? half) with false by (symmetry; apply Z.eqb_neq; lia).
      replace (half <=? r) with false by (symmetry; apply Z.leb_gt; lia).
      cbn [andb]. destruct (r =? 0); reflexivity.
    + replace (r =? half) with false by (symmetry; apply Z.eqb_neq; lia).
      replace (half <=? r) with true by (symmetry; apply Z.leb_le; lia).
      reflexivity.
Qed.

Lemma rescale_lower (r : rounding) (c e : Z) :
  0 < c ->
  (if -2 <=? e then c * 10 ^ (e + 2) else c / 10 ^ (-2 - e))
  <= _rescale r c e (-2).
Proof.
  intros Hc. destruct (Z.leb_spec (-2) e) as [Hhi|Hlo].
  - unfold _rescale. destruct (Z.leb_spec (-2) e); [|lia].
    replace (e - -2) with (e + 2) by lia. lia.
  - assert (HD : 0 < 10 ^ (-2 - e)) by (apply Z.pow_pos_nonneg; lia).
    destruct r.
    + rewrite rescale_half_even by assumption.
      destruct (2 * (c mod 10 ^ (-2 - e)) ?= 10 ^ (-2 - e));
        [destruct (Z.even _)|..]; lia.
    + rewrite rescale_half_up by assumption.
      apply Z.div_le_lower_bound; [lia|].
      pose proof (Z.mul_div_le c (10 ^ (-2 - e)) HD). nia.
Qed.

Lemma ndigits_bound_iff (n : Z) : 0 <= n -> (ndigits n <= prec <-> n < 10 ^ prec).
Proof.
  intros Hn. split; intros H.
  - pose proof (ndigits_upper n Hn).
    assert (10 ^ ndigits n <= 10 ^ prec) by (apply Z.pow_le_mono_r; lia). lia.
  - apply ndigits_le; [lia|unfold prec; lia].
Qed.

(** [quantize] at [MONEY_Q] returns the rescaled coefficient when it has
    at most 28 digits and raises InvalidOperation otherwise. *)
Lemma quantize_money_total (r : rounding) (s : bool) (c e : Z) :
  0 < c ->
  quantize (Fin s c e) MONEY_Q r =
  if _rescale r c e (-2) <? 10 ^ prec
  then Returned (Fin s (_rescale r c e (-2)) (-2))
  else Raised InvalidOperation.
Proof.
  intros Hc.
  pose proof (rescale_lower r c e Hc) as Hlow.
  pose proof (ndigits_lower c Hc) as Hclo.
  pose proof (ndigits_pos c ltac:(lia)) as Hnd.
  set (c' := _rescale r c e (-2)) in *.
  assert (Hbig : prec < ndigits c + e + 2 -> 10 ^ prec <= c').
  { intros Hover. destruct (Z.leb_spec (-2) e) as [Hhi|Hlo].
    - assert (10 ^ prec <= 10 ^ (ndigits c - 1) * 10 ^ (e + 2)).
      { rewrite <- Z.pow_add_r by lia. apply Z.pow_le_mono_r; lia. }
      assert (0 < 10 ^ (e + 2)) by (apply Z.pow_pos_nonneg; lia). nia.
    - assert (HD : 0 < 10 ^ (-2 - e)) by (apply Z.pow_pos_nonneg; lia).
      assert (10 ^ prec <= c / 10 ^ (-2 - e)); [|lia].
      apply Z.div_le_lower_bound; [lia|].
      assert (10 ^ (-2 - e) * 10 ^ prec <= 10 ^ (ndigits c - 1)); [|lia].
      rewrite <- Z.pow_add_r by (unfold prec; lia).
      apply Z.pow_le_mono_r; unfold prec in *; lia. }
  assert (Hc' : 0 <= c').
  { destruct (Z.leb_spec (-2) e).
    - assert (0 <= 10 ^ (e + 2)) by (apply Z.pow_nonneg; lia). nia.
    - assert (0 <= c / 10 ^ (-2 - e)); [|lia].
      apply Z.div_pos; [lia|apply Z.pow_pos_nonneg; lia]. }
  pose proof (ndigits_bound_iff c' Hc') as Hiff.
  unfold quantize, MONEY_Q. cbn [_check_nans].
  replace (negb ((Etiny <=? -2) && (-2 <=? Emax))) with false by reflexivity.
  destruct (Z.eqb_spec c 0); [lia|]. fold c'.
  destruct (Z.ltb_spec c' (10 ^ prec)) as [Hfit|Hover].
  - destruct (Z.ltb_spec Emax (ndigits c - 1 + e));
      [unfold Emax, prec in *; lia|].
    destruct (Z.ltb_spec prec (ndigits c - 1 + e - -2 + 1)); [lia|].
    destruct (Z.ltb_spec Emax (ndigits c' - 1 + -2));
      [unfold Emax, prec in *; lia|].
    destruct (Z.ltb_spec prec (ndigits c')); [lia|].
    apply fix_by_digits; [lia|unfold Etiny, Etop, Emin, Emax, prec; lia].
  - destruct (Emax <? ndigits c - 1 + e); [reflexivity|].
    destruct (prec <? ndigits c - 1 + e - -2 + 1); [reflexivity|].
    destruct (Emax <? ndigits c' - 1 + -2); [reflexivity|].
    destruct (Z.ltb_spec prec (ndigits c')); [reflexivity|lia].
Qed.

Lemma quantize_money_zero (r : rounding) (s : bool) (e : Z) :
  quantize (Fin s 0 e) MONEY_Q r = Returned (Fin s 0 (-2)).
Proof. reflexivity. Qed.

(** [money] rounds half-up: what [quantize] keeps is the magnitude of the
    value rounded to cents, ties away from zero. *)
Lemma money_quantize_half_up (s : bool) (c e : Z) :
  0 <= c ->
  money_quantize (Fin s c e) =
  if Z.abs (half_up_cents (value (Fin s c e))) <? 10 ^ prec
  then Returned (Fin s (Z.abs (half_up_cents (value (Fin s c e)))) (-2))
  else Raised InvalidOperation.
Proof.
  intros Hc. unfold money_quantize. rewrite half_up_cents_fin by assumption.
  destruct (Z.eq_dec c 0) as [->|Hnz].
  - rewrite quantize_money_zero.
    destruct (Z.leb_spec (-2) e).
    + rewrite Z.mul_0_l. reflexivity.
    + assert (0 < 10 ^ (-2 - e)) by (apply Z.pow_pos_nonneg; lia).
      rewrite Z.div_small by lia. reflexivity.
  - rewrite quantize_money_total by lia.
    assert (Hres : _rescale ROUND_HALF_UP c e (-2) =
                   if -2 <=? e then c * 10 ^ (e + 2)
                   else (2 * c + 10 ^ (-2 - e)) / (2 * 10 ^ (-2 - e))).
    { destruct (Z.leb_spec (-2) e) as [Hhi|Hlo].
      - unfold _rescale. destruct (Z.leb_spec (-2) e); [|lia].
        now replace (e - -2) with (e + 2) by lia.
      - apply rescale_half_up; lia. }
    rewrite Hres. reflexivity.
Qed.

(** *** The text of an amount *)

Lemma str_nonneg_zero : str_nonneg 0 = lit "0".
Proof. reflexivity. Qed.

Lemma format_comma_2f_amount (s : bool) (n : Z) :
  0 <= n ->
  format_comma_2f (Fin s n (-2)) =
  (if s then lit "-" else []) ++ separated 44 (str_nonneg (n / 100))
    ++ lit "." ++ zfill 2 (str_nonneg (n mod 100)).
Proof.
  intros Hn. unfold format_comma_2f.
  replace (if n =? 0 then 0 else _rescale ROUND_HALF_EVEN n (-2) (-2)) with n
    by (destruct (Z.eqb_spec n 0); [lia|now rewrite rescale_same]).
  f_equal.
  pose proof (str_nonneg_length n) as Hlen.
  pose proof (ndigits_pos n Hn) as Hpos.
  destruct (Z.lt_ge_cases n 100) as [Hsmall|Hlarge].
  - rewrite Z.div_small, Z.mod_small, str_nonneg_zero by lia.
    pose proof (ndigits_le n 2 ltac:(lia) ltac:(lia)) as Hle.
    destruct (Z.ltb_spec (ndigits n - 2) 0) as [Hone|Htwo].
    + rewrite insert_thousands_sep_spec by discriminate.
      unfold zfill. replace (Z.to_nat (- (ndigits n - 2))) with (2 - length (str_nonneg n))%nat by lia.
      reflexivity.
    + replace (Z.to_nat (ndigits n - 2)) with 0%nat by lia.
      cbn [firstn skipn py_or truthy].
      rewrite insert_thousands_sep_spec by discriminate.
      unfold zfill. replace (2 - length (str_nonneg n))%nat with 0%nat by lia.
      reflexivity.
  - pose proof (str_nonneg_split n 2 ltac:(lia) ltac:(cbn; lia)) as Hsplit.
    change (10 ^ Z.of_nat 2) with 100 in Hsplit.
    assert (Hq : 0 < n / 100) by (apply Z.div_str_pos; lia).
    assert (Hr : 0 <= n mod 100 < 100) by (apply Z.mod_pos_bound; lia).
    assert (Hz : length (zfill 2 (str_nonneg (n mod 100))) = 2%nat).
    { rewrite zfill_length. pose proof (str_nonneg_length (n mod 100)).
      pose proof (ndigits_le (n mod 100) 2 ltac:(lia) ltac:(lia)). lia. }
    pose proof (str_nonneg_nonempty (n / 100)) as Hne.
    assert (Hdot : Z.to_nat (ndigits n - 2) = length (str_nonneg (n / 100))).
    { rewrite <- Hlen, Hsplit, length_app, Hz. lia. }
    destruct (Z.ltb_spec (ndigits n - 2) 0) as [Hneg|_]; [lia|].
    rewrite Hdot, Hsplit.
    rewrite firstn_app, firstn_all, Nat.sub_diag, app_nil_r.
    rewrite skipn_app, skipn_all, Nat.sub_diag. cbn [firstn skipn app].
    assert (Htr : py_or (str_nonneg (n / 100)) (lit "0") = str_nonneg (n / 100)).
    { unfold py_or. destruct (str_nonneg (n / 100)); [cbn in Hne; lia|reflexivity]. }
    rewrite Htr, insert_thousands_sep_spec; [reflexivity|].
    destruct (str_nonneg (n / 100)); [cbn in Hne; lia|discriminate].
Qed.

Lemma replace_char_cons (a b c : Z) (s : pystr) :
  replace_char a b (c :: s) = (if c =? a then b else c) :: replace_char a b s.
Proof. reflexivity. Qed.

(** The three replacements exchange the comma and the point: the text
    holds no [X] of its own. *)
Lemma swap_digit (d : Z) (s : pystr) :
  is_digit d = true ->
  replace_char 88 46 (replace_char 46 44 (replace_char 44 88 (d :: s))) =
  d :: replace_char 88 46 (replace_char 46 44 (replace_char 44 88 s)).
Proof.
  intros Hd. apply is_digit_range in Hd. rewrite !replace_char_cons.
  destruct (Z.eqb_spec d 44); [lia|].
  destruct (Z.eqb_spec d 46); [lia|].
  destruct (Z.eqb_spec d 88); [lia|reflexivity].
Qed.

Lemma swap_digits (ds : pystr) :
  all_digits ds = true ->
  replace_char 88 46 (replace_char 46 44 (replace_char 44 88 ds)) = ds.
Proof.
  induction ds as [|d ds IH]; [reflexivity|].
  cbn [all_digits forallb]. intros H. apply andb_prop in H as [Hd Hds].
  rewrite swap_digit by assumption. now rewrite (IH Hds).
Qed.

Lemma swap_separated (ds : pystr) :
  all_digits ds = true ->
  replace_char 88 46 (replace_char 46 44 (replace_char 44 88 (separated 44 ds))) =
  separated 46 ds.
Proof.
  induction ds as [|d ds IH]; [reflexivity|].
  cbn [all_digits forallb]. intros H. apply andb_prop in H as [Hd Hds].
  specialize (IH Hds). cbn [separated]. rewrite swap_digit by assumption.
  destruct ((0 <? length ds)%nat && (length ds mod 3 =? 0)%nat).
  - rewrite !replace_char_cons. cbn [Z.eqb Pos.eqb]. now rewrite IH.
  - now rewrite IH.
Qed.

Lemma money_amount (s : bool) (n : Z) :
  0 <= n ->
  replace_char 88 46 (replace_char 46 44 (replace_char 44 88
    (lit "R$ " ++ format_comma_2f (Fin s n (-2))))) = brl s n.
Proof.
  intros Hn. rewrite format_comma_2f_amount by assumption. unfold brl.
  assert (Hr : 0 <= n mod 100 < 100) by (apply Z.mod_pos_bound; lia).
  assert (Hq : 0 <= n / 100) by (apply Z.div_pos; lia).
  rewrite !replace_char_app.
  rewrite swap_separated by (apply all_digits_str_nonneg; lia).
  rewrite (swap_digits (zfill 2 (str_nonneg (n mod 100))))
    by (apply all_digits_zfill, all_digits_str_nonneg; lia).
  destruct s; reflexivity.
Qed.

(** X1.  [money] on a finite amount: the magnitude is rounded to cents
    with ties away from zero; if the rounded amount has at most 28 digits
    the result is "R$ ", a minus sign when the argument carries one (even
    if it rounds to zero), the reais in groups of three separated by
    points, a comma and two digits of centavos; otherwise the call raises
    InvalidOperation. *)
Theorem money_renders (s : bool) (c e : Z) (Hc : 0 <= c) :
  money (Fin s c e) =
  if Z.abs (half_up_cents (value (Fin s c e))) <? 10 ^ prec
  then Returned (brl s (Z.abs (half_up_cents (value (Fin s c e)))))
  else Raised InvalidOperation.
Proof.
  unfold money. rewrite money_quantize_half_up by assumption.
  destruct (Z.abs (half_up_cents (value (Fin s c e))) <? 10 ^ prec);
    [|reflexivity].
  cbn [bind]. f_equal. apply money_amount. apply Z.abs_nonneg.
Qed.

Lemma money_renders_witness :
  0 <= 1234567895 /\
  money (Fin false 1234567895 (-3)) = Returned (lit "R$ 1.234.567,90") /\
  money (Fin true 4 (-3)) = Returned (lit "R$ -0,00").
Proof.
  split; [lia|]. split.
  - rewrite (money_renders false 1234567895 (-3)) by lia. reflexivity.
  - rewrite (money_renders true 4 (-3)) by lia. reflexivity.
Defined.

(** X2.  [money] on the special values: a quiet NaN is not refused, it is
    printed as "R$ " followed by its [str] ("R$ NaN"); an infinity and a
    signaling NaN raise InvalidOperation. *)
Theorem money_special (s : bool) (p : Z) (Hp : 0 <= p < 10 ^ prec) :
  money (NaN s false p) = Returned (lit "R$ " ++ to_str (NaN s false p)) /\
  money (NaN s true p) = Raised InvalidOperation /\
  money (Inf s) = Raised InvalidOperation.
Proof.
  split; [|split; reflexivity].
  unfold money, money_quantize, quantize, MONEY_Q. cbn [_check_nans bind].
  unfold _fix_nan. rewrite Z.mod_small by assumption.
  f_equal. cbn [format_comma_2f to_str].
  rewrite !replace_char_app.
  destruct (p =? 0); [destruct s; reflexivity|].
  rewrite (swap_digits (str_nonneg p)) by (apply all_digits_str_nonneg; lia).
  destruct s; reflexivity.
Qed.

Lemma money_special_witness :
  0 <= 123 < 10 ^ prec /\
  money (NaN false false 123) = Returned (lit "R$ NaN123") /\
  money (NaN false true 123) = Raised InvalidOperation /\
  money (Inf false) = Raised InvalidOperation.
Proof.
  split; [split; [lia|reflexivity]|].
  apply (money_special false 123). split; [lia|reflexivity].
Defined.

(** ** [str] and [to_decimal] *)

Lemma number_char_cases (c : Z) :
  number_char c = true -> 48 <= c <= 57 \/ c = 43 \/ c = 45 \/ c = 46 \/ c = 69.
Proof.
  unfold number_char. intros H.
  repeat (apply orb_prop in H as [H|H]);
    [apply is_digit_range in H|apply Z.eqb_eq in H..]; lia.
Qed.

Lemma number_text_app (a b : pystr) :
  number_text (a ++ b) = number_text a && number_text b.
Proof. apply forallb_app. Qed.

Lemma number_text_digits (s : pystr) : all_digits s = true -> number_text s = true.
Proof.
  unfold all_digits, number_text. intros H. rewrite forallb_forall in *.
  intros c Hc. unfold number_char. now rewrite (H c Hc).
Qed.

Lemma number_text_zeros (k : nat) : number_text (repeat 48 k) = true.
Proof. induction k; [reflexivity|exact IHk]. Qed.

(** A number text passes the normalisation of [to_decimal] and the
    transliteration of [Decimal] unchanged. *)
Lemma number_text_kept (s : pystr) :
  number_text s = true -> normalized s = s /\ as_ascii (strip s) = Some s.
Proof.
  intros H. unfold number_text in H. rewrite forallb_forall in H.
  assert (Hcomma : replace_char 44 46 s = s).
  { unfold replace_char. rewrite <- (map_id s) at 2. apply map_ext_in.
    intros c Hc. apply H, number_char_cases in Hc.
    destruct (Z.eqb_spec c 44); [lia|reflexivity]. }
  assert (Hspace : no_space s = true).
  { unfold no_space. apply forallb_forall. intros c Hc.
    apply H, number_char_cases in Hc.
    destruct (isspace c) eqn:E; [|reflexivity].
    apply isspace_range in E. lia. }
  assert (Hplain : plain_ascii s = true).
  { unfold plain_ascii. apply forallb_forall. intros c Hc.
    apply H, number_char_cases in Hc.
    destruct (Z.ltb_spec 0 c); [|lia]. destruct (Z.leb_spec c 127); [|lia].
    destruct (Z.eqb_spec c 95); [lia|reflexivity]. }
  unfold normalized. rewrite Hcomma, strip_no_space by assumption.
  split; [reflexivity|now apply as_ascii_plain].
Qed.

Lemma parse_sign_minus (r : list Z) : parse_sign (lit "-" ++ r) = (true, r).
Proof. reflexivity. Qed.

Lemma parse_sign_plus (r : list Z) : parse_sign (lit "+" ++ r) = (false, r).
Proof. reflexivity. Qed.

Lemma parse_sign_digit (c : Z) (r : list Z) :
  is_digit c = true -> parse_sign (c :: r) = (false, c :: r).
Proof.
  intros Hc. apply is_digit_range in Hc. unfold parse_sign.
  destruct (Z.eqb_spec c 43); [lia|]. destruct (Z.eqb_spec c 45); [lia|reflexivity].
Qed.

Lemma parse_exponent_fmt (x : Z) : parse_exponent (fmt_plus_d x) = Some x.
Proof.
  unfold parse_exponent, fmt_plus_d.
  assert (Hspan : span_digits (str_nonneg (Z.abs x)) = (str_nonneg (Z.abs x), [])).
  { rewrite <- (app_nil_r (str_nonneg (Z.abs x))) at 1.
    apply span_digits_app; [apply all_digits_str_nonneg; lia|exact I]. }
  pose proof (str_nonneg_nonempty (Z.abs x)) as Hne.
  pose proof (digits_value_str_nonneg (Z.abs x) ltac:(lia)) as Hval.
  destruct (Z.ltb_spec x 0);
    rewrite ?parse_sign_minus, ?parse_sign_plus, Hspan;
    destruct (str_nonneg (Z.abs x)) as [|d ds]; try (cbn in Hne; lia);
    rewrite Hval; f_equal; lia.
Qed.

Lemma number_text_fmt_plus_d (x : Z) : number_text (fmt_plus_d x) = true.
Proof.
  unfold fmt_plus_d. rewrite number_text_app.
  rewrite (number_text_digits (str_nonneg (Z.abs x)))
    by (apply all_digits_str_nonneg; lia).
  destruct (x <? 0); reflexivity.
Qed.

(** What [Decimal] reads from a sign, digits, an optional fraction and an
    optional exponent. *)
Lemma of_str_number (sg : bool) (ip fp : list Z) (ex : option Z) :
  all_digits ip = true -> all_digits fp = true -> ip <> [] ->
  of_str ((if sg then lit "-" else []) ++ ip
          ++ match fp with [] => [] | _ => 46 :: fp end
          ++ match ex with None => [] | Some x => 69 :: fmt_plus_d x end) =
  exact_finite sg (digits_value (ip ++ fp))
    (match ex with Some x => x | None => 0 end - Z.of_nat (length fp)).
Proof.
  intros Hip Hfp Hne.
  set (expo := match ex with None => [] | Some x => 69 :: fmt_plus_d x end).
  set (frac := match fp with [] => [] | _ => 46 :: fp end).
  assert (Hexpo : number_text expo = true).
  { subst expo. destruct ex; [|reflexivity].
    change (69 :: fmt_plus_d z) with ([69] ++ fmt_plus_d z).
    now rewrite number_text_app, number_text_fmt_plus_d. }
  assert (Hfrac : number_text frac = true).
  { subst frac. destruct fp as [|d fp']; [reflexivity|].
    change (46 :: d :: fp') with ([46] ++ d :: fp').
    now rewrite number_text_app, (number_text_digits (d :: fp')). }
  assert (Htext : number_text ((if sg then lit "-" else []) ++ ip ++ frac ++ expo) = true).
  { rewrite !number_text_app, Hfrac, Hexpo, (number_text_digits ip) by assumption.
    destruct sg; reflexivity. }
  destruct (number_text_kept _ Htext) as [_ Hascii].
  unfold of_str. rewrite Hascii.
  destruct ip as [|c ip']; [congruence|].
  assert (Hc : is_digit c = true) by (cbn in Hip; now apply andb_prop in Hip).
  assert (Hsign : parse_sign ((if sg then lit "-" else []) ++ (c :: ip') ++ frac ++ expo)
                  = (sg, (c :: ip') ++ frac ++ expo)).
  { destruct sg; [apply parse_sign_minus|]. cbn [app]. now apply parse_sign_digit. }
  rewrite Hsign. cbn [app]. rewrite parse_special_number by now left.
  change (c :: ip' ++ frac ++ expo) with ((c :: ip') ++ frac ++ expo).
  unfold parse_number.
  assert (Hexpo_head : match expo with [] => True | h :: _ => is_digit h = false end)
    by (subst expo; destruct ex; [reflexivity|exact I]).
  assert (Hspan1 : span_digits ((c :: ip') ++ frac ++ expo) = (c :: ip', frac ++ expo)).
  { apply span_digits_app; [assumption|].
    subst frac. destruct fp; [exact Hexpo_head|reflexivity]. }
  rewrite Hspan1.
  subst frac expo. destruct fp as [|d fp'].
  - destruct ex as [x|]; cbn [app length]; rewrite ?app_nil_r;
      [|reflexivity].
    cbn [Z.eqb Pos.eqb orb]. rewrite parse_exponent_fmt, ?app_nil_r.
    reflexivity.
  - pose proof (span_digits_app (d :: fp') _ Hfp Hexpo_head) as Hspan2.
    cbn [app] in Hspan2 |- *. rewrite Z.eqb_refl, Hspan2.
    destruct ex as [x|]; [|reflexivity].
    cbn [Z.eqb Pos.eqb orb]. now rewrite parse_exponent_fmt.
Qed.

Lemma all_digits_zeros (k : nat) : all_digits (repeat 48 k) = true.
Proof. induction k; [reflexivity|exact IHk]. Qed.

Lemma all_digits_firstn (k : nat) (s : list Z) :
  all_digits s = true -> all_digits (firstn k s) = true.
Proof.
  intros H. rewrite <- (firstn_skipn k s), all_digits_app in H.
  now apply andb_prop in H.
Qed.

Lemma all_digits_skipn (k : nat) (s : list Z) :
  all_digits s = true -> all_digits (skipn k s) = true.
Proof.
  intros H. rewrite <- (firstn_skipn k s), all_digits_app in H.
  now apply andb_prop in H.
Qed.

(** The text [str] gives a finite value: a sign, digits, an optional
    fraction and an optional exponent that denote the same coefficient and
    exponent. *)
Lemma to_str_fin_shape (s : bool) (c e : Z) :
  0 <= c ->
  exists (ip fp : list Z) (ex : option Z),
    to_str (Fin s c e) =
      (if s then lit "-" else []) ++ ip
        ++ match fp with [] => [] | _ => 46 :: fp end
        ++ match ex with None => [] | Some x => 69 :: fmt_plus_d x end /\
    all_digits ip = true /\ all_digits fp = true /\ ip <> [] /\
    digits_value (ip ++ fp) = c /\
    match ex with Some x => x | None => 0 end - Z.of_nat (length fp) = e.
Proof.
  intros Hc. unfold to_str.
  pose proof (str_nonneg_length c) as Hlen.
  pose proof (str_nonneg_nonempty c) as Hne.
  pose proof (all_digits_str_nonneg c Hc) as Hall.
  pose proof (digits_value_str_nonneg c Hc) as Hval.
  set (ds := str_nonneg c) in *. rewrite <- Hlen.
  remember (length ds) as n eqn:Hn'.
  assert (Hds : ds <> []) by (intros H; rewrite H in Hn'; cbn in Hn'; lia).
  destruct ((e <=? 0) && (-6 <? e + Z.of_nat n)) eqn:Hplain.
  - apply andb_prop in Hplain as [He Hleft].
    apply Z.leb_le in He. apply Z.ltb_lt in Hleft.
    rewrite Z.eqb_refl.
    destruct (Z.leb_spec (e + Z.of_nat n) 0) as [Hzero|Hposd].
    + exists (lit "0"), (repeat 48 (Z.to_nat (- (e + Z.of_nat n))) ++ ds), None.
      assert (Hfp : repeat 48 (Z.to_nat (- (e + Z.of_nat n))) ++ ds <> [])
        by (destruct (repeat 48 _); [assumption|discriminate]).
      repeat split.
      * destruct (repeat 48 (Z.to_nat (- (e + Z.of_nat n))) ++ ds) eqn:E;
          [congruence|reflexivity].
      * now rewrite all_digits_app, all_digits_zeros.
      * discriminate.
      * change (lit "0" ++ repeat 48 (Z.to_nat (- (e + Z.of_nat n))) ++ ds)
          with (repeat 48 (S (Z.to_nat (- (e + Z.of_nat n)))) ++ ds).
        now rewrite digits_value_zeros.
      * rewrite length_app, repeat_length, <- Hn'. lia.
    + destruct (Z.leb_spec (Z.of_nat n) (e + Z.of_nat n)) as [Hint|Hfrac].
      * exists ds, [], None. replace (e + Z.of_nat n - Z.of_nat n) with 0 by lia.
        cbn [Z.to_nat repeat]. rewrite !app_nil_r.
        repeat split; try assumption. cbn [length]. lia.
      * exists (firstn (Z.to_nat (e + Z.of_nat n)) ds),
               (skipn (Z.to_nat (e + Z.of_nat n)) ds), None.
        assert (Hsk : skipn (Z.to_nat (e + Z.of_nat n)) ds <> []).
        { intros H. apply (f_equal (@length Z)) in H.
          rewrite length_skipn, <- Hn' in H. cbn [length] in H. lia. }
        repeat split.
        -- destruct (skipn (Z.to_nat (e + Z.of_nat n)) ds) eqn:E;
             [congruence|reflexivity].
        -- now apply all_digits_firstn.
        -- now apply all_digits_skipn.
        -- intros H. apply (f_equal (@length Z)) in H.
           rewrite length_firstn, <- Hn' in H. cbn [length] in H. lia.
        -- now rewrite firstn_skipn.
        -- rewrite length_skipn, <- Hn'. lia.
  - assert (Hsci : 0 < e \/ e + Z.of_nat n <= -6).
    { apply andb_false_iff in Hplain as [H|H];
        [apply Z.leb_gt in H|apply Z.ltb_ge in H]; lia. }
    destruct (Z.eqb_spec (e + Z.of_nat n) 1) as [Hone|_]; [lia|].
    cbn [Z.leb Z.compare].
    destruct (Z.leb_spec (Z.of_nat n) 1) as [Hsingle|Hmany].
    + exists ds, [], (Some (e + Z.of_nat n - 1)).
      replace (Z.to_nat (1 - Z.of_nat n)) with 0%nat by lia.
      cbn [repeat]. rewrite !app_nil_r.
      repeat split; try assumption. cbn [length]. lia.
    + exists (firstn 1 ds), (skipn 1 ds), (Some (e + Z.of_nat n - 1)).
      assert (Hsk : skipn 1 ds <> []).
      { intros H. apply (f_equal (@length Z)) in H.
        rewrite length_skipn, <- Hn' in H. cbn [length] in H. lia. }
      repeat split.
      * change (Z.to_nat 1) with 1%nat.
        destruct (skipn 1 ds) eqn:E; [congruence|reflexivity].
      * now apply all_digits_firstn.
      * now apply all_digits_skipn.
      * intros H. apply (f_equal (@length Z)) in H.
        rewrite length_firstn, <- Hn' in H. cbn [length] in H. lia.
      * now rewrite firstn_skipn.
      * rewrite length_skipn, <- Hn'. lia.
Qed.

(** A text of visible ASCII characters other than the comma and the
    underscore passes the normalisation of [to_decimal] and the
    transliteration of [Decimal] unchanged. *)
Lemma visible_text_kept (s : pystr) :
  Forall (fun c => 33 <= c <= 126 /\ c <> 44 /\ c <> 95) s ->
  normalized s = s /\ as_ascii (strip s) = Some s.
Proof.
  intros H. rewrite Forall_forall in H.
  assert (Hcomma : replace_char 44 46 s = s).
  { unfold replace_char. rewrite <- (map_id s) at 2. apply map_ext_in.
    intros c Hc. apply H in Hc.
    destruct (Z.eqb_spec c 44); [lia|reflexivity]. }
  assert (Hspace : no_space s = true).
  { unfold no_space. apply forallb_forall. intros c Hc. apply H in Hc.
    destruct (isspace c) eqn:E; [|reflexivity].
    apply isspace_range in E. lia. }
  assert (Hplain : plain_ascii s = true).
  { unfold plain_ascii. apply forallb_forall. intros c Hc. apply H in Hc.
    destruct (Z.ltb_spec 0 c); [|lia]. destruct (Z.leb_spec c 127); [|lia].
    destruct (Z.eqb_spec c 95); [lia|reflexivity]. }
  unfold normalized. rewrite Hcomma, strip_no_space by assumption.
  split; [reflexivity|now apply as_ascii_plain].
Qed.

Lemma digits_visible (s : pystr) :
  all_digits s = true -> Forall (fun c => 33 <= c <= 126 /\ c <> 44 /\ c <> 95) s.
Proof.
  intros H. apply Forall_forall. intros c Hc.
  unfold all_digits in H. rewrite forallb_forall in H.
  apply H, is_digit_range in Hc. lia.
Qed.

Lemma to_decimal_str_finite (s : bool) (c e : Z) :
  well_formed (Fin s c e) = true ->
  to_decimal (PyStr (to_str (Fin s c e))) = Returned (Fin s c e).
Proof.
  cbn [well_formed]. intros Hwf.
  apply andb_prop in Hwf as [Hwf Hmax]. apply andb_prop in Hwf as [Hc Hmin].
  apply Z.leb_le in Hc, Hmin, Hmax.
  destruct (to_str_fin_shape s c e Hc)
    as (ip & fp & ex & Htext & Hip & Hfp & Hne & Hval & Hexp).
  rewrite to_decimal_normalized.
  assert (Hnum : number_text (to_str (Fin s c e)) = true).
  { rewrite Htext, !number_text_app, (number_text_digits ip Hip).
    pose proof (number_text_digits fp Hfp) as Hf.
    destruct s, fp as [|d fp'], ex as [x|]; cbn [number_text forallb] in *;
      rewrite ?Hf;
      try (fold (number_text (fmt_plus_d x)); rewrite number_text_fmt_plus_d);
      reflexivity. }
  destruct (number_text_kept _ Hnum) as [Hnorm _]. rewrite Hnorm.
  rewrite pystr_eqb_neq
    by (rewrite Htext; destruct s, ip; try congruence; discriminate).
  rewrite Htext, of_str_number, Hval, Hexp by assumption.
  now apply exact_finite_ok.
Qed.

Lemma to_decimal_nan_text (s g : bool) (digs : list Z) :
  all_digits digs = true ->
  to_decimal (PyStr ((if s then lit "-" else [])
                       ++ (if g then lit "sNaN" else lit "NaN") ++ digs)) =
  Returned (NaN s g (digits_value digs)).
Proof.
  intros Hdigs.
  assert (Hvis : Forall (fun c => 33 <= c <= 126 /\ c <> 44 /\ c <> 95)
                   ((if s then lit "-" else [])
                      ++ (if g then lit "sNaN" else lit "NaN") ++ digs)).
  { apply Forall_app; split; [|apply Forall_app; split; [|now apply digits_visible]].
    - destruct s; repeat constructor; cbn; lia.
    - destruct g; repeat constructor; cbn; lia. }
  destruct (visible_text_kept _ Hvis) as [Hnorm Hascii].
  rewrite to_decimal_normalized, Hnorm.
  rewrite pystr_eqb_neq by (destruct s, g; discriminate).
  unfold of_str. rewrite Hascii.
  assert (Hsign : parse_sign ((if s then lit "-" else [])
                                ++ (if g then lit "sNaN" else lit "NaN") ++ digs)
                  = (s, (if g then lit "sNaN" else lit "NaN") ++ digs))
    by (destruct s, g; reflexivity).
  rewrite Hsign. unfold parse_special. rewrite map_app, (digits_lower digs Hdigs).
  destruct g.
  - change (map lower (lit "sNaN")) with (lit "snan").
    rewrite !pystr_eqb_neq by discriminate.
    change (firstn 4 (lit "snan" ++ digs)) with (lit "snan").
    change (skipn 4 (lit "snan" ++ digs)) with digs.
    now rewrite pystr_eqb_refl, Hdigs.
  - change (map lower (lit "NaN")) with (lit "nan").
    rewrite !pystr_eqb_neq by discriminate.
    change (firstn 3 (lit "nan" ++ digs)) with (lit "nan").
    change (skipn 3 (lit "nan" ++ digs)) with digs.
    now rewrite pystr_eqb_refl, Hdigs.
Qed.

Lemma to_decimal_str_nan (s g : bool) (p : Z) :
  0 <= p -> to_decimal (PyStr (to_str (NaN s g p))) = Returned (NaN s g p).
Proof.
  intros Hp.
  assert (Hdigs : all_digits (if p =? 0 then [] else str_nonneg p) = true)
    by (destruct (p =? 0); [reflexivity|now apply all_digits_str_nonneg]).
  assert (Hval : digits_value (if p =? 0 then [] else str_nonneg p) = p).
  { destruct (Z.eqb_spec p 0) as [->|_]; [reflexivity|].
    now apply digits_value_str_nonneg. }
  pose proof (to_decimal_nan_text s g _ Hdigs) as H.
  rewrite Hval in H. exact H.
Qed.

(** X3.  A [Decimal] written with [str] (or an f-string) and read back
    with [to_decimal] is the same [Decimal]: the same sign, coefficient and
    exponent, infinity, or NaN with its payload.  The point of sale keeps
    prices and line totals in the cart as such texts and reads them back
    this way. *)
Theorem to_decimal_str_roundtrip (d : Decimal) (Hwf : well_formed d = true) :
  to_decimal (PyStr (to_str d)) = Returned d.
Proof.
  destruct d as [s c e|s|s g p].
  - now apply to_decimal_str_finite.
  - destruct s; reflexivity.
  - apply to_decimal_str_nan. cbn [well_formed] in Hwf. now apply Z.leb_le.
Qed.

Lemma to_decimal_str_roundtrip_witness :
  well_formed (Fin true 1250 (-2)) = true /\
  to_str (Fin true 1250 (-2)) = lit "-12.50" /\
  to_decimal (PyStr (to_str (Fin true 1250 (-2)))) = Returned (Fin true 1250 (-2)).
Proof.
  split; [reflexivity|]. split; [reflexivity|].
  apply (to_decimal_str_roundtrip (Fin true 1250 (-2))). reflexivity.
Defined.

Lemma to_str_of_int (n : Z) : to_str (of_int n) = str_int n.
Proof.
  unfold of_int, str_int, to_str.
  pose proof (ndigits_pos (Z.abs n) ltac:(lia)) as Hpos.
  replace ((0 <=? 0) && (-6 <? 0 + ndigits (Z.abs n))) with true
    by (symmetry; apply andb_true_intro; split; [reflexivity|apply Z.ltb_lt; lia]).
  rewrite Z.eqb_refl.
  destruct (Z.leb_spec (0 + ndigits (Z.abs n)) 0); [lia|].
  destruct (Z.leb_spec (ndigits (Z.abs n)) (0 + ndigits (Z.abs n))); [|lia].
  replace (0 + ndigits (Z.abs n) - ndigits (Z.abs n)) with 0 by lia.
  cbn [Z.to_nat repeat]. now rewrite !app_nil_r.
Qed.

(** X4.  [to_decimal] on an [int] is exact: it returns the integer as a
    [Decimal] with exponent 0 (so the [0] that stands in for an empty form
    field becomes [Decimal("0")]).  The bound is that of [str] on an
    [int], which refuses more than 4300 digits. *)
Theorem to_decimal_int (n : Z) (Hn : ndigits (Z.abs n) <= 4300) :
  to_decimal (PyInt n) = Returned (of_int n).
Proof.
  change (to_decimal (PyInt n)) with (to_decimal (PyStr (str_int n))).
  rewrite <- to_str_of_int. unfold of_int. apply to_decimal_str_finite.
  cbn [well_formed].
  apply andb_true_intro; split; [apply andb_true_intro; split|].
  - apply Z.leb_le. lia.
  - reflexivity.
  - apply Z.leb_le. unfold MAX_EMAX. destruct (Z.abs n =? 0); lia.
Qed.

Lemma to_decimal_int_witness :
  ndigits (Z.abs (-42)) <= 4300 /\
  to_decimal (PyInt (-42)) = Returned (Fin true 42 0) /\
  to_decimal (PyInt 0) = Returned (Fin false 0 0).
Proof.
  split; [vm_compute; discriminate|]. split.
  - apply (to_decimal_int (-42)). vm_compute. discriminate.
  - apply (to_decimal_int 0). vm_compute. discriminate.
Defined.

(** ** Rounding half-even to cents *)

Lemma Qcompare_quotient_half (r d : Z) :
  0 < d -> (inject_Z r / inject_Z d ?= 1 # 2)%Q = (2 * r ?= d).
Proof.
  intros Hd. destruct d as [|p|p]; try lia.
  unfold Qcompare, Qdiv, Qmult, Qinv, inject_Z. cbn [Qnum Qden].
  rewrite Z.mul_1_r, Z.mul_1_l, Pos.mul_1_l. now rewrite Z.mul_comm.
Qed.

Lemma half_even_cents_quotient (x : Q) (n d : Z) :
  0 < d -> (x * (100 # 1) == inject_Z n / inject_Z d)%Q ->
  half_even_cents x =
  match 2 * (n mod d) ?= d with
  | Lt => n / d
  | Gt => n / d + 1
  | Eq => if Z.even (n / d) then n / d else n / d + 1
  end.
Proof.
  intros Hd Hx. unfold half_even_cents.
  rewrite (Qfloor_comp _ _ Hx), Qfloor_quotient.
  assert (Hfrac : (x * (100 # 1) - inject_Z (n / d) == inject_Z (n mod d) / inject_Z d)%Q).
  { rewrite Hx. rewrite (Z.div_mod n d) at 1 by lia.
    rewrite inject_Z_plus, inject_Z_mult. field.
    intros H. unfold Qeq, inject_Z in H. cbn [Qnum Qden] in H. lia. }
  rewrite (Qcompare_comp _ _ Hfrac _ _ (Qeq_refl _)).
  now rewrite Qcompare_quotient_half.
Qed.

Lemma half_even_cents_fin (s : bool) (c e : Z) :
  0 <= c ->
  half_even_cents (Qabs (value (Fin s c e))) =
  if -2 <=? e then c * 10 ^ (e + 2)
  else match 2 * (c mod 10 ^ (-2 - e)) ?= 10 ^ (-2 - e) with
       | Lt => c / 10 ^ (-2 - e)
       | Gt => c / 10 ^ (-2 - e) + 1
       | Eq => if Z.even (c / 10 ^ (-2 - e))
               then c / 10 ^ (-2 - e) else c / 10 ^ (-2 - e) + 1
       end.
Proof.
  intros Hc. pose proof (abs_value_hundredths s c e Hc) as Habs.
  destruct (Z.leb_spec (-2) e) as [Hhi|Hlo].
  - rewrite (half_even_cents_quotient _ (c * 10 ^ (e + 2)) 1); [|lia|].
    + rewrite Z.mod_1_r, Z.div_1_r. reflexivity.
    + rewrite Habs. unfold Qdiv. change (/ inject_Z 1)%Q with 1%Q. ring.
  - apply half_even_cents_quotient; [apply Z.pow_pos_nonneg; lia|exact Habs].
Qed.

(** [quantize] with the rounding of the context keeps the magnitude of
    the value rounded to cents, ties to the even neighbour, when that has at
    most 28 digits, and raises InvalidOperation otherwise. *)
Lemma quantize_half_even (s : bool) (c e : Z) :
  0 <= c ->
  quantize (Fin s c e) MONEY_Q ROUND_HALF_EVEN =
  if half_even_cents (Qabs (value (Fin s c e))) <? 10 ^ prec
  then Returned (Fin s (half_even_cents (Qabs (value (Fin s c e)))) (-2))
  else Raised InvalidOperation.
Proof.
  intros Hc. rewrite half_even_cents_fin by assumption.
  destruct (Z.eq_dec c 0) as [->|Hnz].
  - rewrite quantize_money_zero.
    destruct (Z.leb_spec (-2) e).
    + rewrite Z.mul_0_l. reflexivity.
    + assert (0 < 10 ^ (-2 - e)) by (apply Z.pow_pos_nonneg; lia).
      rewrite Z.mod_0_l, Z.div_0_l by lia.
      destruct (Z.compare_spec (2 * 0) (10 ^ (-2 - e))); try lia. reflexivity.
  - rewrite quantize_money_total by lia.
    assert (Hres : _rescale ROUND_HALF_EVEN c e (-2) =
                   if -2 <=? e then c * 10 ^ (e + 2)
                   else match 2 * (c mod 10 ^ (-2 - e)) ?= 10 ^ (-2 - e) with
                        | Lt => c / 10 ^ (-2 - e)
                        | Gt => c / 10 ^ (-2 - e) + 1
                        | Eq => if Z.even (c / 10 ^ (-2 - e))
                                then c / 10 ^ (-2 - e) else c / 10 ^ (-2 - e) + 1
                        end).
    { destruct (Z.leb_spec (-2) e) as [Hhi|Hlo].
      - unfold _rescale. destruct (Z.leb_spec (-2) e); [|lia].
        now replace (e - -2) with (e + 2) by lia.
      - apply rescale_half_even; lia. }
    rewrite Hres. reflexivity.
Qed.

(** ** The derived sale price *)

(** An exact quotient loses its trailing zeros up to the ideal exponent. *)
Lemma strip_to_ideal_spec (fuel : nat) :
  forall (coeff e ideal a j : Z),
    0 < a -> 0 <= j -> coeff = a * 10 ^ j ->
    j <= Z.of_nat fuel -> e + j <= ideal ->
    exists c' e',
      strip_to_ideal fuel coeff e ideal = (c', e') /\
      e + j <= e' <= ideal /\ 0 < c' /\ c' * 10 ^ (e' - e) = coeff.
Proof.
  induction fuel as [|f IH]; intros coeff e ideal a j Ha Hj Hcoeff Hfuel Hideal.
  - exists coeff, e. replace j with 0 in * by lia.
    rewrite Z.sub_diag. cbn [strip_to_ideal Z.pow]. repeat split; lia.
  - cbn [strip_to_ideal].
    assert (Hpj : 0 < 10 ^ j) by (apply Z.pow_pos_nonneg; lia).
    destruct ((e <? ideal) && (coeff mod 10 =? 0)) eqn:Htest.
    + apply andb_prop in Htest as [He Hmod].
      apply Z.ltb_lt in He. apply Z.eqb_eq in Hmod.
      assert (Hten : coeff = 10 * (coeff / 10))
        by (rewrite (Z.div_mod coeff 10) at 1 by lia; lia).
      assert (Hpos : 0 < coeff) by nia.
      destruct (Z.eq_dec j 0) as [Hj0|Hj0].
      * destruct (IH (coeff / 10) (e + 1) ideal (coeff / 10) 0)
          as (c' & e' & Heq & He' & Hc' & Hval); try lia.
        exists c', e'. rewrite Heq. repeat split; try lia.
        replace (e' - e) with (Z.succ (e' - (e + 1))) by lia.
        rewrite Z.pow_succ_r by lia. lia.
      * destruct (IH (coeff / 10) (e + 1) ideal a (j - 1))
          as (c' & e' & Heq & He' & Hc' & Hval); try lia.
        { subst coeff. replace j with (Z.succ (j - 1)) at 1 by lia.
          rewrite Z.pow_succ_r by lia.
          replace (a * (10 * 10 ^ (j - 1))) with (a * 10 ^ (j - 1) * 10) by lia.
          now rewrite Z.div_mul by lia. }
        exists c', e'. rewrite Heq. repeat split; try lia.
        replace (e' - e) with (Z.succ (e' - (e + 1))) by lia.
        rewrite Z.pow_succ_r by lia. lia.
    + exists coeff, e. rewrite Z.sub_diag. cbn [Z.pow].
      assert (j = 0); [|repeat split; lia].
      destruct (Z.eq_dec j 0) as [|Hj0]; [assumption|exfalso].
      apply andb_false_iff in Htest as [He|Hmod].
      * apply Z.ltb_ge in He. lia.
      * apply Z.eqb_neq in Hmod. apply Hmod. subst coeff.
        replace j with (Z.succ (j - 1)) by lia. rewrite Z.pow_succ_r by lia.
        replace (a * (10 * 10 ^ (j - 1))) with (a * 10 ^ (j - 1) * 10) by lia.
        apply Z.mod_mul. lia.
Qed.

(** [margin / Decimal('100')] is exact for a margin of up to eight digits:
    the same digits, up to two trailing zeros apart, two places lower. *)
Lemma div_by_100 (m em : Z) :
  0 <= m < 10 ^ 8 -> -4 <= em <= 0 ->
  exists m' e',
    div (Fin false m em) (Fin false 100 0) = Returned (Fin false m' e') /\
    em - 2 <= e' <= em /\ 0 <= m' <= m /\ m' * 10 ^ (e' - (em - 2)) = m.
Proof.
  intros Hm Hem. unfold div. cbn [_check_nans xorb Z.eqb].
  destruct (Z.eqb_spec m 0) as [->|Hnz].
  - exists 0, em. rewrite Z.sub_0_r. split.
    + unfold _fix. cbn [Z.eqb]. do 2 f_equal.
      unfold Etiny, Emin, Emax, prec. lia.
    + repeat split; lia.
  - change (ndigits 100) with 3.
    pose proof (ndigits_pos m ltac:(lia)) as Hpos.
    pose proof (ndigits_le m 8 Hm ltac:(lia)) as Hle.
    set (shift := 3 - ndigits m + prec + 1).
    assert (Hshift : 24 <= shift <= 31) by (subst shift; unfold prec; lia).
    destruct (Z.leb_spec 0 shift); [|lia].
    assert (Hp : 0 < 10 ^ (shift - 2)) by (apply Z.pow_pos_nonneg; lia).
    assert (Hnum : m * 10 ^ shift = m * 10 ^ (shift - 2) * 100).
    { replace shift with (shift - 2 + 2) at 1 by lia.
      rewrite Z.pow_add_r by lia. change (10 ^ 2) with 100. lia. }
    rewrite Hnum, Z.mod_mul, Z.div_mul by lia. cbn [Z.eqb negb].
    rewrite Z.sub_0_r.
    assert (Hup : m * 10 ^ (shift - 2) < 10 ^ (ndigits m + (shift - 2))).
    { rewrite Z.pow_add_r by lia. pose proof (ndigits_upper m ltac:(lia)). nia. }
    assert (Hndc : shift - 2 <= ndigits (m * 10 ^ (shift - 2))).
    { pose proof (ndigits_ge (m * 10 ^ (shift - 2)) (shift - 2) ltac:(lia) ltac:(nia)).
      lia. }
    destruct (strip_to_ideal_spec
                (Z.to_nat (ndigits (m * 10 ^ (shift - 2))))
                (m * 10 ^ (shift - 2)) (em - shift) em m (shift - 2))
      as (c' & e' & Heq & He' & Hc' & Hval); try lia.
    rewrite Heq. exists c', e'.
    assert (Hfactor : 10 ^ (e' - (em - shift)) =
                      10 ^ (shift - 2) * 10 ^ (e' - (em - 2))).
    { rewrite <- Z.pow_add_r by lia. f_equal. lia. }
    assert (Hp2 : 0 < 10 ^ (e' - (em - 2))) by (apply Z.pow_pos_nonneg; lia).
    assert (Hm' : c' * 10 ^ (e' - (em - 2)) = m) by nia.
    split; [|repeat split; nia].
    apply fix_small; [|unfold Etiny, Etop, Emin, Emax, prec; lia].
    assert (10 ^ 8 < 10 ^ prec) by reflexivity. nia.
Qed.

Lemma half_even_cents_comp (x y : Q) :
  (x == y)%Q -> half_even_cents x = half_even_cents y.
Proof.
  intros H. unfold half_even_cents.
  assert (Hf : Qfloor (x * (100 # 1)) = Qfloor (y * (100 # 1)))
    by (apply Qfloor_comp; now rewrite H).
  rewrite Hf.
  assert (Hc : (x * (100 # 1) - inject_Z (Qfloor (y * (100 # 1))) ==
                y * (100 # 1) - inject_Z (Qfloor (y * (100 # 1))))%Q)
    by now rewrite H.
  now rewrite (Qcompare_comp _ _ Hc _ _ (Qeq_refl _)).
Qed.

Lemma value_nonneg (c e : Z) : 0 <= c -> (0 <= value (Fin false c e))%Q.
Proof.
  intros Hc. cbn [value]. apply Qmult_le_0_compat.
  - change 0%Q with (inject_Z 0). now rewrite <- Zle_Qle.
  - apply Qlt_le_weak, Qpower_0_lt. reflexivity.
Qed.

Lemma value_scale (c e k : Z) :
  0 <= k -> (value (Fin false (c * 10 ^ k) (e - k)) == value (Fin false c e))%Q.
Proof.
  intros Hk. cbn [value]. rewrite inject_Z_mult.
  replace (e - k) with (e + - k) by lia.
  rewrite Qpower_plus by discriminate.
  rewrite pow10_Q_neg by assumption.
  field. now apply inject_Z_pow10_nonzero.
Qed.

Lemma value_mul (a b e1 e2 : Z) :
  (value (Fin false (a * b) (e1 + e2)) ==
   value (Fin false a e1) * value (Fin false b e2))%Q.
Proof.
  cbn [value]. rewrite inject_Z_mult, Qpower_plus by discriminate. ring.
Qed.

Lemma value_add (a b e : Z) :
  (value (Fin false (a + b) e) ==
   value (Fin false a e) + value (Fin false b e))%Q.
Proof. cbn [value]. rewrite inject_Z_plus. ring. Qed.

Lemma value_hundredth (m e : Z) :
  (value (Fin false m e) == value (Fin false m (e + 2)) / (100 # 1))%Q.
Proof.
  cbn [value]. rewrite Qpower_plus by discriminate.
  change ((10 # 1) ^ 2)%Q with (100 # 1)%Q. field.
Qed.

(** X5.  The sale price [ProductRepo.upsert] derives from a cost of up to
    twelve digits and a margin of up to eight digits, neither negative and
    each with at most four fractional digits, is the exact product
    cost * (1 + margin / 100) rounded to cents with ties to the even
    neighbour: no intermediate step rounds. *)
Theorem upsert_sale_price_half_even (c ec m em : Z)
  (Hc : 0 <= c < 10 ^ 12) (Hec : -4 <= ec <= 0)
  (Hm : 0 <= m < 10 ^ 8) (Hem : -4 <= em <= 0) :
  upsert_sale_price (PyDecimal (Fin false c ec)) (PyDecimal (Fin false m em)) =
  Returned (Fin false
    (half_even_cents
       (value (Fin false c ec) * (1 + value (Fin false m em) / (100 # 1))))
    (-2)).
Proof.
  unfold upsert_sale_price. cbn [to_decimal bind].
  destruct (div_by_100 m em Hm Hem) as (m' & e' & Hdiv & He' & Hm' & Hval).
  rewrite Hdiv. cbn [bind].
  (* 1.0 + ratio *)
  set (e0 := Z.min (-1) e').
  set (v := 10 * 10 ^ (-1 - e0) + m' * 10 ^ (e' - e0)).
  assert (He0 : -6 <= e0 <= -1 /\ e0 <= e') by (subst e0; lia).
  assert (Hp1 : 0 < 10 ^ (-1 - e0) <= 10 ^ 5)
    by (split; [apply Z.pow_pos_nonneg|apply Z.pow_le_mono_r]; lia).
  assert (Hp2 : 0 < 10 ^ (e' - e0) <= 10 ^ 6)
    by (split; [apply Z.pow_pos_nonneg|apply Z.pow_le_mono_r]; lia).
  assert (Hv : 0 < v < 10 ^ 15).
  { subst v. change (10 ^ 5) with 100000 in Hp1.
    change (10 ^ 6) with 1000000 in Hp2.
    change (10 ^ 8) with 100000000 in Hm.
    change (10 ^ 15) with 1000000000000000. nia. }
  assert (Hadd : add (Fin false 10 (-1)) (Fin false m' e') = Returned (Fin false v e0)).
  { unfold add. cbn [_check_nans Z.eqb andb]. fold e0. unfold signed_at.
    replace (1 * 10 * 10 ^ (-1 - e0) + 1 * m' * 10 ^ (e' - e0)) with v
      by (subst v; lia).
    destruct (Z.eqb_spec v 0); [lia|]. destruct (Z.ltb_spec v 0); [lia|].
    rewrite Z.abs_eq by lia.
    apply fix_small; [|unfold Etiny, Etop, Emin, Emax, prec; lia].
    assert (10 ^ 15 < 10 ^ prec) by reflexivity. lia. }
  rewrite Hadd. cbn [bind].
  (* cost * factor *)
  assert (Hcv : 0 <= c * v < 10 ^ 27).
  { change (10 ^ 12) with 1000000000000 in Hc.
    change (10 ^ 15) with 1000000000000000 in Hv.
    change (10 ^ 27) with 1000000000000000000000000000. nia. }
  assert (Hmul : mul (Fin false c ec) (Fin false v e0) =
                 Returned (Fin false (c * v) (ec + e0))).
  { unfold mul. cbn [_check_nans xorb].
    apply fix_small; [|unfold Etiny, Etop, Emin, Emax, prec; lia].
    assert (10 ^ 27 < 10 ^ prec) by reflexivity. lia. }
  rewrite Hmul. cbn [bind].
  (* the one rounding *)
  rewrite quantize_half_even by lia.
  assert (Hexact :
    (Qabs (value (Fin false (c * v) (ec + e0))) ==
     value (Fin false c ec) * (1 + value (Fin false m em) / (100 # 1)))%Q).
  { assert (H1 : (value (Fin false (10 * 10 ^ (-1 - e0)) e0) == 1)%Q).
    { pose proof (value_scale 10 (-1) (-1 - e0) ltac:(lia)) as H.
      replace (-1 - (-1 - e0)) with e0 in H by lia. rewrite H. reflexivity. }
    assert (H2 : (value (Fin false (m' * 10 ^ (e' - e0)) e0) ==
                  value (Fin false m' e'))%Q).
    { pose proof (value_scale m' e' (e' - e0) ltac:(lia)) as H.
      replace (e' - (e' - e0)) with e0 in H by lia. exact H. }
    assert (H3 : (value (Fin false m em) == value (Fin false m' (e' + 2)))%Q).
    { pose proof (value_scale m' (e' + 2) (e' - (em - 2)) ltac:(lia)) as H.
      replace (e' + 2 - (e' - (em - 2))) with em in H by lia.
      rewrite Hval in H. exact H. }
    rewrite Qabs_pos by (apply value_nonneg; lia).
    rewrite value_mul. apply Qmult_comp; [reflexivity|].
    subst v. rewrite value_add, H1, H2, H3.
    apply Qplus_comp; [reflexivity|]. apply value_hundredth. }
  assert (Hbound :
    half_even_cents (Qabs (value (Fin false (c * v) (ec + e0)))) < 10 ^ prec).
  { rewrite half_even_cents_fin by lia.
    assert (H27 : 10 * 10 ^ 27 = 10 ^ prec) by reflexivity.
    destruct (Z.leb_spec (-2) (ec + e0)).
    - assert (0 < 10 ^ (ec + e0 + 2) <= 10 ^ 1)
        by (split; [apply Z.pow_pos_nonneg|apply Z.pow_le_mono_r]; lia).
      change (10 ^ 1) with 10 in *. nia.
    - assert (HD : 0 < 10 ^ (-2 - (ec + e0))) by (apply Z.pow_pos_nonneg; lia).
      assert (c * v / 10 ^ (-2 - (ec + e0)) <= c * v)
        by (apply Z.div_le_upper_bound; nia).
      destruct (_ ?= _); [destruct (Z.even _)|..]; lia. }
  apply Z.ltb_lt in Hbound. rewrite Hbound.
  now rewrite (half_even_cents_comp _ _ Hexact).
Qed.

Lemma upsert_sale_price_half_even_witness :
  (0 <= 250 < 10 ^ 12) /\ (-4 <= -2 <= 0) /\ (0 <= 25 < 10 ^ 8) /\ (-4 <= 0 <= 0) /\
  upsert_sale_price (PyDecimal (Fin false 250 (-2))) (PyDecimal (Fin false 25 0)) =
  Returned (Fin false 312 (-2)).
Proof.
  split; [lia|]. split; [lia|]. split; [lia|]. split; [lia|].
  rewrite (upsert_sale_price_half_even 250 (-2) 25 0) by lia. reflexivity.
Defined.

(** ** The amount field of the payload *)

(** X6.  The amount field of [build_pix_payload] for an amount above zero
    carries the amount rounded to cents with ties to the even neighbour
    ([quantize] is called without a rounding argument), written with two
    fractional digits; an amount that rounds to zero still yields the
    field, with the value 0.00. *)
Theorem amount_field_half_even (c e : Z)
  (Hc : 0 < c)
  (Hfit : half_even_cents (value (Fin false c e)) < 10 ^ prec) :
  amount_field (Some (Fin false c e)) =
  Returned (_emv_kv (lit "54")
              (to_str (Fin false (half_even_cents (value (Fin false c e))) (-2)))).
Proof.
  assert (Habs : (Qabs (value (Fin false c e)) == value (Fin false c e))%Q)
    by (apply Qabs_pos, value_nonneg; lia).
  unfold amount_field. cbn [to_bool gt_zero bind negb andb].
  destruct (Z.eqb_spec c 0); [lia|]. destruct (Z.ltb_spec 0 c); [|lia].
  cbn [negb]. rewrite quantize_half_even by lia.
  rewrite (half_even_cents_comp _ _ Habs).
  apply Z.ltb_lt in Hfit. rewrite Hfit. reflexivity.
Qed.

Lemma amount_field_half_even_witness :
  0 < 125 /\
  amount_field (Some (Fin false 125 (-3))) = Returned (lit "54040.12") /\
  amount_field (Some (Fin false 4 (-3))) = Returned (lit "54040.00").
Proof.
  split; [lia|]. split.
  - rewrite (amount_field_half_even 125 (-3)); [reflexivity|lia|reflexivity].
  - rewrite (amount_field_half_even 4 (-3)); [reflexivity|lia|reflexivity].
Defined.

(** ** Line totals beyond the precision of the context *)

Lemma quantize_returned_bound (x q : Decimal) :
  quantize x MONEY_Q ROUND_HALF_EVEN = Returned q -> is_amount q = true ->
  Z.abs (cents q) < 10 ^ prec.
Proof.
  intros Hq Hamount.
  destruct x as [s c e|s|s g p].
  - destruct (quantize_shape _ _ _ _ _ Hq) as (c' & -> & Hnd).
    cbn [is_amount] in Hamount. apply andb_prop in Hamount as [Hc' _].
    apply Z.leb_le in Hc'. apply ndigits_bound_iff in Hnd; [|assumption].
    cbn [cents]. destruct s; lia.
  - discriminate Hq.
  - destruct g; [discriminate Hq|].
    cbn in Hq. apply Returned_inj in Hq. subst q. discriminate Hamount.
Qed.

Lemma add_item_returned_fits (qty : Z) (unit_price unit_cost line_total line_profit : Decimal) :
  add_item qty unit_price unit_cost = Returned (line_total, line_profit) ->
  is_amount line_total = true -> is_amount line_profit = true ->
  Z.abs (cents line_total) < 10 ^ prec /\ Z.abs (cents line_profit) < 10 ^ prec.
Proof.
  unfold add_item. intros Hrun Hlt Hlp.
  destruct (mul unit_price (of_int qty)) as [total|]; cbn [bind] in Hrun;
    [|discriminate].
  destruct (quantize total MONEY_Q ROUND_HALF_EVEN) as [lt|] eqn:Hq1;
    cbn [bind] in Hrun; [|discriminate].
  destruct (sub unit_price unit_cost) as [diff|]; cbn [bind] in Hrun; [|discriminate].
  destruct (mul diff (of_int qty)) as [profit|]; cbn [bind] in Hrun; [|discriminate].
  destruct (quantize profit MONEY_Q ROUND_HALF_EVEN) as [lp|] eqn:Hq2;
    cbn [bind] in Hrun; [|discriminate].
  apply Returned_inj in Hrun. injection Hrun as <- <-.
  split; eapply quantize_returned_bound; eassumption.
Qed.

(** X7.  [SalesRepo.add_item] never returns a rounded line: for a unit
    price P and a unit cost U with two fractional digits and any integer
    quantity Q, whatever pair it returns is exactly (P*Q, (P-U)*Q); and for
    Q other than zero it returns a pair exactly when both products have at
    most 28 digits (otherwise the computation raises). *)
Theorem add_item_exact_or_raises (qty : Z) (unit_price unit_cost : Decimal)
  (HP : is_amount unit_price = true) (HU : is_amount unit_cost = true) :
  (forall line_total line_profit,
      add_item qty unit_price unit_cost = Returned (line_total, line_profit) ->
      is_amount line_total = true /\ is_amount line_profit = true /\
      cents line_total = cents unit_price * qty /\
      cents line_profit = (cents unit_price - cents unit_cost) * qty) /\
  (qty <> 0 ->
   ((exists pair, add_item qty unit_price unit_cost = Returned pair) <->
    Z.abs (cents unit_price * qty) < 10 ^ prec /\
    Z.abs ((cents unit_price - cents unit_cost) * qty) < 10 ^ prec)).
Proof.
  split.
  - intros lt lp Hrun. now apply (add_item_returned qty unit_price unit_cost).
  - intros Hqty. split.
    + intros [[lt lp] Hrun].
      destruct (add_item_returned _ _ _ _ _ HP HU Hrun) as (Hlt & Hlp & Hct & Hcp).
      destruct (add_item_returned_fits _ _ _ _ _ Hrun Hlt Hlp) as [H1 H2].
      rewrite <- Hct, <- Hcp. now split.
    + intros [Htotal Hprofit].
      assert (Hdiff : Z.abs (cents unit_price - cents unit_cost) < 10 ^ prec).
      { rewrite Z.abs_mul in Hprofit.
        assert (1 <= Z.abs qty) by lia.
        assert (0 <= Z.abs (cents unit_price - cents unit_cost)) by lia. nia. }
      destruct (add_item_exact qty unit_price unit_cost HP HU Htotal Hdiff Hprofit)
        as (lt & lp & Hrun & _).
      now exists (lt, lp).
Qed.

Lemma add_item_exact_or_raises_witness :
  is_amount (Fin false 1250 (-2)) = true /\ is_amount (Fin false 800 (-2)) = true /\
  (forall line_total line_profit,
      add_item 3 (Fin false 1250 (-2)) (Fin false 800 (-2)) =
        Returned (line_total, line_profit) ->
      is_amount line_total = true /\ is_amount line_profit = true /\
      cents line_total = cents (Fin false 1250 (-2)) * 3 /\
      cents line_profit =
        (cents (Fin false 1250 (-2)) - cents (Fin false 800 (-2))) * 3).
Proof.
  split; [reflexivity|]. split; [reflexivity|].
  apply (add_item_exact_or_raises 3 (Fin false 1250 (-2)) (Fin false 800 (-2)));
    reflexivity.
Defined.

(** ** What the checksum detects *)

Lemma forall_bits_spec (n : nat) (p : Z -> bool) :
  forall acc : Z,
    forall_bits n acc p = true ->
    forall r : Z, acc * 2 ^ Z.of_nat n <= r < (acc + 1) * 2 ^ Z.of_nat n ->
                  p r = true.
Proof.
  induction n as [|k IH]; intros acc H r Hr.
  - cbn in *. replace r with acc by lia. exact H.
  - cbn [forall_bits] in H. apply andb_prop in H as [H0 H1].
    rewrite Nat2Z.inj_succ, Z.pow_succ_r in Hr by lia.
    assert (Hp : 0 < 2 ^ Z.of_nat k) by (apply Z.pow_pos_nonneg; lia).
    destruct (Z.lt_ge_cases r ((2 * acc + 1) * 2 ^ Z.of_nat k)).
    + apply (IH (2 * acc) H0). nia.
    + apply (IH (2 * acc + 1) H1). nia.
Qed.

Lemma crc_unshift_shift (r : Z) :
  0 <= r < 2 ^ 16 -> crc_unshift (crc_shift r) = r.
Proof.
  intros Hr. apply Z.eqb_eq.
  apply (forall_bits_spec 16 (fun r => crc_unshift (crc_shift r) =? r) 0);
    [vm_compute; reflexivity|].
  change (2 ^ Z.of_nat 16) with (2 ^ 16). lia.
Qed.

Lemma iter_crc_shift_range (n : nat) (r : Z) :
  0 <= r < 2 ^ 16 -> 0 <= Nat.iter n crc_shift r < 2 ^ 16.
Proof.
  intros Hr. destruct n; [exact Hr|]. cbn [Nat.iter nat_rect].
  apply crc_shift_range.
Qed.

Lemma iter_crc_shift_inj (n : nat) (x y : Z) :
  0 <= x < 2 ^ 16 -> 0 <= y < 2 ^ 16 ->
  Nat.iter n crc_shift x = Nat.iter n crc_shift y -> x = y.
Proof.
  intros Hx Hy. induction n as [|n IH]; [trivial|].
  cbn [Nat.iter nat_rect]. intros H. apply IH.
  rewrite <- (crc_unshift_shift (Nat.iter n crc_shift x))
    by now apply iter_crc_shift_range.
  rewrite <- (crc_unshift_shift (Nat.iter n crc_shift y))
    by now apply iter_crc_shift_range.
  now f_equal.
Qed.

Lemma lxor_range (a b n : Z) :
  0 <= n -> 0 <= a < 2 ^ n -> 0 <= b < 2 ^ n -> 0 <= Z.lxor a b < 2 ^ n.
Proof.
  intros Hn Ha Hb.
  assert (Hnn : 0 <= Z.lxor a b) by (apply Z.lxor_nonneg; lia).
  split; [assumption|].
  destruct (Z.eq_dec (Z.lxor a b) 0) as [->|Hnz];
    [apply Z.pow_pos_nonneg; lia|].
  apply Z.log2_lt_pow2; [lia|].
  pose proof (Z.log2_lxor a b ltac:(lia) ltac:(lia)) as Hlog.
  assert (Hla : a = 0 \/ Z.log2 a < n)
    by (destruct (Z.eq_dec a 0); [now left|right; apply Z.log2_lt_pow2; lia]).
  assert (Hlb : b = 0 \/ Z.log2 b < n)
    by (destruct (Z.eq_dec b 0); [now left|right; apply Z.log2_lt_pow2; lia]).
  assert (Z.log2 0 = 0) by reflexivity.
  assert (0 < n).
  { destruct (Z.eq_dec n 0) as [->|]; [|lia].
    change (2 ^ 0) with 1 in *. replace a with 0 in * by lia.
    replace b with 0 in * by lia. cbn in Hnz. lia. }
  destruct Hla as [->|Hla], Hlb as [->|Hlb]; lia.
Qed.

Lemma lxor_cancel_r (a b k : Z) : Z.lxor a k = Z.lxor b k -> a = b.
Proof.
  intros H. apply (f_equal (fun x => Z.lxor x k)) in H.
  now rewrite !Z.lxor_assoc, Z.lxor_nilpotent, !Z.lxor_0_r in H.
Qed.

Lemma lxor_cancel_l (k a b : Z) : Z.lxor k a = Z.lxor k b -> a = b.
Proof. rewrite !(Z.lxor_comm k). apply lxor_cancel_r. Qed.

Lemma byte_high_range (b : Z) : 0 <= b < 256 -> 0 <= Z.shiftl b 8 < 2 ^ 16.
Proof. intros Hb. rewrite Z.shiftl_mul_pow2 by lia. change (2 ^ 8) with 256. lia. Qed.

(** One byte is absorbed injectively: different registers stay different,
    and different bytes lead the same register to different ones. *)
Lemma crc_byte_inj_state (s s' b : Z) :
  0 <= s < 2 ^ 16 -> 0 <= s' < 2 ^ 16 -> 0 <= b < 256 ->
  crc_byte s b = crc_byte s' b -> s = s'.
Proof.
  intros Hs Hs' Hb H. unfold crc_byte in H.
  pose proof (byte_high_range b Hb).
  apply iter_crc_shift_inj in H; [|now apply lxor_range..].
  now apply lxor_cancel_r in H.
Qed.

Lemma crc_byte_inj_byte (s b b' : Z) :
  0 <= s < 2 ^ 16 -> 0 <= b < 256 -> 0 <= b' < 256 ->
  crc_byte s b = crc_byte s b' -> b = b'.
Proof.
  intros Hs Hb Hb' H. unfold crc_byte in H.
  pose proof (byte_high_range b Hb). pose proof (byte_high_range b' Hb').
  apply iter_crc_shift_inj in H; [|now apply lxor_range..].
  apply lxor_cancel_l in H. rewrite !Z.shiftl_mul_pow2 in H by lia. lia.
Qed.

Lemma crc_fold_inj (post : list Z) :
  Forall (fun x => 0 <= x < 256) post ->
  forall s s' : Z,
    0 <= s < 2 ^ 16 -> 0 <= s' < 2 ^ 16 ->
    fold_left crc_byte post s = fold_left crc_byte post s' -> s = s'.
Proof.
  induction 1 as [|x post Hx _ IH]; intros s s' Hs Hs' H; [exact H|].
  cbn [fold_left] in H. apply IH in H; [|apply crc_byte_range..].
  now apply (crc_byte_inj_state s s' x).
Qed.

(** X8.  The checksum detects every change of a single byte: two byte
    strings that differ in exactly one position never have the same
    [_crc16_ccitt]. *)
Theorem crc16_detects_byte_change (pre post : list Z) (b b' : Z)
  (Hb : 0 <= b < 256) (Hb' : 0 <= b' < 256) (Hne : b <> b')
  (Hpost : Forall (fun x => 0 <= x < 256) post) :
  _crc16_ccitt (pre ++ b :: post) <> _crc16_ccitt (pre ++ b' :: post).
Proof.
  unfold _crc16_ccitt. rewrite !fold_left_app. cbn [fold_left].
  pose proof (crc16_ccitt_range pre) as Hs. unfold _crc16_ccitt in Hs.
  intros H. apply (crc_fold_inj post Hpost) in H; [|apply crc_byte_range..].
  apply crc_byte_inj_byte in H; [contradiction|assumption..].
Qed.

Lemma crc16_detects_byte_change_witness :
  0 <= 51 < 256 /\ 0 <= 56 < 256 /\ 51 <> 56 /\
  Forall (fun x => 0 <= x < 256) [52; 53] /\
  _crc16_ccitt ([49; 50] ++ 51 :: [52; 53]) <> _crc16_ccitt ([49; 50] ++ 56 :: [52; 53]).
Proof.
  assert (Hpost : Forall (fun x => 0 <= x < 256) [52; 53])
    by (repeat constructor; lia).
  split; [lia|]. split; [lia|]. split; [lia|]. split; [exact Hpost|].
  apply (crc16_detects_byte_change [49; 50] [52; 53] 51 56); try lia.
  exact Hpost.
Defined.

(** ** Passwords *)

Lemma hex_digit_spec (d : Z) :
  0 <= d < 16 ->
  is_lower_hex (hex_digit d) = true /\ digit_value (hex_digit d) = d.
Proof.
  intros Hd. unfold hex_digit, is_lower_hex, digit_value.
  destruct (Z.ltb_spec d 10).
  - replace ((48 <=? 48 + d) && (48 + d <=? 57)) with true
      by (symmetry; apply andb_true_intro; split; apply Z.leb_le; lia).
    split; [reflexivity|lia].
  - replace ((48 <=? 87 + d) && (87 + d <=? 57)) with false
      by (symmetry; apply andb_false_intro2; apply Z.leb_gt; lia).
    replace ((97 <=? 87 + d) && (87 + d <=? 102)) with true
      by (symmetry; apply andb_true_intro; split; apply Z.leb_le; lia).
    replace ((97 <=? 87 + d) && (87 + d <=? 122)) with true
      by (symmetry; apply andb_true_intro; split; apply Z.leb_le; lia).
    split; [reflexivity|lia].
Qed.

Lemma lower_hex_range (c : Z) :
  is_lower_hex c = true -> 48 <= c <= 57 \/ 97 <= c <= 102.
Proof.
  unfold is_lower_hex. intros H. apply orb_prop in H as [H|H];
    apply andb_prop in H as [H1 H2]; apply Z.leb_le in H1, H2; lia.
Qed.

Lemma bytes_hex_cons (b : Z) (bs : list Z) :
  bytes_hex (b :: bs) = hex_digit (b / 16) :: hex_digit (b mod 16) :: bytes_hex bs.
Proof. reflexivity. Qed.

Lemma byte_nibbles (b : Z) :
  0 <= b < 256 -> 0 <= b / 16 < 16 /\ 0 <= b mod 16 < 16.
Proof.
  intros Hb. split.
  - split; [apply Z.div_pos; lia|apply Z.div_lt_upper_bound; lia].
  - apply Z.mod_pos_bound. lia.
Qed.

Lemma bytes_hex_lower (bs : list Z) :
  is_bytes bs -> forallb is_lower_hex (bytes_hex bs) = true.
Proof.
  induction 1 as [|b bs Hb _ IH]; [reflexivity|].
  rewrite bytes_hex_cons. cbn [forallb].
  destruct (byte_nibbles b Hb) as [Hhi Hlo].
  destruct (hex_digit_spec _ Hhi) as [-> _].
  destruct (hex_digit_spec _ Hlo) as [-> _]. exact IH.
Qed.

Lemma bytes_hex_length (bs : list Z) :
  length (bytes_hex bs) = (2 * length bs)%nat.
Proof.
  induction bs as [|b bs IH]; [reflexivity|].
  rewrite bytes_hex_cons. cbn [length]. lia.
Qed.

(** [bytes.fromhex] undoes [bytes.hex]. *)
Lemma fromhex_loop_hex (bs : list Z) :
  is_bytes bs -> fromhex_loop (bytes_hex bs) = Some bs.
Proof.
  induction 1 as [|b bs Hb _ IH]; [reflexivity|].
  rewrite bytes_hex_cons. cbn [fromhex_loop].
  destruct (byte_nibbles b Hb) as [Hhi Hlo].
  destruct (hex_digit_spec _ Hhi) as [Hh1 Hv1].
  destruct (hex_digit_spec _ Hlo) as [Hh2 Hv2].
  assert (Hsp : ascii_space (hex_digit (b / 16)) = false).
  { apply lower_hex_range in Hh1. unfold ascii_space.
    destruct (Z.leb_spec 9 (hex_digit (b / 16))),
             (Z.leb_spec (hex_digit (b / 16)) 13),
             (Z.eqb_spec (hex_digit (b / 16)) 32); try lia; reflexivity. }
  rewrite Hsp, Hv1, Hv2, IH.
  destruct (Z.ltb_spec (b / 16) 16); [|lia].
  destruct (Z.ltb_spec (b mod 16) 16); [|lia].
  cbn [andb option_map]. f_equal. f_equal.
  pose proof (Z.div_mod b 16 ltac:(lia)). lia.
Qed.

Lemma bytes_fromhex_hex (bs : list Z) :
  is_bytes bs -> bytes_fromhex (bytes_hex bs) = Some bs.
Proof.
  intros Hbs. unfold bytes_fromhex.
  assert (Hascii : forallb (fun c => c <? 128) (bytes_hex bs) = true).
  { pose proof (bytes_hex_lower bs Hbs) as Hlow.
    rewrite forallb_forall in *. intros c Hc.
    apply Hlow, lower_hex_range in Hc. apply Z.ltb_lt. lia. }
  rewrite Hascii. now apply fromhex_loop_hex.
Qed.

Lemma bytes_hex_inj (a b : list Z) :
  is_bytes a -> is_bytes b -> bytes_hex a = bytes_hex b -> a = b.
Proof.
  intros Ha Hb H. apply (f_equal bytes_fromhex) in H.
  rewrite !bytes_fromhex_hex in H by assumption. now injection H.
Qed.

(** [split] at the first colon. *)
Lemma split_once_found (a b : pystr) :
  forallb (fun c => negb (c =? 58)) a = true ->
  split_once 58 (a ++ 58 :: b) = [a; b].
Proof.
  induction a as [|c a IH]; intros Ha.
  - reflexivity.
  - cbn [forallb] in Ha. apply andb_prop in Ha as [Hc Ha].
    cbn [app split_once]. apply negb_true_iff in Hc. rewrite Hc, (IH Ha).
    reflexivity.
Qed.

Lemma split_once_missing (s : pystr) :
  forallb (fun c => negb (c =? 58)) s = true -> split_once 58 s = [s].
Proof.
  induction s as [|c s IH]; intros Hs; [reflexivity|].
  cbn [forallb] in Hs. apply andb_prop in Hs as [Hc Hs].
  cbn [split_once]. apply negb_true_iff in Hc. now rewrite Hc, (IH Hs).
Qed.

Lemma lower_hex_no_colon (s : pystr) :
  forallb is_lower_hex s = true -> forallb (fun c => negb (c =? 58)) s = true.
Proof.
  intros H. rewrite forallb_forall in *. intros c Hc.
  apply H, lower_hex_range in Hc. apply negb_true_iff, Z.eqb_neq. lia.
Qed.

(** The derived key is a string of 32 bytes. *)
Lemma be_bytes_spec (k : nat) (n : Z) :
  length (hashlib.be_bytes k n) = k /\ is_bytes (hashlib.be_bytes k n).
Proof.
  induction k as [|k [IHl IHb]]; [split; [reflexivity|constructor]|].
  cbn [hashlib.be_bytes length]. split; [now rewrite IHl|].
  constructor; [apply Z.mod_pos_bound; lia|exact IHb].
Qed.

Lemma is_bytes_app (a b : list Z) : is_bytes a -> is_bytes b -> is_bytes (a ++ b).
Proof. intros Ha Hb. apply Forall_app. now split. Qed.

Lemma digest_spec (st : hashlib.state) :
  length (hashlib.digest st) = 32%nat /\ is_bytes (hashlib.digest st).
Proof.
  destruct st as [[[[[[[a b] c] d] e] f] g] h].
  unfold hashlib.digest. cbn [flat_map]. rewrite app_nil_r. split.
  - rewrite !length_app.
    now rewrite !(proj1 (be_bytes_spec 4 _)).
  - repeat apply is_bytes_app; apply be_bytes_spec.
Qed.

Lemma sha256_spec (msg : list Z) :
  length (hashlib.sha256 msg) = 32%nat /\ is_bytes (hashlib.sha256 msg).
Proof. unfold hashlib.sha256. apply digest_spec. Qed.

Lemma hmac_sha256_spec (key msg : list Z) :
  length (hashlib.hmac_sha256 key msg) = 32%nat /\
  is_bytes (hashlib.hmac_sha256 key msg).
Proof. unfold hashlib.hmac_sha256. apply sha256_spec. Qed.

Lemma xor_bytes_spec (a b : list Z) :
  length a = 32%nat -> length b = 32%nat -> is_bytes a -> is_bytes b ->
  length (hashlib.xor_bytes a b) = 32%nat /\ is_bytes (hashlib.xor_bytes a b).
Proof.
  intros Hla Hlb Ha Hb. unfold hashlib.xor_bytes. split.
  - rewrite length_map, length_combine. lia.
  - apply Forall_forall. intros x Hx. apply in_map_iff in Hx as ([u v] & <- & Hin).
    pose proof (in_combine_l _ _ _ _ Hin) as Hu.
    pose proof (in_combine_r _ _ _ _ Hin) as Hv.
    unfold is_bytes in Ha, Hb. rewrite Forall_forall in Ha, Hb.
    cbn [fst snd]. change 256 with (2 ^ 8).
    apply lxor_range; [lia|apply Ha, Hu|apply Hb, Hv].
Qed.

Lemma pbkdf2_spec (password salt : list Z) (iterations : positive) :
  length (hashlib.pbkdf2_hmac_sha256 password salt iterations) = 32%nat /\
  is_bytes (hashlib.pbkdf2_hmac_sha256 password salt iterations).
Proof.
  unfold hashlib.pbkdf2_hmac_sha256.
  set (u1 := hashlib.hmac_sha256 password (salt ++ [0; 0; 0; 1])).
  pose proof (hmac_sha256_spec password (salt ++ [0; 0; 0; 1])) as [Hl Hb].
  fold u1 in Hl, Hb. clearbody u1.
  apply N.iter_invariant
    with (Inv := fun tu : list Z * list Z =>
                   length (fst tu) = 32%nat /\ is_bytes (fst tu)).
  - intros [t u] [Ht Hbt]. cbn [fst snd].
    destruct (hmac_sha256_spec password u) as [Hlu Hbu].
    now apply xor_bytes_spec.
  - now split.
Qed.

Lemma hash_password_unfold (password : pystr) (salt : option (list Z))
    (token pw : list Z) :
  encode_utf8 password = Returned pw ->
  hash_password password salt token =
  Returned (bytes_hex (salt_used salt token) ++ lit ":"
              ++ bytes_hex (hashlib.pbkdf2_hmac_sha256 pw (salt_used salt token) 200000)).
Proof. intros H. unfold hash_password. fold (salt_used salt token). now rewrite H. Qed.

Lemma verify_password_stored (candidate : pystr) (salt h : list Z) :
  is_bytes salt -> is_bytes h ->
  verify_password candidate (bytes_hex salt ++ lit ":" ++ bytes_hex h) =
  match encode_utf8 candidate with
  | Raised _ => false
  | Returned pw =>
      pystr_eqb (bytes_hex (hashlib.pbkdf2_hmac_sha256 pw salt 200000)) (bytes_hex h)
  end.
Proof.
  intros Hsalt Hh. unfold verify_password.
  change (lit ":" ++ bytes_hex h) with (58 :: bytes_hex h).
  rewrite split_once_found by now apply lower_hex_no_colon, bytes_hex_lower.
  now rewrite bytes_fromhex_hex.
Qed.

Lemma stored_shape (salt h : list Z) :
  is_bytes salt -> is_bytes h -> length h = 32%nat ->
  length (bytes_hex salt ++ lit ":" ++ bytes_hex h) = (2 * length salt + 65)%nat /\
  forallb (fun c => is_lower_hex c || (c =? 58))
          (bytes_hex salt ++ lit ":" ++ bytes_hex h) = true.
Proof.
  intros Hsalt Hh Hlen. split.
  - rewrite !length_app, !bytes_hex_length, Hlen.
    cbn [length lit map list_ascii_of_string]. lia.
  - rewrite !forallb_app. apply andb_true_intro; split;
      [|apply andb_true_intro; split; [reflexivity|]].
    + pose proof (bytes_hex_lower _ Hsalt) as H. rewrite forallb_forall in *.
      intros c Hc. now rewrite (H c Hc).
    + pose proof (bytes_hex_lower _ Hh) as H. rewrite forallb_forall in *.
      intros c Hc. now rewrite (H c Hc).
Qed.

(** X9.  A password hashed by [hash_password] is accepted by
    [verify_password].  The stored text is the salt in hexadecimal, a
    colon and the 64 hexadecimal digits of the derived key, all in lower
    case: 2 * len(salt) + 65 characters (97 with the 16 random bytes used
    when no salt, or an empty one, is given). *)
Theorem hash_password_verifies (password : pystr) (salt : option (list Z))
    (token : list Z)
  (Hpw : encodable password = true)
  (Hsalt : is_bytes (salt_used salt token)) :
  exists stored,
    hash_password password salt token = Returned stored /\
    verify_password password stored = true /\
    length stored = (2 * length (salt_used salt token) + 65)%nat /\
    forallb (fun c => is_lower_hex c || (c =? 58)) stored = true.
Proof.
  pose proof (encode_utf8_encodable password Hpw) as Henc.
  destruct (pbkdf2_spec (flat_map utf8_char password) (salt_used salt token) 200000)
    as [Hlen Hbytes].
  destruct (stored_shape _ _ Hsalt Hbytes Hlen) as [Hshape Hchars].
  eexists. split; [exact (hash_password_unfold password salt token _ Henc)|].
  split; [|split; [exact Hshape|exact Hchars]].
  rewrite verify_password_stored, Henc by assumption.
  apply pystr_eqb_refl.
Qed.

Lemma hash_password_verifies_witness :
  encodable (lit "admin") = true /\
  is_bytes (salt_used None [1; 2; 3; 4; 5; 6; 7; 8; 9; 10; 11; 12; 13; 14; 15; 16]) /\
  exists stored,
    hash_password (lit "admin") None
      [1; 2; 3; 4; 5; 6; 7; 8; 9; 10; 11; 12; 13; 14; 15; 16] = Returned stored /\
    verify_password (lit "admin") stored = true /\
    length stored = 97%nat.
Proof.
  assert (Hsalt : is_bytes (salt_used None
                    [1; 2; 3; 4; 5; 6; 7; 8; 9; 10; 11; 12; 13; 14; 15; 16]))
    by (repeat constructor; lia).
  split; [reflexivity|]. split; [exact Hsalt|].
  destruct (hash_password_verifies (lit "admin") None
              [1; 2; 3; 4; 5; 6; 7; 8; 9; 10; 11; 12; 13; 14; 15; 16]
              eq_refl Hsalt) as (stored & Hrun & Hok & Hlen & _).
  exists stored. repeat split; assumption.
Defined.

Lemma encode_utf8_not_encodable (s : pystr) :
  encodable s = false -> encode_utf8 s = Raised UnicodeEncodeError.
Proof.
  induction s as [|c s IH]; [discriminate|].
  cbn [encodable forallb encode_utf8]. destruct (is_surrogate c); [reflexivity|].
  cbn [negb andb]. intros H. fold (encodable s) in H. now rewrite (IH H).
Qed.

(** X10.  [verify_password] accepts a candidate against a stored hash
    exactly when the key derived from the candidate with the stored salt is
    the stored key: the texts are compared in full, so no other candidate
    passes. *)
Theorem verify_password_accepts (password : pystr) (salt : option (list Z))
    (token : list Z)
  (Hpw : encodable password = true)
  (Hsalt : is_bytes (salt_used salt token)) :
  exists stored,
    hash_password password salt token = Returned stored /\
    forall candidate : pystr,
      verify_password candidate stored = true <->
      exists pw pw',
        encode_utf8 password = Returned pw /\
        encode_utf8 candidate = Returned pw' /\
        hashlib.pbkdf2_hmac_sha256 pw' (salt_used salt token) 200000 =
        hashlib.pbkdf2_hmac_sha256 pw (salt_used salt token) 200000.
Proof.
  pose proof (encode_utf8_encodable password Hpw) as Henc.
  destruct (pbkdf2_spec (flat_map utf8_char password) (salt_used salt token) 200000)
    as [_ Hbytes].
  eexists. split; [exact (hash_password_unfold password salt token _ Henc)|].
  intros candidate. rewrite verify_password_stored by assumption.
  destruct (encode_utf8 candidate) as [pw'|e] eqn:Hcand.
  - destruct (pbkdf2_spec pw' (salt_used salt token) 200000) as [_ Hbytes'].
    split.
    + intros H. apply pystr_eqb_eq in H.
      apply bytes_hex_inj in H; [|assumption..].
      exists (flat_map utf8_char password), pw'.
      split; [exact Henc|]. split; [reflexivity|exact H].
    + intros (pw & pw2 & Hp & Hc & Heq).
      rewrite Henc in Hp. apply Returned_inj in Hp.
      apply Returned_inj in Hc. subst pw pw2. rewrite Heq.
      apply pystr_eqb_refl.
  - split; [intros H; discriminate H|].
    intros (pw & pw2 & _ & Hc & _). discriminate Hc.
Qed.

Lemma verify_password_accepts_witness :
  encodable (lit "admin") = true /\
  is_bytes (salt_used (Some [171; 205]) []) /\
  exists stored,
    hash_password (lit "admin") (Some [171; 205]) [] = Returned stored /\
    forall candidate : pystr,
      verify_password candidate stored = true <->
      exists pw pw',
        encode_utf8 (lit "admin") = Returned pw /\
        encode_utf8 candidate = Returned pw' /\
        hashlib.pbkdf2_hmac_sha256 pw' (salt_used (Some [171; 205]) []) 200000 =
        hashlib.pbkdf2_hmac_sha256 pw (salt_used (Some [171; 205]) []) 200000.
Proof.
  assert (Hsalt : is_bytes (salt_used (Some [171; 205]) []))
    by (repeat constructor; lia).
  split; [reflexivity|]. split; [exact Hsalt|].
  exact (verify_password_accepts (lit "admin") (Some [171; 205]) [] eq_refl Hsalt).
Defined.

(** X11.  What [verify_password] refuses without raising: a stored text
    that holds no colon, and a password that cannot be encoded (a lone
    surrogate), for which [hash_password] raises UnicodeEncodeError. *)
Theorem verify_password_refuses (password stored : pystr) (salt : option (list Z))
    (token : list Z) :
  (forallb (fun c => negb (c =? 58)) stored = true ->
   verify_password password stored = false) /\
  (encodable password = false ->
   verify_password password stored = false /\
   hash_password password salt token = Raised UnicodeEncodeError).
Proof.
  split.
  - intros H. unfold verify_password. now rewrite split_once_missing.
  - intros H. apply encode_utf8_not_encodable in H. split.
    + unfold verify_password. rewrite H.
      destruct (split_once 58 stored) as [|a [|b [|c l]]]; try reflexivity.
      destruct (bytes_fromhex a); reflexivity.
    + unfold hash_password. now rewrite H.
Qed.

(** ** Reading the payload back *)

(** X12.  The PIX key and the transaction id can be read back from a
    payload by a positional reader when the key has at most 77
    characters: field 26 holds the sub-fields 00 = BR.GOV.BCB.PIX and
    01 = the key, field 62 holds the sub-field 05 = the first 25
    characters of the transaction id. *)
Theorem build_pix_payload_key_txid
    (key merchant_name merchant_city : pystr) (amount : option Decimal)
    (txid : pystr)
    (Hkey : key <> []) (Hname : merchant_name <> []) (Hcity : merchant_city <> [])
    (Hlen : (length key <= 77)%nat) :
  (encodable key = true -> encodable merchant_name = true ->
   encodable merchant_city = true -> encodable txid = true ->
   representable amount = true ->
   exists p,
     build_pix_payload key merchant_name merchant_city amount txid = Returned p) /\
  (forall p,
     build_pix_payload key merchant_name merchant_city amount txid = Returned p ->
     exists fields account additional,
       tlv_parse p = Some fields /\
       tlv_lookup (lit "26") fields = Some account /\
       tlv_parse account =
         Some [(lit "00", lit "BR.GOV.BCB.PIX"); (lit "01", key)] /\
       tlv_lookup (lit "62") fields = Some additional /\
       tlv_parse additional = Some [(lit "05", firstn 25 txid)]).
Proof.
  split; [apply build_pix_payload_returns|].
  intros p Hret.
  destruct (build_pix_payload_structure _ _ _ _ _ _ Hkey Hname Hcity Hret)
    as (amount_text & body & data & _ & _ & _ & Hread & _).
  exists (payload_fields key merchant_name merchant_city amount_text txid
            (fmt_04X (_crc16_ccitt data))),
         (tlv_encode [(lit "00", lit "BR.GOV.BCB.PIX"); (lit "01", key)]),
         (tlv_encode [(lit "05", firstn 25 txid)]).
  split; [exact (Hread Hlen)|].
  split; [destruct amount_text; reflexivity|].
  split.
  { apply tlv_parse_encode.
    apply Forall_cons; [split; [reflexivity|cbn; lia]|].
    apply Forall_cons; [split; [reflexivity|cbn [snd]; lia]|apply Forall_nil]. }
  split; [destruct amount_text; reflexivity|].
  apply tlv_parse_encode.
  apply Forall_cons; [split; [reflexivity|]|apply Forall_nil].
  cbn [snd]. rewrite length_firstn. lia.
Qed.

Lemma build_pix_payload_key_txid_witness :
  lit "abc@bank" <> [] /\ lit "ADEGA" <> [] /\ lit "SAOPAULO" <> [] /\
  (length (lit "abc@bank") <= 77)%nat /\
  exists p fields account additional,
    build_pix_payload (lit "abc@bank") (lit "ADEGA") (lit "SAOPAULO") None
      (lit "VENDA1") = Returned p /\
    tlv_parse p = Some fields /\
    tlv_lookup (lit "26") fields = Some account /\
    tlv_parse account =
      Some [(lit "00", lit "BR.GOV.BCB.PIX"); (lit "01", lit "abc@bank")] /\
    tlv_lookup (lit "62") fields = Some additional /\
    tlv_parse additional = Some [(lit "05", lit "VENDA1")].
Proof.
  assert (Hkey : lit "abc@bank" <> []) by discriminate.
  assert (Hname : lit "ADEGA" <> []) by discriminate.
  assert (Hcity : lit "SAOPAULO" <> []) by discriminate.
  assert (Hlen : (length (lit "abc@bank") <= 77)%nat)
    by (apply Nat.leb_le; reflexivity).
  destruct (build_pix_payload_key_txid (lit "abc@bank") (lit "ADEGA") (lit "SAOPAULO")
              None (lit "VENDA1") Hkey Hname Hcity Hlen) as [Hreturns Hfields].
  destruct (Hreturns eq_refl eq_refl eq_refl eq_refl eq_refl) as [p Hret].
  destruct (Hfields p Hret) as (fields & account & additional & H1 & H2 & H3 & H4 & H5).
  split; [exact Hkey|]. split; [exact Hname|]. split; [exact Hcity|].
  split; [exact Hlen|].
  exists p, fields, account, additional.
  split; [exact Hret|]. split; [exact H1|]. split; [exact H2|].
  split; [exact H3|]. split; [exact H4|exact H5].
Defined.

(** X13.  The guard of [build_pix_payload] comes first: with an empty
    key, merchant name or merchant city the call returns the empty string
    whatever the amount and the transaction id are (it does not look at
    them, so it cannot raise); with none of them empty, whatever it returns
    starts with the payload format indicator 000201. *)
Theorem build_pix_payload_empty_input
    (key merchant_name merchant_city : pystr) (amount : option Decimal)
    (txid : pystr) :
  (key = [] \/ merchant_name = [] \/ merchant_city = [] ->
   build_pix_payload key merchant_name merchant_city amount txid = Returned []) /\
  (key <> [] -> merchant_name <> [] -> merchant_city <> [] ->
   forall p,
     build_pix_payload key merchant_name merchant_city amount txid = Returned p ->
     firstn 6 p = lit "000201").
Proof.
  split.
  - intros [->|[->| ->]]; unfold build_pix_payload; cbn [truthy negb orb].
    + reflexivity.
    + now rewrite orb_true_r.
    + now rewrite orb_true_r.
  - intros Hkey Hname Hcity p Hret.
    destruct (build_pix_payload_structure _ _ _ _ _ _ Hkey Hname Hcity Hret)
      as (amount_text & body & data & -> & _).
    reflexivity.
Qed.

(** ** The product form and the CSV import *)

Lemma dict_get_set (d : dict) (k k' : pystr) (v : pyobj) :
  dict_get (dict_set d k v) k' = if pystr_eqb k k' then v else dict_get d k'.
Proof.
  induction d as [|[k0 v0] rest IH]; cbn [dict_set dict_get].
  - reflexivity.
  - destruct (pystr_eqb_spec k0 k) as [->|Hne]; cbn [dict_get].
    + destruct (pystr_eqb k k'); reflexivity.
    + rewrite IH. destruct (pystr_eqb_spec k0 k') as [->|Hne'].
      * now rewrite pystr_eqb_neq by congruence.
      * reflexivity.
Qed.

Lemma dict_has_set {V : Type} (d : list (pystr * V)) (k k' : pystr) (v : V) :
  dict_has (dict_set d k v) k' = dict_has d k' || pystr_eqb k k'.
Proof.
  unfold dict_has.
  induction d as [|[k0 v0] rest IH]; cbn [dict_set existsb fst].
  - now rewrite orb_false_r.
  - destruct (pystr_eqb_spec k0 k) as [->|Hne]; cbn [existsb fst].
    + destruct (pystr_eqb k k'); [reflexivity|]. now rewrite !orb_false_l, orb_false_r.
    + rewrite IH. now rewrite orb_assoc.
Qed.

Lemma dict_has_In {V : Type} (d : list (pystr * V)) (k : pystr) :
  dict_has d k = true <-> exists v, In (k, v) d.
Proof.
  unfold dict_has. rewrite existsb_exists. split.
  - intros [[k0 v] [Hin Heq]]. cbn [fst] in Heq.
    apply pystr_eqb_eq in Heq. subst k0. now exists v.
  - intros [v Hin]. exists (k, v). split; [exact Hin|apply pystr_eqb_refl].
Qed.

Lemma In_dict_set {V : Type} (d : list (pystr * V)) (k : pystr) (v : V) :
  In (k, v) (dict_set d k v).
Proof.
  induction d as [|[k0 v0] rest IH]; cbn [dict_set].
  - now left.
  - destruct (pystr_eqb_spec k0 k) as [->|Hne]; [now left|now right].
Qed.

Lemma In_dict_set_same {V : Type} (d : list (pystr * V)) (k k' : pystr) (v : V) :
  In (k, v) d -> In (k, v) (dict_set d k' v).
Proof.
  induction d as [|[k0 v0] rest IH]; cbn [dict_set]; [contradiction|].
  intros [Heq|Hin].
  - injection Heq as -> ->. destruct (pystr_eqb k k'); now left.
  - destruct (pystr_eqb k0 k'); right; [exact Hin|now apply IH].
Qed.

Lemma stripped_cells_error (cells : list (pystr * option pystr)) (data : dict)
    (e : pyexc) :
  stripped_cells cells data = Failed e -> e = AttributeError.
Proof.
  revert data. induction cells as [|[k [s|]] more IH]; intros data; cbn [stripped_cells].
  - discriminate.
  - apply IH.
  - congruence.
Qed.

Lemma stripped_cells_none (cells : list (pystr * option pystr)) (data : dict)
    (k : pystr) :
  In (k, None) cells -> stripped_cells cells data = Failed AttributeError.
Proof.
  revert data. induction cells as [|[k0 [s|]] more IH]; intros data Hin;
    cbn [stripped_cells].
  - contradiction.
  - destruct Hin as [Heq|Hin]; [discriminate|now apply IH].
  - reflexivity.
Qed.

Lemma stripped_cells_has (cells : list (pystr * option pystr)) (data data' : dict)
    (k : pystr) :
  stripped_cells cells data = Done data' ->
  dict_has data' k = dict_has data k || dict_has cells k.
Proof.
  revert data. induction cells as [|[k0 [s|]] more IH]; intros data;
    cbn [stripped_cells].
  - intros [= ->]. now rewrite orb_false_r.
  - intros H. rewrite (IH _ H), dict_has_set.
    change (dict_has ((k0, Some s) :: more) k)
      with (pystr_eqb k0 k || dict_has more k).
    now rewrite orb_assoc.
  - discriminate.
Qed.

Lemma stripped_cells_text (cells : list (pystr * option pystr)) (data data' : dict) :
  stripped_cells cells data = Done data' ->
  (forall k, dict_has data k = true -> is_text (dict_get data k)) ->
  forall k, dict_has data' k = true -> is_text (dict_get data' k).
Proof.
  revert data. induction cells as [|[k0 [s|]] more IH]; intros data;
    cbn [stripped_cells].
  - intros [= ->] H. exact H.
  - intros H Hdata. apply (IH _ H). intros k.
    rewrite dict_has_set, dict_get_set.
    destruct (pystr_eqb k0 k); [intros _; now exists (strip s)|].
    rewrite orb_false_r. apply Hdata.
  - discriminate.
Qed.

Lemma convert_columns_spec (convert : pyobj -> result pyobj) (keys : list pystr)
    (data data' : dict) :
  NoDup keys ->
  convert_columns convert keys data = Done data' ->
  (forall k, dict_has data' k = dict_has data k) /\
  (forall k, In k keys -> dict_has data k = true ->
             convert (dict_get data k) = Done (dict_get data' k)) /\
  (forall k, ~ In k keys -> dict_get data' k = dict_get data k).
Proof.
  intros Hnd. revert data. induction Hnd as [|k0 more Hnotin Hnd IH]; intros data;
    cbn [convert_columns].
  - intros [= ->]. repeat split; intros; try reflexivity; contradiction.
  - destruct (dict_has data k0) eqn:Hhas.
    + destruct (convert (dict_get data k0)) as [v|e] eqn:Hconv; cbn [and_then];
        [|discriminate].
      intros H. destruct (IH _ H) as (Hkeys & Hin & Hout).
      split; [|split].
      * intros k. rewrite Hkeys, dict_has_set.
        destruct (pystr_eqb_spec k0 k) as [<-|_];
          [now rewrite Hhas|now rewrite orb_false_r].
      * intros k [<-|Hk] Hk'.
        -- rewrite (Hout _ Hnotin), dict_get_set, pystr_eqb_refl. exact Hconv.
        -- assert (Hne : k0 <> k) by (intros ->; contradiction).
           rewrite <- (Hin k Hk).
           ++ now rewrite dict_get_set, pystr_eqb_neq.
           ++ now rewrite dict_has_set, Hk'.
      * intros k Hk. rewrite Hout by (intros Hk'; apply Hk; now right).
        rewrite dict_get_set, pystr_eqb_neq; [reflexivity|].
        intros ->. apply Hk. now left.
    + intros H. destruct (IH _ H) as (Hkeys & Hin & Hout).
      split; [exact Hkeys|split].
      * intros k [<-|Hk] Hk'; [congruence|now apply Hin].
      * intros k Hk. apply Hout. intros Hk'. apply Hk. now right.
Qed.

Lemma dict_get_missing (d : dict) (k : pystr) :
  dict_has d k = false -> dict_get d k = PyNone.
Proof.
  unfold dict_has. induction d as [|[k0 v0] rest IH]; cbn [existsb dict_get fst].
  - reflexivity.
  - destruct (pystr_eqb k0 k); [discriminate|exact IH].
Qed.

Lemma int_cell_int (v w : pyobj) :
  int_cell v = Done w -> exists n, w = PyInt n.
Proof.
  unfold int_cell. destruct (py_truthy v).
  - destruct (py_int v) as [n|e]; cbn [and_then]; [|discriminate].
    intros [= <-]. now exists n.
  - intros [= <-]. now exists 0.
Qed.

Ltac lit_neq := let E := fresh in intros E; vm_compute in E; discriminate E.

Ltac dict_simpl :=
  repeat first
    [ rewrite dict_get_set
    | rewrite dict_has_set
    | rewrite pystr_eqb_refl
    | rewrite pystr_eqb_neq by lit_neq
    | rewrite orb_false_r
    | rewrite orb_true_r ].

Lemma optional_columns_spec (d data : dict) :
  optional_columns d = Done data ->
  (forall k, In k (map lit ["supplier_id"; "vintage"; "volume_ml"]%string) ->
             dict_has d k = true /\
             dict_get data k = py_or_obj (dict_get d k) PyNone) /\
  exists n, py_int (py_or_obj (dict_get d (lit "active")) (PyInt 1)) = Done n /\
            dict_get data (lit "active") = PyInt n.
Proof.
  unfold optional_columns.
  set (d0 := if py_truthy (dict_get d (lit "expiry")) then d
             else dict_set d (lit "expiry") PyNone).
  assert (Hget : forall k, k <> lit "expiry" -> dict_get d0 k = dict_get d k).
  { intros k Hk. subst d0. destruct (py_truthy _); [reflexivity|].
    rewrite dict_get_set, pystr_eqb_neq by congruence. reflexivity. }
  assert (Hhas : forall k, k <> lit "expiry" -> dict_has d0 k = dict_has d k).
  { intros k Hk. subst d0. destruct (py_truthy _); [reflexivity|].
    rewrite dict_has_set, pystr_eqb_neq by congruence. apply orb_false_r. }
  unfold dict_item.
  destruct (dict_has d0 (lit "supplier_id")) eqn:H1; cbn [and_then]; [|discriminate].
  dict_simpl.
  destruct (dict_has d0 (lit "vintage")) eqn:H2; cbn [and_then]; [|discriminate].
  dict_simpl.
  destruct (dict_has d0 (lit "volume_ml")) eqn:H3; cbn [and_then]; [|discriminate].
  dict_simpl.
  rewrite Hget by lit_neq.
  destruct (py_int _) as [n|e] eqn:Hn; cbn [and_then]; [|discriminate].
  intros [= <-]. split.
  - intros k [<-|[<-|[<-|[]]]]; dict_simpl.
    + rewrite <- Hhas, Hget by lit_neq. now split.
    + rewrite <- Hhas, Hget by lit_neq. now split.
    + rewrite <- Hhas, Hget by lit_neq. now split.
  - exists n. split; [reflexivity|]. now dict_simpl.
Qed.

Ltac nodup_literals :=
  cbn [map];
  repeat (apply NoDup_cons;
          [ let H := fresh in
            cbn [In]; intros H;
            repeat (destruct H as [H|H]; [vm_compute in H; discriminate H|]);
            exact H
          | ]);
  apply NoDup_nil.

Lemma NoDup_int_columns : NoDup int_columns.
Proof. unfold int_columns. nodup_literals. Qed.

Lemma NoDup_decimal_columns : NoDup decimal_columns.
Proof. unfold decimal_columns. nodup_literals. Qed.

Lemma import_row_stages (row : csv_row) (data : dict) :
  import_row row = Done data ->
  exists d1 d2 d3,
    stripped_cells (named row) [] = Done d1 /\
    surplus row = None /\
    convert_columns int_cell int_columns d1 = Done d2 /\
    convert_columns decimal_cell decimal_columns d2 = Done d3 /\
    optional_columns d3 = Done data.
Proof.
  unfold import_row.
  destruct (stripped_cells (named row) []) as [d1|e] eqn:E1; cbn [and_then];
    [|discriminate].
  destruct (surplus row) eqn:E0; cbn [and_then]; [discriminate|].
  destruct (convert_columns int_cell int_columns d1) as [d2|e] eqn:E2;
    cbn [and_then]; [|discriminate].
  destruct (convert_columns decimal_cell decimal_columns d2) as [d3|e] eqn:E3;
    cbn [and_then]; [|discriminate].
  intros H. exists d1, d2, d3. repeat split; assumption.
Qed.

(** After the two loops a column of whole numbers, if the file has it,
    holds an [int]. *)
Lemma import_row_int_column (d1 d2 d3 : dict) (k : pystr) :
  convert_columns int_cell int_columns d1 = Done d2 ->
  convert_columns decimal_cell decimal_columns d2 = Done d3 ->
  In k int_columns ->
  dict_get d3 k = PyNone \/ exists n, dict_get d3 k = PyInt n.
Proof.
  intros H2 H3 Hk.
  destruct (convert_columns_spec _ _ _ _ NoDup_int_columns H2) as (Hhas & Hin & _).
  destruct (convert_columns_spec _ _ _ _ NoDup_decimal_columns H3) as (_ & _ & Hout).
  rewrite Hout.
  - destruct (dict_has d1 k) eqn:Hk1.
    + right. apply (int_cell_int (dict_get d1 k)). now apply Hin.
    + left. apply dict_get_missing. now rewrite Hhas.
  - unfold int_columns in Hk. unfold decimal_columns. cbn [map In] in Hk |- *.
    intros H.
    repeat (destruct Hk as [Hk|Hk]; [subst k;
      repeat (destruct H as [H|H]; [vm_compute in H; discriminate H|]); exact H|]).
    exact Hk.
Qed.

(** X14.  A row the CSV import accepts is never handed on as inactive:
    [active] is a non-zero [int].  And the supplier id, the vintage and
    the volume are [None] or a non-zero [int]: a zero is never handed
    on. *)
Theorem import_row_never_inactive (row : csv_row) (data : dict)
    (Hrow : import_row row = Done data) :
  (exists n, n <> 0 /\ dict_get data (lit "active") = PyInt n) /\
  (forall k, In k (map lit ["supplier_id"; "vintage"; "volume_ml"]%string) ->
     dict_get data k = PyNone \/ exists n, n <> 0 /\ dict_get data k = PyInt n).
Proof.
  destruct (import_row_stages _ _ Hrow) as (d1 & d2 & d3 & _ & _ & H2 & H3 & H4).
  destruct (optional_columns_spec _ _ H4) as (Hopt & n & Hn & Hactive).
  split.
  - exists n. split; [|exact Hactive].
    assert (Hin : In (lit "active") int_columns)
      by (unfold int_columns; cbn [map In]; tauto).
    destruct (import_row_int_column d1 d2 d3 (lit "active") H2 H3 Hin) as [E|[m E]].
    + rewrite E in Hn. cbn in Hn. injection Hn as <-. discriminate.
    + rewrite E in Hn. unfold py_or_obj, py_truthy in Hn.
      destruct (m =? 0) eqn:Em; cbn [negb py_int] in Hn; injection Hn as <-;
        [discriminate|now apply Z.eqb_neq].
  - intros k Hk. destruct (Hopt k Hk) as [_ ->].
    assert (Hin : In k int_columns)
      by (unfold int_columns; cbn [map In] in Hk |- *; tauto).
    destruct (import_row_int_column d1 d2 d3 k H2 H3 Hin) as [E|[m E]].
    + left. now rewrite E.
    + rewrite E. unfold py_or_obj, py_truthy.
      destruct (m =? 0) eqn:Em; cbn [negb]; [now left|].
      right. exists m. split; [now apply Z.eqb_neq|reflexivity].
Qed.

Lemma import_row_never_inactive_witness :
  let row :=
    DictReader_row
      (map lit ["sku"; "supplier_id"; "vintage"; "volume_ml"; "active"]%string)
      (map lit ["A1"; "0"; ""; "750"; "0"]%string) in
  exists data,
    import_row row = Done data /\
    dict_get data (lit "active") = PyInt 1 /\
    dict_get data (lit "supplier_id") = PyNone /\
    dict_get data (lit "volume_ml") = PyInt 750 /\
    (exists n, n <> 0 /\ dict_get data (lit "active") = PyInt n) /\
    (forall k, In k (map lit ["supplier_id"; "vintage"; "volume_ml"]%string) ->
       dict_get data k = PyNone \/ exists n, n <> 0 /\ dict_get data k = PyInt n).
Proof.
  intros row. eexists.
  split; [vm_compute; reflexivity|].
  split; [vm_compute; reflexivity|].
  split; [vm_compute; reflexivity|].
  split; [vm_compute; reflexivity|].
  apply (import_row_never_inactive row). vm_compute. reflexivity.
Defined.

Lemma fold_cells_has (l : list (pystr * pystr)) (d : list (pystr * option pystr))
    (k : pystr) :
  dict_has (fold_left (fun d kv => dict_set d (fst kv) (Some (snd kv))) l d) k =
  dict_has d k || existsb (fun kv => pystr_eqb (fst kv) k) l.
Proof.
  revert d. induction l as [|[k0 v0] l IH]; intros d; cbn [fold_left existsb fst snd].
  - now rewrite orb_false_r.
  - now rewrite IH, dict_has_set, orb_assoc.
Qed.

Lemma fold_missing_has (keys : list pystr) (d : list (pystr * option pystr))
    (k : pystr) :
  dict_has (fold_left (fun d key => dict_set d key None) keys d) k =
  dict_has d k || existsb (fun key => pystr_eqb key k) keys.
Proof.
  revert d. induction keys as [|k0 keys IH]; intros d; cbn [fold_left existsb].
  - now rewrite orb_false_r.
  - now rewrite IH, dict_has_set, orb_assoc.
Qed.

Lemma fold_missing_In (keys : list pystr) (d : list (pystr * option pystr))
    (k : pystr) :
  In (k, None) d ->
  In (k, None) (fold_left (fun d key => dict_set d key None) keys d).
Proof.
  revert d. induction keys as [|k0 keys IH]; intros d Hin; cbn [fold_left].
  - exact Hin.
  - apply IH. now apply In_dict_set_same.
Qed.

(** The keys of a row are names of the header. *)
Lemma DictReader_row_has (fieldnames cells : list pystr) (k : pystr) :
  ~ In k fieldnames ->
  dict_has (named (DictReader_row fieldnames cells)) k = false.
Proof.
  intros Hk.
  assert (Hcells : existsb (fun kv : pystr * pystr => pystr_eqb (fst kv) k)
                     (combine fieldnames cells) = false).
  { apply not_true_is_false. intros H. apply existsb_exists in H as [[k0 v] [Hin Heq]].
    cbn [fst] in Heq. apply pystr_eqb_eq in Heq. subst k0.
    apply in_combine_l in Hin. contradiction. }
  assert (Hrest : existsb (fun key => pystr_eqb key k)
                    (skipn (length cells) fieldnames) = false).
  { apply not_true_is_false. intros H. apply existsb_exists in H as [k0 [Hin Heq]].
    apply pystr_eqb_eq in Heq. subst k0.
    apply Hk. rewrite <- (firstn_skipn (length cells) fieldnames).
    apply in_or_app. now right. }
  unfold DictReader_row.
  destruct (_ <? _)%nat; [|destruct (_ <? _)%nat]; cbn [named].
  - now rewrite fold_cells_has, Hcells.
  - now rewrite fold_missing_has, fold_cells_has, Hcells, Hrest.
  - now rewrite fold_cells_has, Hcells.
Qed.

(** A row without one of the three columns the code reads with
    [data[...]] is not imported. *)
Lemma import_row_missing_column (row : csv_row) (k : pystr) :
  In k (map lit ["supplier_id"; "vintage"; "volume_ml"]%string) ->
  dict_has (named row) k = false ->
  exists e, import_row row = Failed e.
Proof.
  intros Hk Hmissing.
  destruct (import_row row) as [data|e] eqn:Hrow; [exfalso|now exists e].
  destruct (import_row_stages _ _ Hrow) as (d1 & d2 & d3 & H1 & _ & H2 & H3 & H4).
  destruct (optional_columns_spec _ _ H4) as (Hopt & _).
  destruct (Hopt k Hk) as [Hhas _].
  destruct (convert_columns_spec _ _ _ _ NoDup_int_columns H2) as (Hhas2 & _).
  destruct (convert_columns_spec _ _ _ _ NoDup_decimal_columns H3) as (Hhas3 & _).
  rewrite Hhas3, Hhas2, (stripped_cells_has _ _ _ k H1), Hmissing in Hhas.
  discriminate.
Qed.

Lemma import_csv_all_fail (upsert : dict -> bool) (fieldnames : list pystr)
    (lines : list (list pystr)) :
  (forall cells, cells <> [] ->
     exists e, import_row (DictReader_row fieldnames cells) = Failed e) ->
  import_csv upsert fieldnames lines = (0%nat, rows_read lines).
Proof.
  intros Hfail. unfold import_csv, rows_read.
  enough (Hgen : forall count errors : nat,
    fold_left
      (fun counts cells =>
         match cells with
         | [] => counts
         | _ :: _ =>
             match import_row (DictReader_row fieldnames cells) with
             | Done data =>
                 if upsert data then (S (fst counts), snd counts)
                 else (fst counts, S (snd counts))
             | Failed _ => (fst counts, S (snd counts))
             end
         end)
      lines (count, errors) =
    (count,
     (errors + length (filter
        (fun cells : list pystr => match cells with [] => false | _ :: _ => true end)
        lines))%nat)) by exact (Hgen 0%nat 0%nat).
  induction lines as [|cells lines IH]; intros count errors; cbn [fold_left filter].
  - cbn [length]. now rewrite Nat.add_0_r.
  - destruct cells as [|c cells]; [apply IH|].
    destruct (Hfail (c :: cells)) as [e ->]; [discriminate|].
    cbn [fst snd length]. rewrite IH. f_equal. lia.
Qed.

(** X15.  A file whose header lacks the column [supplier_id], [vintage]
    or [volume_ml] imports nothing: every row of it is counted as an
    error, whatever the other columns hold. *)
Theorem import_csv_required_columns (upsert : dict -> bool)
    (fieldnames : list pystr) (lines : list (list pystr)) (k : pystr)
    (Hk : In k (map lit ["supplier_id"; "vintage"; "volume_ml"]%string))
    (Hmissing : ~ In k fieldnames) :
  import_csv upsert fieldnames lines = (0%nat, rows_read lines).
Proof.
  apply import_csv_all_fail. intros cells _.
  apply (import_row_missing_column _ k Hk).
  now apply DictReader_row_has.
Qed.

Lemma import_csv_required_columns_witness :
  let header := map lit ["sku"; "name"; "cost_price"; "supplier_id"; "vintage"]%string in
  let lines := [map lit ["A1"; "Tinto"; "10,00"; "1"; "2020"]%string; [];
                map lit ["A2"; "Branco"; "12,00"; ""; ""]%string] in
  In (lit "volume_ml") (map lit ["supplier_id"; "vintage"; "volume_ml"]%string) /\
  ~ In (lit "volume_ml") header /\
  import_csv (fun _ => true) header lines = (0%nat, 2%nat).
Proof.
  intros header lines.
  assert (Hk : In (lit "volume_ml")
                 (map lit ["supplier_id"; "vintage"; "volume_ml"]%string))
    by (cbn [map In]; tauto).
  assert (Hmissing : ~ In (lit "volume_ml") header).
  { subst header. cbn [map In]. intros H.
    repeat (destruct H as [H|H]; [vm_compute in H; discriminate H|]). exact H. }
  split; [exact Hk|]. split; [exact Hmissing|].
  exact (import_csv_required_columns (fun _ => true) header lines (lit "volume_ml")
           Hk Hmissing).
Defined.

(** X16.  A line whose number of cells differs from the number of names
    in the header is not imported: reading it ends in an
    [AttributeError], which the loop counts as an error. *)
Theorem import_row_cell_count (fieldnames cells : list pystr)
    (Hcount : length cells <> length fieldnames) :
  import_row (DictReader_row fieldnames cells) = Failed AttributeError.
Proof.
  unfold import_row, DictReader_row.
  destruct (Nat.ltb_spec (length fieldnames) (length cells)) as [Hlt|Hge];
    cbn [named surplus].
  - destruct (stripped_cells _ []) as [d1|e] eqn:H1; cbn [and_then]; [reflexivity|].
    now rewrite (stripped_cells_error _ _ _ H1).
  - destruct (Nat.ltb_spec (length cells) (length fieldnames)) as [Hlt|Hge'];
      [|lia]. cbn [named surplus].
    destruct (skipn (length cells) fieldnames) as [|k0 keys] eqn:Hskip.
    { apply (f_equal (@length pystr)) in Hskip. rewrite length_skipn in Hskip.
      cbn [length] in Hskip. lia. }
    cbn [fold_left].
    rewrite (stripped_cells_none _ [] k0); [reflexivity|].
    apply fold_missing_In, In_dict_set.
Qed.

Lemma import_row_cell_count_witness :
  let header := map lit ["sku"; "supplier_id"; "vintage"; "volume_ml"]%string in
  length (map lit ["A1"; "1"; "2020"]%string) <> length header /\
  length (map lit ["A1"; "1"; "2020"; "750"; "x"]%string) <> length header /\
  import_row (DictReader_row header (map lit ["A1"; "1"; "2020"]%string)) =
    Failed AttributeError /\
  import_row (DictReader_row header (map lit ["A1"; "1"; "2020"; "750"; "x"]%string)) =
    Failed AttributeError.
Proof.
  intros header.
  assert (H3 : length (map lit ["A1"; "1"; "2020"]%string) <> length header)
    by (cbn; lia).
  assert (H5 : length (map lit ["A1"; "1"; "2020"; "750"; "x"]%string) <> length header)
    by (cbn; lia).
  split; [exact H3|]. split; [exact H5|]. split.
  - exact (import_row_cell_count header _ H3).
  - exact (import_row_cell_count header _ H5).
Defined.

Lemma Done_inj {A : Type} (a b : A) : Done a = Done b -> a = b.
Proof. congruence. Qed.

Lemma dict_of_keys (f : pystr -> pyobj) (keys : list pystr) (k : pystr) :
  In k keys ->
  dict_has (map (fun k => (k, f k)) keys) k = true /\
  dict_get (map (fun k => (k, f k)) keys) k = f k.
Proof.
  unfold dict_has.
  induction keys as [|k0 keys IH]; cbn [In map existsb dict_get fst]; [contradiction|].
  intros Hin. destruct (pystr_eqb_spec k0 k) as [->|Hne]; [now split|].
  destruct Hin as [Heq|Hin]; [contradiction|]. now apply IH.
Qed.

Ltac in_form_keys :=
  unfold form_keys; cbn [map In]; repeat (first [left; reflexivity|right]).

Lemma and_then_done {A B : Type} (r : result A) (k : A -> result B) (b : B) :
  and_then r k = Done b -> exists a, r = Done a /\ k a = Done b.
Proof. destruct r as [a|e]; cbn [and_then]; [now exists a|discriminate]. Qed.

Lemma dict_item_done (d : dict) (k : pystr) (v : pyobj) :
  dict_item d k = Done v -> v = dict_get d k.
Proof. unfold dict_item. destruct (dict_has d k); congruence. Qed.

Lemma lift_done {A : Type} (o : outcome A) (a : A) :
  lift o = Done a -> o = Returned a.
Proof. destruct o; cbn [lift]; congruence. Qed.

Ltac dict_norm_in H :=
  repeat first
    [ rewrite dict_get_set in H
    | rewrite pystr_eqb_refl in H
    | rewrite pystr_eqb_neq in H by lit_neq ].

Ltac save_item H v :=
  let Hv := fresh "Hv" in
  apply and_then_done in H as (v & Hv & H);
  apply dict_item_done in Hv; subst v.

(** What [_save] hands on for each field it converts. *)
Lemma _save_spec (text : pystr -> pystr) (data : dict) :
  _save text = Done data ->
  (exists x, to_decimal (PyStr (strip (text (lit "cost_price")))) = Returned x /\
             dict_get data (lit "cost_price") = PyDecimal x) /\
  (exists x, to_decimal (PyStr (strip (text (lit "margin_pct")))) = Returned x /\
             dict_get data (lit "margin_pct") = PyDecimal x) /\
  (exists x, to_decimal (py_or_obj (PyStr (strip (text (lit "sale_price"))))
                            (PyInt 0)) = Returned x /\
             dict_get data (lit "sale_price") = PyDecimal x) /\
  (exists n, py_int (py_or_obj (PyStr (strip (text (lit "stock_qty")))) (PyInt 0)) = Done n /\
             dict_get data (lit "stock_qty") = PyInt n) /\
  (exists n, py_int (py_or_obj (PyStr (strip (text (lit "min_stock")))) (PyInt 0)) = Done n /\
             dict_get data (lit "min_stock") = PyInt n) /\
  (exists n, py_int (py_or_obj (PyStr (strip (text (lit "supplier_id")))) (PyInt 0)) = Done n /\
             dict_get data (lit "supplier_id") = int_or_none n) /\
  (exists n, py_int (py_or_obj (PyStr (strip (text (lit "vintage")))) (PyInt 0)) = Done n /\
             dict_get data (lit "vintage") = int_or_none n) /\
  (exists n, py_int (py_or_obj (PyStr (strip (text (lit "volume_ml")))) (PyInt 0)) = Done n /\
             dict_get data (lit "volume_ml") = int_or_none n) /\
  (exists x, to_decimal (py_or_obj (PyStr (strip (text (lit "abv")))) (PyInt 0)) = Returned x /\
             dict_get data (lit "abv") = PyDecimal x) /\
  dict_get data (lit "expiry") = py_or_obj (PyStr (strip (text (lit "expiry")))) PyNone /\
  (exists n, py_int (py_or_obj (PyStr (strip (text (lit "active")))) (PyInt 1)) = Done n /\
             dict_get data (lit "active") = PyInt n).
Proof.
  unfold _save.
  set (data0 := map (fun k => (k, PyStr (strip (text k)))) form_keys).
  assert (Hget : forall k, In k form_keys -> dict_get data0 k = PyStr (strip (text k)))
    by (intros k Hk; apply (dict_of_keys (fun k => PyStr (strip (text k)))), Hk).
  cbv zeta. intros H.
  save_item H v1. apply and_then_done in H as (xc & Hxc & H). apply lift_done in Hxc.
  save_item H v2. apply and_then_done in H as (xm & Hxm & H). apply lift_done in Hxm.
  apply and_then_done in H as (xs & Hxs & H). apply lift_done in Hxs.
  save_item H v3. apply and_then_done in H as (n1 & Hn1 & H).
  save_item H v4. apply and_then_done in H as (n2 & Hn2 & H).
  save_item H v5. apply and_then_done in H as (n3 & Hn3 & H).
  save_item H v6. apply and_then_done in H as (n4 & Hn4 & H).
  save_item H v7. apply and_then_done in H as (n5 & Hn5 & H).
  save_item H v8. apply and_then_done in H as (xa & Hxa & H). apply lift_done in Hxa.
  save_item H v9.
  save_item H v10. apply and_then_done in H as (n6 & Hn6 & H).
  apply Done_inj in H. subst data.
  dict_norm_in Hxc; dict_norm_in Hxm; dict_norm_in Hxs; dict_norm_in Hn1;
  dict_norm_in Hn2; dict_norm_in Hn3; dict_norm_in Hn4; dict_norm_in Hn5;
  dict_norm_in Hxa; dict_norm_in Hn6.
  rewrite Hget in Hxc, Hxm, Hxs, Hn1, Hn2, Hn3, Hn4, Hn5, Hxa, Hn6 by in_form_keys.
  repeat split; try (eexists; split; [eassumption|]); dict_simpl;
    rewrite ?Hget by in_form_keys; reflexivity.
Qed.

Lemma int_field_cases (s : pystr) (default n : Z) :
  py_int (py_or_obj (PyStr s) (PyInt default)) = Done n ->
  (s = [] -> n = default) /\
  (forall m, int_of_str s = Some m -> n = m).
Proof.
  unfold py_or_obj, py_truthy. destruct s as [|c s]; cbn [truthy py_int].
  - intros [= <-]. split; [reflexivity|]. intros m Hm. discriminate Hm.
  - destruct (int_of_str (c :: s)) as [m|]; [|discriminate].
    intros [= <-]. split; [discriminate|]. now intros ? [= <-].
Qed.

(** X17.  What [ProductForm._save] makes of the fields that hold whole
    numbers: an empty supplier id, vintage or volume, and one that reads
    as zero, is handed on as [None], any other number as it is; an empty
    stock or minimum stock is 0; an empty [active] is 1, while a typed 0
    stays 0. *)
Theorem _save_optional_numbers (text : pystr -> pystr) (data : dict)
    (Hsave : _save text = Done data) :
  (forall k, In k ["supplier_id"; "vintage"; "volume_ml"]%string ->
     (strip (text (lit k)) = [] -> dict_get data (lit k) = PyNone) /\
     (forall n, int_of_str (strip (text (lit k))) = Some n ->
                dict_get data (lit k) = if n =? 0 then PyNone else PyInt n)) /\
  (forall k, In k ["stock_qty"; "min_stock"]%string ->
     (strip (text (lit k)) = [] -> dict_get data (lit k) = PyInt 0) /\
     (forall n, int_of_str (strip (text (lit k))) = Some n ->
                dict_get data (lit k) = PyInt n)) /\
  (strip (text (lit "active")) = [] -> dict_get data (lit "active") = PyInt 1) /\
  (forall n, int_of_str (strip (text (lit "active"))) = Some n ->
             dict_get data (lit "active") = PyInt n).
Proof.
  destruct (_save_spec _ _ Hsave)
    as (_ & _ & _ & (n1 & Hn1 & E1) & (n2 & Hn2 & E2) & (n3 & Hn3 & E3)
        & (n4 & Hn4 & E4) & (n5 & Hn5 & E5) & _ & _ & (n6 & Hn6 & E6)).
  apply int_field_cases in Hn1 as [Hn1 Hn1'], Hn2 as [Hn2 Hn2'], Hn3 as [Hn3 Hn3'],
    Hn4 as [Hn4 Hn4'], Hn5 as [Hn5 Hn5'], Hn6 as [Hn6 Hn6'].
  split; [|split; [|split]].
  - intros k [<-|[<-|[<-|[]]]]; split.
    + intros H. now rewrite E3, (Hn3 H).
    + intros n H. now rewrite E3, (Hn3' n H).
    + intros H. now rewrite E4, (Hn4 H).
    + intros n H. now rewrite E4, (Hn4' n H).
    + intros H. now rewrite E5, (Hn5 H).
    + intros n H. now rewrite E5, (Hn5' n H).
  - intros k [<-|[<-|[]]]; split.
    + intros H. now rewrite E1, (Hn1 H).
    + intros n H. now rewrite E1, (Hn1' n H).
    + intros H. now rewrite E2, (Hn2 H).
    + intros n H. now rewrite E2, (Hn2' n H).
  - intros H. now rewrite E6, (Hn6 H).
  - intros n H. now rewrite E6, (Hn6' n H).
Qed.

Lemma _save_optional_numbers_witness :
  let text := fun k =>
    if pystr_eqb k (lit "vintage") then lit " 0 "
    else if pystr_eqb k (lit "volume_ml") then lit "750"
    else if pystr_eqb k (lit "active") then lit "0"
    else [] in
  exists data,
    _save text = Done data /\
    dict_get data (lit "supplier_id") = PyNone /\
    dict_get data (lit "vintage") = PyNone /\
    dict_get data (lit "volume_ml") = PyInt 750 /\
    dict_get data (lit "active") = PyInt 0 /\
    (strip (text (lit "active")) = [] -> dict_get data (lit "active") = PyInt 1) /\
    (forall n, int_of_str (strip (text (lit "active"))) = Some n ->
               dict_get data (lit "active") = PyInt n).
Proof.
  intros text. eexists.
  split; [vm_compute; reflexivity|].
  split; [vm_compute; reflexivity|].
  split; [vm_compute; reflexivity|].
  split; [vm_compute; reflexivity|].
  split; [vm_compute; reflexivity|].
  apply (_save_optional_numbers text). vm_compute. reflexivity.
Defined.

Lemma lstrip_map (g : Z -> Z) (s : pystr) :
  (forall c, isspace (g c) = isspace c) ->
  lstrip (map g s) = map g (lstrip s).
Proof.
  intros Hg. induction s as [|c s IH]; cbn [map lstrip]; [reflexivity|].
  rewrite Hg. destruct (isspace c); [exact IH|reflexivity].
Qed.

Lemma strip_map (g : Z -> Z) (s : pystr) :
  (forall c, isspace (g c) = isspace c) ->
  strip (map g s) = map g (strip s).
Proof.
  intros Hg. unfold strip, rstrip.
  now rewrite (lstrip_map g s Hg), <- map_rev, (lstrip_map g _ Hg), map_rev.
Qed.

(** [to_decimal] strips the text itself: stripping it first changes
    nothing. *)
Lemma to_decimal_strip (s : pystr) :
  to_decimal (PyStr (strip s)) = to_decimal (PyStr s).
Proof.
  unfold to_decimal. cbn [py_str]. unfold replace_char.
  assert (Hg : forall c, isspace (if c =? 44 then 46 else c) = isspace c).
  { intros c. destruct (Z.eqb_spec c 44) as [->|_]; reflexivity. }
  now rewrite (strip_map _ (strip s) Hg), strip_idem, <- (strip_map _ s Hg).
Qed.

(** X18.  Saving the form and then storing the product: the sale price
    [ProductRepo.upsert] derives from the dict [_save] hands on is the one
    it derives from the cost and the margin as typed; what the form holds
    as sale price plays no part in it. *)
Theorem _save_then_upsert (text : pystr -> pystr) (data : dict)
    (Hsave : _save text = Done data) :
  upsert_sale_price (dict_get data (lit "cost_price"))
                    (dict_get data (lit "margin_pct")) =
  upsert_sale_price (PyStr (text (lit "cost_price")))
                    (PyStr (text (lit "margin_pct"))).
Proof.
  destruct (_save_spec _ _ Hsave) as ((xc & Hxc & ->) & (xm & Hxm & ->) & _).
  rewrite to_decimal_strip in Hxc, Hxm.
  unfold upsert_sale_price. rewrite Hxc, Hxm. reflexivity.
Qed.

Lemma _save_then_upsert_witness :
  let text := fun k =>
    if pystr_eqb k (lit "cost_price") then lit " 2,50 "
    else if pystr_eqb k (lit "margin_pct") then lit "25"
    else if pystr_eqb k (lit "sale_price") then lit "99,90"
    else [] in
  exists data,
    _save text = Done data /\
    dict_get data (lit "sale_price") = PyDecimal (Fin false 9990 (-2)) /\
    upsert_sale_price (PyStr (text (lit "cost_price")))
                      (PyStr (text (lit "margin_pct"))) =
      Returned (Fin false 312 (-2)) /\
    upsert_sale_price (dict_get data (lit "cost_price"))
                      (dict_get data (lit "margin_pct")) =
    upsert_sale_price (PyStr (text (lit "cost_price")))
                      (PyStr (text (lit "margin_pct"))).
Proof.
  intros text. eexists.
  split; [vm_compute; reflexivity|].
  split; [vm_compute; reflexivity|].
  split; [vm_compute; reflexivity|].
  apply (_save_then_upsert text). vm_compute. reflexivity.
Defined.
